(** * Token price service: scheduler, update pipeline, Kafka publish client

    A shallow embedding of
      - [src/kafka/kafka-producer.service.ts]   (module [KafkaProducerService]),
      - [src/services/token-price-update.service.ts]
                                                (modules [Pipeline], [Scheduler]),
      - the [price] column of [src/models/token.entity.ts] and its migration
                                                (module [PriceColumn]),
      - the connection handling of the Kafka producer
                                                (module [KafkaProducerLifecycle]),
      - [src/migrations/*]                      (module [Migrations]),
      - [src/data/token.seeder.ts] and [src/app.module.ts]
                                                (module [Boot]),
    followed by the properties of the recurring-update core and of the code
    around it.

    Asynchronous code is embedded the way the JavaScript event loop runs it:
    an [async] function executes synchronously up to its next [await]; what
    the awaited collaborator answers (the broker, the store, the price source,
    a timer) is an input of the model. *)

From Stdlib Require Import ZArith List String Bool Lia Arith PeanoNat.
From Stdlib Require Import DecimalString.
From Equations Require Import Equations.
Import ListNotations.

Local Open Scope string_scope.
Local Open Scope list_scope.

(** ** Shared data *)

(** A finite JavaScript [number]: the binary64 value [mant * 2 ^ expo].
    [NaN] and the infinities are left out: they are no prices, and the
    decimal text of a price column value never parses to one. *)
Record number := { mant : Z; expo : Z }.

Definition num (z : Z) : number := {| mant := z; expo := 0 |}.

(** [a === b] on finite numbers: equality of the two values, compared on the
    common exponent [min (expo a) (expo b)]. *)
Definition strict_eq (a b : number) : bool :=
  let k := Z.min (expo a) (expo b) in
  (mant a * 2 ^ (expo a - k) =? mant b * 2 ^ (expo b - k))%Z.

(** [a !== b]. *)
Definition strict_neq (a b : number) : bool := negb (strict_eq a b).

(** An [Error]: its [message]. *)
Definition Error := string.

(** Outcome of an awaited promise: fulfilled with a value or rejected. *)
Inductive Settled (A : Type) :=
| Fulfilled (value : A)
| Rejected (reason : Error).
Arguments Fulfilled {A} value.
Arguments Rejected {A} reason.

Definition isRejected {A} (r : Settled A) : bool :=
  match r with Rejected _ => true | Fulfilled _ => false end.

(** The [Token] entity, restricted to the columns the update core touches
    ([symbol] is nullable; dates are epoch milliseconds). *)
Record Token := {
  id : string;
  symbol : option string;
  price : number;
  lastPriceUpdate : Z
}.

(** [TokenPriceUpdateMessage]. *)
Record Message := {
  tokenId : string;
  msgSymbol : string;
  oldPrice : number;
  newPrice : number;
  timestamp : Z
}.

(** Log lines, one constructor per template literal of the two services. *)
Inductive LogMessage :=
(* TokenPriceUpdateService *)
| AlreadyRunning
| StartingService (intervalSeconds : Z)
| SkippingIteration
| ErrorInInterval (e : Error)
| ErrorInInitialUpdate (e : Error)
| UpdatingPrices (count : nat)
| TokensFailed (count : nat)
| FailedToUpdateToken (reason : Error)
| ErrorUpdatingPrices (e : Error)
| UpdatedPrice (sym : option string) (old new : number)
| NotRunning
| StoppingService
| WaitingForUpdate
| ForcedShutdown
| ServiceStopped
(* KafkaProducerService *)
| SentMessage (value : Message)
| ErrorSending (attempt max : nat) (errorMessage : string)
| RetryingIn (delay : Z).

Inductive Level := LOG | WARN | ERROR.

Record LogEntry := { level : Level; line : LogMessage }.

Definition isWarn (e : LogEntry) : bool :=
  match level e with WARN => true | _ => false end.

(** Everything observable that a piece of the core does, in program order. *)
Inductive Effect :=
| PriceRequested
| EventCreated (m : Message)
| BrokerSend (key : string) (value : Message) (attempt : nat) (ok : bool)
| Sleep (ms : Z)
| StoreSave (t : Token) (ok : bool)
| Logged (e : LogEntry).

Definition logged (lv : Level) (m : LogMessage) : Effect :=
  Logged {| level := lv; line := m |}.

Definition isSend (e : Effect) : bool :=
  match e with BrokerSend _ _ _ _ => true | _ => false end.

Definition isSendOk (e : Effect) : bool :=
  match e with BrokerSend _ _ _ true => true | _ => false end.

Definition isSave (e : Effect) : bool :=
  match e with StoreSave _ _ => true | _ => false end.

Definition isEvent (e : Effect) : bool :=
  match e with EventCreated _ => true | _ => false end.

Definition isWarning (e : Effect) : bool :=
  match e with Logged l => isWarn l | _ => false end.

Definition sleepOf (e : Effect) : list Z :=
  match e with Sleep ms => [ms] | _ => [] end.

(** The delays slept through, in order, and their sum. *)
Definition sleeps (tr : list Effect) : list Z := flat_map sleepOf tr.

Definition totalWait (tr : list Effect) : Z := fold_right Z.add 0%Z (sleeps tr).

Definition count {A} (p : A -> bool) (l : list A) : nat := List.length (filter p l).

(** Case analysis that keeps the equation, for the recursive definitions. *)
Definition inspect {A} (a : A) : {b : A | a = b} := exist _ a eq_refl.

Definition showNat (n : nat) : string := NilZero.string_of_uint (Nat.to_uint n).

(** ** KafkaProducerService *)

Module KafkaProducerService.

Definition maxRetries : nat := 3.
Definition retryDelay : Z := 1000.

(** What the broker client answers to the [attempt]-th [producer.send] of
    one publish: [None] when it resolves, [Some msg] when it rejects with
    [Error(msg)]. *)
Definition Broker := nat -> option string.

(** [sendWithRetry(key, value, attempt)]: the recursion of the source, on
    the attempts left.  [attempt] starts at its default 1 and only grows, so
    [Math.pow(2, attempt - 1)] is the integer power [2 ^ (attempt - 1)]. *)
Equations? sendWithRetry (broker : Broker) (key : string) (value : Message)
    (attempt : nat) : list Effect * Settled unit
    by wf (maxRetries - attempt)%nat lt :=
  sendWithRetry broker key value attempt with inspect (broker attempt) => {
    | exist _ None _ := ([BrokerSend key value attempt true], Fulfilled tt);
    | exist _ (Some errorMessage) _ with inspect (attempt <? maxRetries)%nat => {
        | exist _ true _ :=
            let delay := (retryDelay * 2 ^ Z.of_nat (attempt - 1))%Z in
            let rest := sendWithRetry broker key value (attempt + 1)%nat in
            ([BrokerSend key value attempt false;
              logged ERROR (ErrorSending attempt maxRetries errorMessage);
              logged LOG (RetryingIn delay);
              Sleep delay] ++ fst rest, snd rest);
        | exist _ false _ :=
            ([BrokerSend key value attempt false;
              logged ERROR (ErrorSending attempt maxRetries errorMessage)],
             Rejected ("Failed to send message after " ++ showNat maxRetries
                       ++ " attempts: " ++ errorMessage)%string) } }.
Proof.
  apply Nat.ltb_lt in e0. unfold maxRetries in e0.
  destruct attempt as [|[|[|a]]]; simpl; lia.
Qed.

(** [sendPriceUpdateMessage(message)]; [schemaParse] stands for
    [tokenPriceUpdateMessageSchema.parse], whose schema is declared in
    [models/token-price-update-message]: [Some e] when it throws. *)
Definition sendPriceUpdateMessage (isConnected : bool)
    (schemaParse : Message -> option Error) (broker : Broker)
    (message : Message) : list Effect * Settled unit :=
  if negb isConnected then ([], Rejected "Kafka producer is not connected")
  else
    match schemaParse message with
    | Some e => ([], Rejected e)
    | None =>
        let value := message in
        let sent := sendWithRetry broker (tokenId message) value 1 in
        match snd sent with
        | Fulfilled _ =>
            (fst sent ++ [logged LOG (SentMessage value)], Fulfilled tt)
        | Rejected e => (fst sent, Rejected e)
        end
    end.

End KafkaProducerService.

(** ** The update pipeline of TokenPriceUpdateService *)

Module Pipeline.

(** What the collaborators answer while one item is processed. *)
Record ItemEnv := {
  priceResult : Settled number; (* priceService.getRandomPriceForToken() *)
  createdAt : Z;                (* the clock when the message is created *)
  broker : KafkaProducerService.Broker;
  savedAt : Z;                  (* the clock at [token.lastPriceUpdate = new Date()] *)
  saveResult : option Error     (* tokenRepository.save(token): [Some e] rejects *)
}.

(** What the collaborators answer during one tick. *)
Record Env := {
  isConnected : bool;                     (* KafkaProducerService.isConnected *)
  schemaParse : Message -> option Error;
  findResult : option Error;              (* tokenRepository.find(): [Some e] rejects *)
  item : Token -> ItemEnv
}.

(** [token.symbol || 'UNKNOWN']: [null] and the empty string are falsy. *)
Definition symbolOrUnknown (t : Token) : string :=
  match symbol t with
  | Some s => if String.eqb s "" then "UNKNOWN" else s
  | None => "UNKNOWN"
  end.

(** Modelled from the spec: [createTokenPriceUpdateMessage] of
    [models/token-price-update-message], which is not among the sources.
    A PriceChangeEvent is constructed fresh per detected change from item id,
    symbol, old price and new price; its timestamp defaults to the creation
    time. *)
Definition createTokenPriceUpdateMessage (creationTime : Z) (tid sym : string)
    (old new : number) : Message :=
  {| tokenId := tid; msgSymbol := sym; oldPrice := old; newPrice := new;
     timestamp := creationTime |}.

(** One run of [updateTokenPrice]: its effects in program order, how its
    promise settles, and the entity object afterwards. *)
Record ItemRun := {
  effects : list Effect;
  outcome : Settled unit;
  entity : Token
}.

(** The message [updateTokenPrice] builds for a new price, and the publish
    call it makes with it. *)
Definition messageFor (env : Env) (token : Token) (newP : number) : Message :=
  createTokenPriceUpdateMessage (createdAt (item env token)) (id token)
    (symbolOrUnknown token) (price token) newP.

Definition publish (env : Env) (token : Token) (newP : number)
  : list Effect * Settled unit :=
  KafkaProducerService.sendPriceUpdateMessage (isConnected env)
    (schemaParse env) (broker (item env token)) (messageFor env token newP).

Definition updateTokenPrice (env : Env) (token : Token) : ItemRun :=
  let ie := item env token in
  let oldP := price token in
  match priceResult ie with
  | Rejected e =>
      {| effects := [PriceRequested]; outcome := Rejected e; entity := token |}
  | Fulfilled newP =>
      if strict_neq oldP newP then
        let message := messageFor env token newP in
        let pub := publish env token newP in
        match snd pub with
        | Rejected e =>
            {| effects := PriceRequested :: EventCreated message :: fst pub;
               outcome := Rejected e; entity := token |}
        | Fulfilled _ =>
            let token' :=
              {| id := id token; symbol := symbol token; price := newP;
                 lastPriceUpdate := savedAt ie |} in
            match saveResult ie with
            | Some e =>
                {| effects := PriceRequested :: EventCreated message :: fst pub
                              ++ [StoreSave token' false];
                   outcome := Rejected e; entity := token' |}
            | None =>
                {| effects := PriceRequested :: EventCreated message :: fst pub
                              ++ [StoreSave token' true;
                                  logged LOG (UpdatedPrice (symbol token) oldP newP)];
                   outcome := Fulfilled tt; entity := token' |}
            end
        end
      else
        {| effects := [PriceRequested]; outcome := Fulfilled tt; entity := token |}
  end.

(** The [tokens] table: its rows, keyed by [id]. *)
Definition Store := list Token.

(** [tokenRepository.save(token)] when it succeeds: the row with the
    token's id is replaced, a token without a row is inserted. *)
Fixpoint save (t : Token) (rows : Store) : Store :=
  match rows with
  | [] => [t]
  | r :: rows' =>
      if String.eqb (id r) (id t) then t :: rows' else r :: save t rows'
  end.

Fixpoint findOne (tid : string) (rows : Store) : option Token :=
  match rows with
  | [] => None
  | r :: rows' => if String.eqb (id r) tid then Some r else findOne tid rows'
  end.

(** The rows written by a trace: its successful saves, in order. *)
Definition savedRow (e : Effect) : list Token :=
  match e with StoreSave t true => [t] | _ => [] end.

Definition commit (tr : list Effect) (rows : Store) : Store :=
  fold_left (fun st t => save t st) (flat_map savedRow tr) rows.

Definition reasons (results : list (Settled unit)) : list Error :=
  flat_map (fun r => match r with Rejected e => [e] | Fulfilled _ => [] end)
    results.

(** The summary logged once [Promise.allSettled] has every outcome. *)
Definition report (results : list (Settled unit)) : list LogEntry :=
  let failures := filter isRejected results in
  if (0 <? List.length failures)%nat then
    {| level := WARN; line := TokensFailed (List.length failures) |}
      :: map (fun e => {| level := ERROR; line := FailedToUpdateToken e |})
           (reasons failures)
  else [].

(** One tick's work: the body of [updatePrices] between setting and
    clearing the in-progress flag.  The items run concurrently, so the
    effects are kept per item, in the order of [tokens]; [opening] is logged
    before any item starts and [summary] after all have settled. *)
Record TickRun := {
  opening : list LogEntry;
  runs : list ItemRun;
  summary : list LogEntry;
  stored : Store
}.

Definition updatePrices (env : Env) (rows : Store) : TickRun :=
  match findResult env with
  | Some e =>
      {| opening := []; runs := [];
         summary := [{| level := ERROR; line := ErrorUpdatingPrices e |}];
         stored := rows |}
  | None =>
      let tokens := rows in
      let updatePromises := map (updateTokenPrice env) tokens in
      let results := map outcome updatePromises in
      {| opening := [{| level := LOG; line := UpdatingPrices (List.length tokens) |}];
         runs := updatePromises;
         summary := report results;
         stored := commit (flat_map effects updatePromises) rows |}
  end.

Definition logOf (e : Effect) : list LogEntry :=
  match e with Logged l => [l] | _ => [] end.

(** Every line the tick logs, items in table order. *)
Definition tickLog (r : TickRun) : list LogEntry :=
  opening r ++ flat_map logOf (flat_map effects (runs r)) ++ summary r.

Definition failureCount (r : TickRun) : nat :=
  count isRejected (map outcome (runs r)).

End Pipeline.

(** ** The scheduler and its shutdown: TokenPriceUpdateService on the event loop *)

Module Scheduler.

(** [maxAttempts] of the wait loop in [stop()] and the length of its sleep. *)
Definition maxAttempts : nat := 30.
Definition pollInterval : Z := 1000.

(** A promise returned by [stop()]: settled already, or still pending on
    the [stop()] invocation that will resolve it. *)
Inductive Promise :=
| Resolved
| Pending (invocation : nat).

(** The mutable fields of the service object. *)
Record Service := {
  updateIntervalSeconds : Z;
  timer : bool;                      (* [this.timer] is set: the interval is armed *)
  isRunning : bool;
  isProcessing : bool;
  shutdownPromise : option Promise
}.

(** A [stop()] invocation suspended in the sleep of its wait loop, with the
    value of its local [attempts].  [caller] is who awaits it directly;
    [None] when [onModuleDestroy] made the call and kept the promise. *)
Record Waiter := {
  invocation : nat;
  caller : option nat;
  attempts : nat
}.

(** A call that has returned to its caller: how long the [stop()] invocation
    behind it slept, and the in-progress flag at that moment. *)
Record Return := {
  who : nat;
  sleptMs : Z;
  stillProcessing : bool
}.

(** The service together with what the event loop holds for it. *)
Record World := {
  service : Service;
  rows : Pipeline.Store;
  inFlight : nat;                    (* tick bodies begun and not yet settled *)
  begun : nat;                       (* ticks begun so far *)
  waiters : list Waiter;
  awaiting : list (nat * nat);       (* (caller, invocation) awaiting a kept promise *)
  returned : list Return;            (* oldest first *)
  nextInvocation : nat;
  logs : list LogEntry               (* oldest first *)
}.

Definition init (intervalSeconds : Z) (table : Pipeline.Store) : World :=
  {| service := {| updateIntervalSeconds := intervalSeconds; timer := false;
                   isRunning := false; isProcessing := false;
                   shutdownPromise := None |};
     rows := table; inFlight := 0; begun := 0; waiters := []; awaiting := [];
     returned := []; nextInvocation := 0; logs := [] |}.

(** What can happen next on the event loop. *)
Inductive Event :=
| CallStart
| TimerFires
| TickSettles (env : Pipeline.Env)   (* the work awaited by the in-flight tick ends *)
| CallStop (c : nat)
| CallOnModuleDestroy (c : nat)
| SleepElapses (i : nat).            (* the timeout of invocation [i]'s sleep *)

(** *** Field updates *)

Definition withService (f : Service -> Service) (w : World) : World :=
  {| service := f (service w); rows := rows w; inFlight := inFlight w;
     begun := begun w; waiters := waiters w; awaiting := awaiting w;
     returned := returned w; nextInvocation := nextInvocation w;
     logs := logs w |}.

Definition setTimer (b : bool) (s : Service) : Service :=
  {| updateIntervalSeconds := updateIntervalSeconds s; timer := b;
     isRunning := isRunning s; isProcessing := isProcessing s;
     shutdownPromise := shutdownPromise s |}.

Definition setIsRunning (b : bool) (s : Service) : Service :=
  {| updateIntervalSeconds := updateIntervalSeconds s; timer := timer s;
     isRunning := b; isProcessing := isProcessing s;
     shutdownPromise := shutdownPromise s |}.

Definition setIsProcessing (b : bool) (s : Service) : Service :=
  {| updateIntervalSeconds := updateIntervalSeconds s; timer := timer s;
     isRunning := isRunning s; isProcessing := b;
     shutdownPromise := shutdownPromise s |}.

Definition setShutdownPromise (p : option Promise) (s : Service) : Service :=
  {| updateIntervalSeconds := updateIntervalSeconds s; timer := timer s;
     isRunning := isRunning s; isProcessing := isProcessing s;
     shutdownPromise := p |}.

Definition say (lv : Level) (m : LogMessage) (w : World) : World :=
  {| service := service w; rows := rows w; inFlight := inFlight w;
     begun := begun w; waiters := waiters w; awaiting := awaiting w;
     returned := returned w; nextInvocation := nextInvocation w;
     logs := logs w ++ [{| level := lv; line := m |}] |}.

Definition withWaiters (ws : list Waiter) (w : World) : World :=
  {| service := service w; rows := rows w; inFlight := inFlight w;
     begun := begun w; waiters := ws; awaiting := awaiting w;
     returned := returned w; nextInvocation := nextInvocation w;
     logs := logs w |}.

Definition withAwaiting (aw : list (nat * nat)) (w : World) : World :=
  {| service := service w; rows := rows w; inFlight := inFlight w;
     begun := begun w; waiters := waiters w; awaiting := aw;
     returned := returned w; nextInvocation := nextInvocation w;
     logs := logs w |}.

Definition withReturned (rs : list Return) (w : World) : World :=
  {| service := service w; rows := rows w; inFlight := inFlight w;
     begun := begun w; waiters := waiters w; awaiting := awaiting w;
     returned := rs; nextInvocation := nextInvocation w;
     logs := logs w |}.

(** *** Ticks *)

(** [updatePrices()] up to its first [await]: the guard and the flag. *)
Definition beginTick (w : World) : World :=
  if isProcessing (service w) then w
  else
    {| service := setIsProcessing true (service w); rows := rows w;
       inFlight := S (inFlight w); begun := S (begun w);
       waiters := waiters w; awaiting := awaiting w; returned := returned w;
       nextInvocation := nextInvocation w; logs := logs w |}.

(** [start()]. *)
Definition start (w : World) : World :=
  if isRunning (service w) then say WARN AlreadyRunning w
  else
    let w1 := withService (setIsRunning true) w in
    let w2 := say LOG (StartingService (updateIntervalSeconds (service w1))) w1 in
    let w3 := withService (setTimer true) w2 in
    beginTick w3.

(** The interval callback; a cleared interval does not fire. *)
Definition timerFires (w : World) : World :=
  if negb (timer (service w)) then w
  else if isProcessing (service w) then say WARN SkippingIteration w
  else beginTick w.

(** The rest of [updatePrices()] for the tick in flight: its work as [env]
    answers it, then the [finally] block.  The lines of the tick are
    appended when it settles. *)
Definition tickSettles (env : Pipeline.Env) (w : World) : World :=
  match inFlight w with
  | O => w
  | S n =>
      let r := Pipeline.updatePrices env (rows w) in
      {| service := setIsProcessing false (service w);
         rows := Pipeline.stored r; inFlight := n; begun := begun w;
         waiters := waiters w; awaiting := awaiting w; returned := returned w;
         nextInvocation := nextInvocation w;
         logs := logs w ++ Pipeline.tickLog r |}
  end.

(** *** stop() *)

(** The end of [stop()], after the wait loop. *)
Definition stopFinish (w : World) : World :=
  let w1 := if isProcessing (service w) then say WARN ForcedShutdown w else w in
  say LOG ServiceStopped w1.

(** The test of the wait loop with [attempts] at [a]: [Some a] when the
    body is entered and the invocation suspends in its sleep, [None] when
    the loop is left and [stop()] runs to its end. *)
Definition stopLoop (a : nat) (w : World) : World * option nat :=
  if isProcessing (service w) && (a <? maxAttempts)%nat then (w, Some a)
  else (stopFinish w, None).

(** [stop()] up to its first [await], or to its end when it has none. *)
Definition stopBegin (w : World) : World * option nat :=
  if negb (isRunning (service w)) then (say WARN NotRunning w, None)
  else
    let w1 := say LOG StoppingService w in
    let w2 := withService (setIsRunning false) w1 in
    let w3 := if timer (service w2) then withService (setTimer false) w2 else w2 in
    if isProcessing (service w3) then stopLoop 0 (say LOG WaitingForUpdate w3)
    else (say LOG ServiceStopped w3, None).

Definition sleptFor (a : nat) : Z := (pollInterval * Z.of_nat a)%Z.

Definition ret (c : nat) (a : nat) (w : World) : Return :=
  {| who := c; sleptMs := sleptFor a; stillProcessing := isProcessing (service w) |}.

Definition suspend (c : option nat) (a : nat) (w : World) : World :=
  {| service := service w; rows := rows w; inFlight := inFlight w;
     begun := begun w;
     waiters := waiters w ++ [{| invocation := nextInvocation w; caller := c;
                                 attempts := a |}];
     awaiting := awaiting w; returned := returned w;
     nextInvocation := S (nextInvocation w); logs := logs w |}.

(** A caller invokes [stop()] and awaits it. *)
Definition callStop (c : nat) (w : World) : World :=
  match stopBegin w with
  | (w1, None) => withReturned (returned w1 ++ [ret c 0 w1]) w1
  | (w1, Some a) => suspend (Some c) a w1
  end.

(** A caller invokes [onModuleDestroy()]. *)
Definition callOnModuleDestroy (c : nat) (w : World) : World :=
  let w1 :=
    match shutdownPromise (service w) with
    | Some _ => w
    | None =>
        match stopBegin w with
        | (w', None) => withService (setShutdownPromise (Some Resolved)) w'
        | (w', Some a) =>
            withService (setShutdownPromise (Some (Pending (nextInvocation w'))))
              (suspend None a w')
        end
    end in
  match shutdownPromise (service w1) with
  | Some (Pending i) => withAwaiting (awaiting w1 ++ [(c, i)]) w1
  | _ => withReturned (returned w1 ++ [ret c 0 w1]) w1
  end.

Fixpoint findWaiter (i : nat) (ws : list Waiter) : option Waiter :=
  match ws with
  | [] => None
  | x :: ws' => if (invocation x =? i)%nat then Some x else findWaiter i ws'
  end.

Definition setAttempts (i a : nat) (ws : list Waiter) : list Waiter :=
  map (fun x => if (invocation x =? i)%nat
                then {| invocation := i; caller := caller x; attempts := a |}
                else x) ws.

Definition dropWaiter (i : nat) (ws : list Waiter) : list Waiter :=
  filter (fun x => negb (invocation x =? i)%nat) ws.

Definition callerReturn (x : Waiter) (a : nat) (w : World) : list Return :=
  match caller x with Some c => [ret c a w] | None => [] end.

Definition awaiterReturns (i a : nat) (w : World) : list Return :=
  map (fun ci => ret (fst ci) a w)
      (filter (fun ci => (snd ci =? i)%nat) (awaiting w)).

Definition resolvePromise (i : nat) (s : Service) : Service :=
  match shutdownPromise s with
  | Some (Pending j) =>
      if (j =? i)%nat then setShutdownPromise (Some Resolved) s else s
  | _ => s
  end.

(** Invocation [i] of [stop()] returns after [a] sleeps: its caller and
    everyone awaiting its promise continue. *)
Definition finishInvocation (x : Waiter) (a : nat) (w : World) : World :=
  let i := invocation x in
  {| service := resolvePromise i (service w); rows := rows w;
     inFlight := inFlight w; begun := begun w;
     waiters := dropWaiter i (waiters w);
     awaiting := filter (fun ci => negb (snd ci =? i)%nat) (awaiting w);
     returned := returned w ++ callerReturn x a w ++ awaiterReturns i a w;
     nextInvocation := nextInvocation w; logs := logs w |}.

(** The sleep of invocation [i] is over: [attempts++], then the loop test. *)
Definition sleepElapses (i : nat) (w : World) : World :=
  match findWaiter i (waiters w) with
  | None => w
  | Some x =>
      match stopLoop (attempts x + 1) w with
      | (w1, Some a) => withWaiters (setAttempts i a (waiters w1)) w1
      | (w1, None) => finishInvocation x (attempts x + 1) w1
      end
  end.

Definition step (w : World) (e : Event) : World :=
  match e with
  | CallStart => start w
  | TimerFires => timerFires w
  | TickSettles env => tickSettles env w
  | CallStop c => callStop c w
  | CallOnModuleDestroy c => callOnModuleDestroy c w
  | SleepElapses i => sleepElapses i w
  end.

Definition run (w : World) (es : list Event) : World := fold_left step es w.

Definition hasReturned (c : nat) (w : World) : bool :=
  existsb (fun r => (who r =? c)%nat) (returned w).

Definition isWaiting (i : nat) (w : World) : bool :=
  match findWaiter i (waiters w) with Some _ => true | None => false end.

Definition isSleepOf (i : nat) (e : Event) : bool :=
  match e with SleepElapses j => (j =? i)%nat | _ => false end.

Definition isSettle (e : Event) : bool :=
  match e with TickSettles _ => true | _ => false end.

Definition isStart (e : Event) : bool :=
  match e with CallStart => true | _ => false end.

(** Events that come from timers and collaborators, not from callers. *)
Definition fromEnvironment (e : Event) : bool :=
  match e with
  | TimerFires | TickSettles _ | SleepElapses _ => true
  | _ => false
  end.

End Scheduler.

(** ** The price column of the Token entity *)

Module PriceColumn.

(** [@Column({ type: 'decimal', precision: 28, scale: 18, ... })] and the
    migration's [numeric(28,18)]. *)
Definition precision : Z := 28.
Definition scale : Z := 18.

(** A value of the column: the decimal [unscaled / 10 ^ scale].  The
    database driver hands it to the entity as its decimal text. *)
Record Numeric := { unscaled : Z }.

(** Non-negative and within [precision] digits. *)
Definition inColumn (d : Numeric) : bool :=
  (0 <=? unscaled d)%Z && (unscaled d <? 10 ^ precision)%Z.

(** The integer nearest to [n / d], ties to even ([0 <= n], [0 < d]). *)
Definition roundHalfEven (n d : Z) : Z :=
  let q := (n / d)%Z in
  let r := (n mod d)%Z in
  if (2 * r <? d)%Z then q
  else if (d <? 2 * r)%Z then (q + 1)%Z
  else if Z.even q then q else (q + 1)%Z.

(** [n / (d * 2 ^ e)] as a fraction of integers. *)
Definition scaled (n d e : Z) : Z * Z :=
  if (e <? 0)%Z then ((n * 2 ^ (- e))%Z, d) else (n, (d * 2 ^ e)%Z).

(** The binary64 nearest to [n / d], ties to even, for [0 <= n], [0 < d]
    and [n / d] in the normal range, which holds every non-zero value of
    the column: the exponent [e] is chosen so that the significand
    [n / (d * 2 ^ e)] rounds from [2 ^ 52 <= _ < 2 ^ 53]. *)
Definition nearestBinary64 (n d : Z) : number :=
  if (n =? 0)%Z then {| mant := 0; expo := 0 |}
  else
    let e0 := (Z.log2 n - Z.log2 d - 52)%Z in
    let e := if (fst (scaled n d e0) <? 2 ^ 52 * snd (scaled n d e0))%Z
             then (e0 - 1)%Z else e0 in
    let m := roundHalfEven (fst (scaled n d e)) (snd (scaled n d e)) in
    if (m =? 2 ^ 53)%Z then {| mant := 2 ^ 52; expo := e + 1 |}
    else {| mant := m; expo := e |}.

(** [parseFloat(value)] on the decimal text of a column value. *)
Definition parseFloat (value : Numeric) : number :=
  nearestBinary64 (unscaled value) (10 ^ scale).

Definition from (value : Numeric) : number := parseFloat value.

(** [x] is exactly the decimal [d]: [mant * 2 ^ expo = unscaled / 10 ^ scale],
    cleared of denominators. *)
Definition represents (x : number) (d : Numeric) : bool :=
  if (expo x <? 0)%Z
  then (mant x * 10 ^ scale =? unscaled d * 2 ^ (- expo x))%Z
  else (mant x * 2 ^ expo x * 10 ^ scale =? unscaled d)%Z.

(** A binary64: 53 bits of significand. *)
Definition isBinary64 (x : number) : bool :=
  (Z.abs (mant x) <? 2 ^ 53)%Z && (-1074 <=? expo x)%Z && (expo x <=? 971)%Z.







End PriceColumn.

(** ** KafkaProducerService: connecting and disconnecting *)

Module KafkaProducerLifecycle.

(** The lines of [connect] and [onModuleDestroy]. *)
Inductive Line :=
| ConnectedToKafka
| FailedToConnect
| NotConnectedSkipping
| DisconnectingFromKafka
| DisconnectedFromKafka
| ErrorDisconnecting.

(** What the two methods do, in program order. *)
Inductive Io :=
| ProducerConnect
| ProducerDisconnect
| Waited (ms : Z)
| Said (lv : Level) (l : Line).

(** The timer [onModuleDestroy] races the disconnect against. *)
Definition disconnectTimeout : Z := 10000.

(** How [producer.disconnect()] settles: after [ms] milliseconds, resolved
    ([None]) or rejected; or never. *)
Inductive Disconnect :=
| Settles (ms : Z) (failure : option Error)
| Hangs.

(** One call: what it did, the [isConnected] field afterwards and how its
    promise settled. *)
Record Call := {
  io : list Io;
  isConnected : bool;
  result : Settled unit
}.

(** [connect()], with the answer of [producer.connect()]: [Some e] when it
    rejects. *)
Definition connect (answer : option Error) (connected : bool) : Call :=
  match answer with
  | None =>
      {| io := [ProducerConnect; Said LOG ConnectedToKafka];
         isConnected := true; result := Fulfilled tt |}
  | Some e =>
      {| io := [ProducerConnect; Said ERROR FailedToConnect];
         isConnected := connected; result := Rejected e |}
  end.

(** [onModuleInit()]. *)
Definition onModuleInit (answer : option Error) (connected : bool) : Call :=
  connect answer connected.

(** [Promise.race] of the disconnect and the timer: how long it takes and
    how it settles.  The disconnect is begun before the timer is set, so a
    disconnect that settles when the timer is due has settled first and
    wins; one that has not settled by then loses. *)
Definition race (answer : Disconnect) : Z * option Error :=
  match answer with
  | Settles ms failure =>
      if (ms <=? disconnectTimeout)%Z then (ms, failure)
      else (disconnectTimeout, Some "Kafka disconnect timeout")
  | Hangs => (disconnectTimeout, Some "Kafka disconnect timeout")
  end.

(** [onModuleDestroy()]. *)
Definition onModuleDestroy (answer : Disconnect) (connected : bool) : Call :=
  if negb connected then
    {| io := [Said LOG NotConnectedSkipping]; isConnected := connected;
       result := Fulfilled tt |}
  else
    match snd (race answer) with
    | None =>
        {| io := [Said LOG DisconnectingFromKafka; ProducerDisconnect;
                  Waited (fst (race answer)); Said LOG DisconnectedFromKafka];
           isConnected := false; result := Fulfilled tt |}
    | Some _ =>
        {| io := [Said LOG DisconnectingFromKafka; ProducerDisconnect;
                  Waited (fst (race answer)); Said ERROR ErrorDisconnecting];
           isConnected := false; result := Fulfilled tt |}
    end.

(** The calls made on one producer, one after the other has settled. *)
Inductive Request :=
| Init (answer : option Error)
| Destroy (answer : Disconnect)
| Publish (parse : Message -> option Error) (broker : KafkaProducerService.Broker)
          (message : Message).

(** One request on a producer whose field is [connected]: the field
    afterwards, what was done on the broker and how the call settled. *)
Definition serve (connected : bool) (r : Request)
  : bool * (list Effect * Settled unit) :=
  match r with
  | Init answer =>
      (isConnected (onModuleInit answer connected),
       ([], result (onModuleInit answer connected)))
  | Destroy answer =>
      (isConnected (onModuleDestroy answer connected),
       ([], result (onModuleDestroy answer connected)))
  | Publish parse broker message =>
      (connected,
       KafkaProducerService.sendPriceUpdateMessage connected parse broker message)
  end.

Fixpoint serveAll (connected : bool) (rs : list Request)
  : bool * list (Request * (list Effect * Settled unit)) :=
  match rs with
  | [] => (connected, [])
  | r :: rs' =>
      let (connected', answer) := serve connected r in
      let (final, answers) := serveAll connected' rs' in
      (final, (r, answer) :: answers)
  end.

Definition isConnects (r : Request) : bool :=
  match r with Init None => true | _ => false end.

End KafkaProducerLifecycle.

(** ** The migrations of the tokens table *)

Module Migrations.

Inductive ColumnType :=
| NumericType (precision scale : Z)
| OtherType (name : string).

(** An index on a column of [tokens]. *)
Record Index := { indexName : string; indexColumn : string }.

(** The part of the schema the index statements and the price column act
    on: the type of [tokens.price] and the indexes of [tokens]. *)
Record Schema := { priceType : ColumnType; indexes : list Index }.

(** The statements of the migrations.  [Sql] stands for the statements that
    touch neither an index of [tokens] nor the type of its price column. *)
Inductive Statement :=
| AlterPriceType (precision scale : Z)
| CreateIndex (name column : string)
| DropIndex (name : string)
| DropColumns (columns : list string)
| Sql (text : string).

Definition hasIndex (name : string) (s : Schema) : bool :=
  existsb (fun i => String.eqb (indexName i) name) (indexes s).

(** [queryRunner.query(statement)]: [None] when the database rejects it.
    [CREATE INDEX] is rejected when the name is taken and [DROP INDEX] when
    there is no such index; dropping a column drops the indexes on it;
    [accepts] answers for every other reason the database may have. *)
Definition query (accepts : Statement -> bool) (s : Schema) (st : Statement)
  : option Schema :=
  if negb (accepts st) then None
  else
    match st with
    | AlterPriceType p sc =>
        Some {| priceType := NumericType p sc; indexes := indexes s |}
    | CreateIndex name column =>
        if hasIndex name s then None
        else Some {| priceType := priceType s;
                     indexes := indexes s ++ [{| indexName := name;
                                                 indexColumn := column |}] |}
    | DropIndex name =>
        if hasIndex name s then
          Some {| priceType := priceType s;
                  indexes := filter (fun i => negb (String.eqb (indexName i) name))
                                    (indexes s) |}
        else None
    | DropColumns columns =>
        Some {| priceType := priceType s;
                indexes := filter (fun i => negb (existsb (String.eqb (indexColumn i))
                                                          columns))
                                  (indexes s) |}
    | Sql _ => Some s
    end.

(** The statements of one migration method, awaited one after the other. *)
Fixpoint queries (accepts : Statement -> bool) (s : Schema) (sts : list Statement)
  : option Schema :=
  match sts with
  | [] => Some s
  | st :: rest =>
      match query accepts s st with
      | None => None
      | Some s' => queries accepts s' rest
      end
  end.

Module FixPriceDecimalPrecision.

Definition up : list Statement :=
  [AlterPriceType 28 18;
   CreateIndex "IDX_tokens_price" "price";
   CreateIndex "IDX_tokens_symbol" "symbol";
   CreateIndex "IDX_tokens_chainId" "chainId";
   CreateIndex "IDX_tokens_address" "address"].

Definition down : list Statement :=
  [DropIndex "IDX_tokens_address";
   DropIndex "IDX_tokens_chainId";
   DropIndex "IDX_tokens_symbol";
   DropIndex "IDX_tokens_price";
   AlterPriceType 28 0].

End FixPriceDecimalPrecision.

Module NormalizeDatabase.

Definition up : list Statement :=
  [Sql "CREATE TABLE chains";
   Sql "CREATE TABLE logos";
   Sql "INSERT INTO chains SELECT DISTINCT FROM tokens";
   Sql "INSERT INTO logos SELECT FROM tokens";
   Sql "ALTER TABLE tokens ADD COLUMN logoId";
   Sql "UPDATE tokens SET logoId = logo_id";
   DropColumns ["chain_id"; "chain_deid"; "chain_name"; "chain_isenabled";
                "logo_id"; "logo_tokenid"; "logo_bigrelativepath";
                "logo_smallrelativepath"; "logo_thumbrelativepath"];
   Sql "ALTER TABLE tokens ADD CONSTRAINT FK_tokens_chainId";
   Sql "ALTER TABLE tokens ADD CONSTRAINT FK_tokens_logoId";
   CreateIndex "IDX_tokens_chainId" "chainId";
   CreateIndex "IDX_tokens_logoId" "logoId"].

End NormalizeDatabase.

End Migrations.

(** ** TokenSeeder and AppModule.onModuleInit *)

Module Boot.

Record Chain := {
  chainId : string;
  deId : Z;
  chainName : string;
  isEnabled : bool
}.

Record Logo := {
  logoId : string;
  logoTokenId : option string;
  bigRelativePath : string;
  smallRelativePath : string;
  thumbRelativePath : string
}.

(** The application: the [chains] and [logos] tables, and the price update
    service on its event loop, whose [rows] are the [tokens] table. *)
Record App := {
  chains : list Chain;
  logos : list Logo;
  world : Scheduler.World
}.

Definition tokens (app : App) : Pipeline.Store := Scheduler.rows (world app).

Definition withRows (table : Pipeline.Store) (w : Scheduler.World) : Scheduler.World :=
  {| Scheduler.service := Scheduler.service w; Scheduler.rows := table;
     Scheduler.inFlight := Scheduler.inFlight w; Scheduler.begun := Scheduler.begun w;
     Scheduler.waiters := Scheduler.waiters w; Scheduler.awaiting := Scheduler.awaiting w;
     Scheduler.returned := Scheduler.returned w;
     Scheduler.nextInvocation := Scheduler.nextInvocation w;
     Scheduler.logs := Scheduler.logs w |}.

(** What the collaborators answer during one [seed()]. *)
Record SeedEnv := {
  countResult : option Error;           (* tokenRepository.count(): [Some e] rejects *)
  chainSave : option Error;             (* chainRepository.save([...]) *)
  logoIds : string * string * string;   (* randomUUID(), three times *)
  logoSave : option Error;              (* logoRepository.save([...]) *)
  tokenIds : string * string * string;  (* the ids the database generates *)
  seededAt : Z;                         (* new Date() *)
  tokenSave : option Error              (* tokenRepository.save(tokenData) *)
}.

Inductive Line :=
| AlreadySeeded
| SeedingInitialData
| ChainsCreated
| LogosCreated
| TokensCreated
| SeededSuccessfully
| FailedToSeed.

(** [repository.save(rows)] when it succeeds: a row whose primary key is in
    the table replaces that row, any other row is inserted. *)
Fixpoint upsert {A} (key : A -> string) (x : A) (rows : list A) : list A :=
  match rows with
  | [] => [x]
  | r :: rows' =>
      if String.eqb (key r) (key x) then x :: rows' else r :: upsert key x rows'
  end.

Definition saveAll {A} (key : A -> string) (xs rows : list A) : list A :=
  fold_left (fun table x => upsert key x table) xs rows.

Definition seedChains : list Chain :=
  [{| chainId := "11111111-1111-1111-1111-111111111111"; deId := 1;
      chainName := "Ethereum"; isEnabled := true |};
   {| chainId := "22222222-2222-2222-2222-222222222222"; deId := 2;
      chainName := "Bitcoin"; isEnabled := true |};
   {| chainId := "33333333-3333-3333-3333-333333333333"; deId := 3;
      chainName := "Solana"; isEnabled := true |}].

Definition seedLogos (ids : string * string * string) : list Logo :=
  let '(eth, btc, sol) := ids in
  [{| logoId := eth; logoTokenId := None;
      bigRelativePath := "/images/eth_big.png";
      smallRelativePath := "/images/eth_small.png";
      thumbRelativePath := "/images/eth_thumb.png" |};
   {| logoId := btc; logoTokenId := None;
      bigRelativePath := "/images/btc_big.png";
      smallRelativePath := "/images/btc_small.png";
      thumbRelativePath := "/images/btc_thumb.png" |};
   {| logoId := sol; logoTokenId := None;
      bigRelativePath := "/images/sol_big.png";
      smallRelativePath := "/images/sol_small.png";
      thumbRelativePath := "/images/sol_thumb.png" |}].

(** [tokenData], on the columns of [Token] kept here.  The rows carry no
    id, so that saving them inserts them, with the ids the database
    generates. *)
Definition tokenData (ids : string * string * string) (date : Z) : list Token :=
  let '(eth, btc, sol) := ids in
  [{| id := eth; symbol := Some "ETH"; price := num 300000; lastPriceUpdate := date |};
   {| id := btc; symbol := Some "BTC"; price := num 4500000; lastPriceUpdate := date |};
   {| id := sol; symbol := Some "SOL"; price := num 15000; lastPriceUpdate := date |}].

(** One run of [seed()]: the tables afterwards, its lines and how its
    promise settles. *)
Record SeedRun := {
  seeded : App;
  said : list (Level * Line);
  settled : Settled unit
}.

Definition withTables (cs : list Chain) (ls : list Logo) (table : Pipeline.Store)
    (app : App) : App :=
  {| chains := cs; logos := ls; world := withRows table (world app) |}.

(** [TokenSeeder.seed()]. *)
Definition seed (env : SeedEnv) (app : App) : SeedRun :=
  match countResult env with
  | Some e => {| seeded := app; said := []; settled := Rejected e |}
  | None =>
      if (0 <? List.length (tokens app))%nat then
        {| seeded := app; said := [(LOG, AlreadySeeded)]; settled := Fulfilled tt |}
      else
        match chainSave env with
        | Some e =>
            {| seeded := app;
               said := [(LOG, SeedingInitialData); (ERROR, FailedToSeed)];
               settled := Rejected e |}
        | None =>
            let cs := saveAll chainId seedChains (chains app) in
            match logoSave env with
            | Some e =>
                {| seeded := withTables cs (logos app) (tokens app) app;
                   said := [(LOG, SeedingInitialData); (LOG, ChainsCreated);
                            (ERROR, FailedToSeed)];
                   settled := Rejected e |}
            | None =>
                let ls := saveAll logoId (seedLogos (logoIds env)) (logos app) in
                match tokenSave env with
                | Some e =>
                    {| seeded := withTables cs ls (tokens app) app;
                       said := [(LOG, SeedingInitialData); (LOG, ChainsCreated);
                                (LOG, LogosCreated); (ERROR, FailedToSeed)];
                       settled := Rejected e |}
                | None =>
                    {| seeded :=
                         withTables cs ls
                           (tokens app ++ tokenData (tokenIds env) (seededAt env))
                           app;
                       said := [(LOG, SeedingInitialData); (LOG, ChainsCreated);
                                (LOG, LogosCreated); (LOG, TokensCreated);
                                (LOG, SeededSuccessfully)];
                       settled := Fulfilled tt |}
                end
            end
        end
  end.

(** [AppModule.onModuleInit()]: the application afterwards and what went to
    [console.error]. *)
Definition onModuleInit (env : SeedEnv) (app : App) : App * list Error :=
  let s := seed env app in
  match settled s with
  | Fulfilled _ =>
      ({| chains := chains (seeded s); logos := logos (seeded s);
          world := Scheduler.start (world (seeded s)) |}, [])
  | Rejected e => (seeded s, [e])
  end.

End Boot.

(** ** Concrete ticks *)

Module Scenario.

Definition tokenOf (tid sym : string) (p : Z) : Token :=
  {| id := tid; symbol := Some sym; price := num p; lastPriceUpdate := 0 |}.

Definition tokenA : Token := tokenOf "A" "ETH" 300000.
Definition tokenB : Token := tokenOf "B" "BTC" 4500000.
Definition tokenC : Token := tokenOf "C" "SOL" 15000.

Definition table : Pipeline.Store := [tokenA; tokenB; tokenC].

Definition up : KafkaProducerService.Broker := fun _ => None.
Definition down : KafkaProducerService.Broker := fun _ => Some "broker down".

(** Every item gets the new price [newP]; the broker serves the item with
    [brokerFor]; the store answers [saveFor]. *)
Definition tick (newP : Token -> Settled number)
    (brokerFor : Token -> KafkaProducerService.Broker)
    (saveFor : Token -> option Error) : Pipeline.Env :=
  {| Pipeline.isConnected := true;
     Pipeline.schemaParse := fun _ => None;
     Pipeline.findResult := None;
     Pipeline.item := fun t =>
       {| Pipeline.priceResult := newP t; Pipeline.createdAt := 1000;
          Pipeline.broker := brokerFor t; Pipeline.savedAt := 2000;
          Pipeline.saveResult := saveFor t |} |}.

Definition plusOne (t : Token) : Settled number :=
  Fulfilled {| mant := mant (price t) + 1; expo := expo (price t) |}.

(** All three prices change and everything succeeds. *)
Definition allSucceed : Pipeline.Env :=
  tick plusOne (fun _ => up) (fun _ => None).

(** All three prices change; the broker rejects every send for B. *)
Definition publishOfBFails : Pipeline.Env :=
  tick plusOne (fun t => if String.eqb (id t) "B" then down else up)
       (fun _ => None).

(** A and B change, the price source repeats C's stored price. *)
Definition sameForC : Pipeline.Env :=
  tick (fun t => if String.eqb (id t) "C" then Fulfilled (price t) else plusOne t)
       (fun _ => up) (fun _ => None).

(** One item, whose save rejects with "boom" after a successful publish. *)
Definition persistFails : Pipeline.Env :=
  tick plusOne (fun _ => up) (fun _ => Some "boom").

(** One item, whose price source rejects with "boom". *)
Definition sourceFails : Pipeline.Env :=
  tick (fun _ => Rejected "boom") (fun _ => up) (fun _ => None).

(** The load of the table rejects: the tick's work throws. *)
Definition loadFails : Pipeline.Env :=
  {| Pipeline.isConnected := true;
     Pipeline.schemaParse := fun _ => None;
     Pipeline.findResult := Some "connection lost";
     Pipeline.item := Pipeline.item allSucceed |}.

(** The service started on the seeded table with the default interval: the
    initial tick is in flight. *)
Definition started : Scheduler.World :=
  Scheduler.run (Scheduler.init 5 table) [Scheduler.CallStart].

End Scenario.

(** ** Concrete seedings *)

Module SeedScenario.

(** Every save succeeds, with the given UUIDs for the logos. *)
Definition seeding (uuids : string * string * string) : Boot.SeedEnv :=
  {| Boot.countResult := None; Boot.chainSave := None; Boot.logoIds := uuids;
     Boot.logoSave := None; Boot.tokenIds := ("A", "B", "C");
     Boot.seededAt := 0; Boot.tokenSave := None |}.

(** The save of the tokens rejects with "boom". *)
Definition tokensFail (uuids : string * string * string) : Boot.SeedEnv :=
  {| Boot.countResult := None; Boot.chainSave := None; Boot.logoIds := uuids;
     Boot.logoSave := None; Boot.tokenIds := ("A", "B", "C");
     Boot.seededAt := 0; Boot.tokenSave := Some "boom" |}.

(** The application on an empty database, before [onModuleInit]. *)
Definition fresh : Boot.App :=
  {| Boot.chains := []; Boot.logos := []; Boot.world := Scheduler.init 5 [] |}.

End SeedScenario.

(** ** Vocabulary of the properties *)

Section Vocabulary.

Import Pipeline.
Import Scheduler.

(** The delay slept after failed attempt [n], before attempt [n + 1]. *)
Definition backoff (n : nat) : Z :=
  (KafkaProducerService.retryDelay * 2 ^ Z.of_nat (n - 1))%Z.

(** What the publish client does is sending, sleeping and logging. *)
Definition ofClient (e : Effect) : Prop :=
  isSave e = false /\ isEvent e = false /\ isWarning e = false.

(** The row [updateTokenPrice] hands to [save] for a new price. *)
Definition updated (env : Env) (token : Token) (newP : number) : Token :=
  {| id := id token; symbol := symbol token; price := newP;
     lastPriceUpdate := savedAt (item env token) |}.

(** The five ways one item's processing can go. *)
Inductive ItemPath (env : Env) (token : Token) : ItemRun -> Prop :=
| SourceFailed e :
    priceResult (item env token) = Rejected e ->
    ItemPath env token
      {| effects := [PriceRequested]; outcome := Rejected e; entity := token |}
| Unchanged newP :
    priceResult (item env token) = Fulfilled newP ->
    strict_eq (price token) newP = true ->
    ItemPath env token
      {| effects := [PriceRequested]; outcome := Fulfilled tt; entity := token |}
| PublishFailed newP e :
    priceResult (item env token) = Fulfilled newP ->
    strict_eq (price token) newP = false ->
    snd (publish env token newP) = Rejected e ->
    ItemPath env token
      {| effects := PriceRequested :: EventCreated (messageFor env token newP)
                    :: fst (publish env token newP);
         outcome := Rejected e; entity := token |}
| PersistFailed newP e :
    priceResult (item env token) = Fulfilled newP ->
    strict_eq (price token) newP = false ->
    snd (publish env token newP) = Fulfilled tt ->
    saveResult (item env token) = Some e ->
    ItemPath env token
      {| effects := PriceRequested :: EventCreated (messageFor env token newP)
                    :: fst (publish env token newP)
                    ++ [StoreSave (updated env token newP) false];
         outcome := Rejected e; entity := updated env token newP |}
| Updated newP :
    priceResult (item env token) = Fulfilled newP ->
    strict_eq (price token) newP = false ->
    snd (publish env token newP) = Fulfilled tt ->
    saveResult (item env token) = None ->
    ItemPath env token
      {| effects := PriceRequested :: EventCreated (messageFor env token newP)
                    :: fst (publish env token newP)
                    ++ [StoreSave (updated env token newP) true;
                        logged LOG (UpdatedPrice (symbol token) (price token) newP)];
         outcome := Fulfilled tt; entity := updated env token newP |}.

(** The row of the item after its processing: the saved entity when the
    call resolved, the row as loaded when it rejected. *)
Definition rowAfter (env : Env) (token : Token) : Token :=
  match outcome (updateTokenPrice env token) with
  | Fulfilled _ => entity (updateTokenPrice env token)
  | Rejected _ => token
  end.

(** What the shutdown code leaves alone: the flag, the ticks, the table. *)
Definition sameTicks (w w' : World) : Prop :=
  isProcessing (service w') = isProcessing (service w) /\
  inFlight w' = inFlight w /\ begun w' = begun w /\ rows w' = rows w.

(** The overlap guard: the flag is up exactly while one tick is in flight. *)
Definition guarded (w : World) : Prop :=
  inFlight w = if isProcessing (service w) then 1%nat else 0%nat.

(** What the ticks and the log leave alone: the shutdown bookkeeping. *)
Definition sameCalls (w w' : World) : Prop :=
  waiters w' = waiters w /\ awaiting w' = awaiting w /\
  returned w' = returned w /\ nextInvocation w' = nextInvocation w /\
  shutdownPromise (service w') = shutdownPromise (service w).

(** Every waiting invocation got its number before [nextInvocation]. *)
Definition fresh (w : World) : Prop :=
  forall x, In x (waiters w) -> (invocation x < nextInvocation w)%nat.

(** Two [onModuleDestroy()] callers await the promise of invocation [i],
    which is the only [stop()] in its wait loop. *)
Definition pendingPair (i c1 c2 a : nat) (w : World) : Prop :=
  waiters w = [{| invocation := i; caller := None; attempts := a |}] /\
  awaiting w = [(c1, i); (c2, i)].

End Vocabulary.

(** ** Vocabulary of the further properties *)

(** The broker accepts the [n]-th send of a publish. *)
Definition accepted (broker : KafkaProducerService.Broker) (n : nat) : bool :=
  match broker n with None => true | Some _ => false end.

Definition isRequest (e : Effect) : bool :=
  match e with PriceRequested => true | _ => false end.

(** What the publish client does, by constructor. *)
Definition isClientEffect (e : Effect) : bool :=
  match e with BrokerSend _ _ _ _ | Sleep _ | Logged _ => true | _ => false end.

(** The interval is armed exactly while the service is running. *)
Definition armed (w : Scheduler.World) : Prop :=
  Scheduler.timer (Scheduler.service w) = Scheduler.isRunning (Scheduler.service w).



(** A statement that leaves the index [idx] of [tokens] in place. *)
Definition keeps (idx : Migrations.Index) (st : Migrations.Statement) : bool :=
  match st with
  | Migrations.DropIndex name => negb (String.eqb (Migrations.indexName idx) name)
  | Migrations.DropColumns columns =>
      negb (existsb (String.eqb (Migrations.indexColumn idx)) columns)
  | _ => true
  end.

(** The service is at rest: the interval is cleared and no tick is in
    flight. *)
Definition atRest (w : Scheduler.World) : Prop :=
  Scheduler.timer (Scheduler.service w) = false /\
  Scheduler.isProcessing (Scheduler.service w) = false /\
  Scheduler.inFlight w = 0%nat.

(** * Properties *)

(** ** The publish client *)

Section PublishClient.

Import KafkaProducerService.

Variable broker : Broker.
Variable key : string.
Variable value : Message.

(** The body of [sendWithRetry], as the source has it. *)
Lemma sendWithRetry_body (attempt : nat) :
  sendWithRetry broker key value attempt =
  match broker attempt with
  | None => ([BrokerSend key value attempt true], Fulfilled tt)
  | Some errorMessage =>
      if (attempt <? maxRetries)%nat then
        ([BrokerSend key value attempt false;
          logged ERROR (ErrorSending attempt maxRetries errorMessage);
          logged LOG (RetryingIn (retryDelay * 2 ^ Z.of_nat (attempt - 1))%Z);
          Sleep (retryDelay * 2 ^ Z.of_nat (attempt - 1))%Z]
           ++ fst (sendWithRetry broker key value (attempt + 1)),
         snd (sendWithRetry broker key value (attempt + 1)))
      else
        ([BrokerSend key value attempt false;
          logged ERROR (ErrorSending attempt maxRetries errorMessage)],
         Rejected ("Failed to send message after " ++ showNat maxRetries
                   ++ " attempts: " ++ errorMessage)%string)
  end.
Proof.
  funelim (sendWithRetry broker key value attempt);
    repeat match goal with
           | E : broker _ = _ |- _ => rewrite E
           | E : (_ <? _)%nat = _ |- _ => rewrite E
           end; reflexivity.
Qed.

Lemma sends_positive (attempt : nat) :
  (1 <= count isSend (fst (sendWithRetry broker key value attempt)))%nat.
Proof.
  rewrite sendWithRetry_body.
  destruct (broker attempt); [destruct (attempt <? maxRetries)%nat|];
    unfold count; simpl; lia.
Qed.

(** No attempt number reaches past [maxRetries]. *)
Lemma sends_ceiling (k attempt : nat) :
  (maxRetries - attempt <= k)%nat ->
  (count isSend (fst (sendWithRetry broker key value attempt))
   <= 1 + (maxRetries - attempt))%nat.
Proof.
  unfold maxRetries, count.
  revert attempt. induction k as [|k IH]; intros attempt Hk;
    rewrite sendWithRetry_body; unfold maxRetries;
    destruct (broker attempt) as [msg|];
    try (cbn [fst filter isSend List.length]; lia);
    destruct (Nat.ltb_spec attempt 3) as [Hlt|Hge];
    try (cbn [fst filter isSend List.length logged]; lia).
  specialize (IH (attempt + 1)%nat ltac:(lia)).
  cbn [fst filter isSend List.length logged app]. lia.
Qed.

(** Between two consecutive sends lies exactly one sleep, of [backoff n]
    after the [n]-th attempt. *)
Lemma sleeps_schedule (k attempt : nat) :
  (maxRetries - attempt <= k)%nat ->
  sleeps (fst (sendWithRetry broker key value attempt)) =
  map backoff
    (seq attempt (count isSend (fst (sendWithRetry broker key value attempt)) - 1)).
Proof.
  unfold maxRetries.
  revert attempt. induction k as [|k IH]; intros attempt Hk;
    rewrite sendWithRetry_body; unfold maxRetries;
    destruct (broker attempt) as [msg|]; try reflexivity.
  - destruct (Nat.ltb_spec attempt 3); [lia|reflexivity].
  - destruct (Nat.ltb_spec attempt 3) as [Hlt|Hge]; [|reflexivity].
    specialize (IH (attempt + 1)%nat ltac:(lia)).
    pose proof (sends_positive (attempt + 1)) as Hpos.
    unfold count, sleeps in *. simpl. rewrite IH.
    destruct (List.length (filter isSend (fst (sendWithRetry broker key value (attempt + 1)))))
      as [|n]; [lia|].
    simpl. rewrite Nat.sub_0_r, Nat.add_1_r. reflexivity.
Qed.

End PublishClient.

(** C4. The publish retry backs off exponentially: the delay slept before
    attempt [n + 1] is [1000 * 2 ^ (n - 1)] ms, whatever the broker does; and
    when the broker fails attempts 1 and 2 and accepts attempt 3, the publish
    succeeds after sleeping 1000 ms and then 2000 ms (3000 ms in total) with
    exactly the three sends 1, 2, 3. *)
Theorem backoff_schedule :
  KafkaProducerService.retryDelay = 1000%Z /\
  (forall broker key value,
     let tr := fst (KafkaProducerService.sendWithRetry broker key value 1) in
     sleeps tr =
     map (fun n => (1000 * 2 ^ (Z.of_nat n - 1))%Z) (seq 1 (count isSend tr - 1))) /\
  (forall parse broker message e1 e2,
     parse message = None ->
     broker 1%nat = Some e1 -> broker 2%nat = Some e2 -> broker 3%nat = None ->
     let r := KafkaProducerService.sendPriceUpdateMessage true parse broker message in
     snd r = Fulfilled tt /\
     sleeps (fst r) = [1000; 2000]%Z /\
     (3000 <= totalWait (fst r))%Z /\
     count isSend (fst r) = 3%nat /\
     filter isSend (fst r) =
       [BrokerSend (tokenId message) message 1 false;
        BrokerSend (tokenId message) message 2 false;
        BrokerSend (tokenId message) message 3 true]).
Proof.
  split; [reflexivity|]. split.
  - intros broker key value tr. subst tr.
    rewrite (sleeps_schedule broker key value 3 1) by (unfold KafkaProducerService.maxRetries; lia).
    apply map_ext_in. intros n Hn. apply in_seq in Hn.
    unfold backoff, KafkaProducerService.retryDelay.
    replace (Z.of_nat (n - 1)) with (Z.of_nat n - 1)%Z by lia. reflexivity.
  - intros parse broker message e1 e2 Hparse H1 H2 H3 r. subst r.
    unfold KafkaProducerService.sendPriceUpdateMessage. cbn [negb]. rewrite Hparse.
    rewrite sendWithRetry_body, H1. cbn [Nat.ltb Nat.leb KafkaProducerService.maxRetries Nat.add].
    rewrite sendWithRetry_body, H2. cbn [Nat.ltb Nat.leb KafkaProducerService.maxRetries Nat.add].
    rewrite sendWithRetry_body, H3.
    repeat split; vm_compute; congruence.
Qed.

(** The three-attempt scenario on a concrete broker. *)
Lemma backoff_schedule_witness :
  let broker := fun n : nat => if (n <? 3)%nat then Some "broker down" else None in
  let message := {| tokenId := "t1"; msgSymbol := "ETH"; oldPrice := num 1;
                    newPrice := num 2; timestamp := 0 |} in
  let r := KafkaProducerService.sendPriceUpdateMessage true (fun _ => None) broker message in
  sleeps (fst r) = [1000; 2000]%Z /\ count isSend (fst r) = 3%nat.
Proof.
  intros broker message r.
  destruct (proj2 (proj2 backoff_schedule) (fun _ => None) broker message
              "broker down" "broker down" eq_refl eq_refl eq_refl eq_refl)
    as (_ & Hs & _ & Hc & _).
  split; [exact Hs | exact Hc].
Defined.

(** C5. Against a broker that rejects every send, publish makes the sends
    1, 2, 3 and no other, then rejects with "Failed to send message after 3
    attempts: ..."; no broker makes it send more than [maxRetries] times; and
    while the client is not connected, publish rejects at once, with no send
    and no sleep. *)
Theorem retry_ceiling :
  KafkaProducerService.maxRetries = 3%nat /\
  (forall broker key value,
     (count isSend (fst (KafkaProducerService.sendWithRetry broker key value 1)) <= 3)%nat) /\
  (forall parse broker message,
     parse message = None -> (forall n, broker n <> None) ->
     let r := KafkaProducerService.sendPriceUpdateMessage true parse broker message in
     filter isSend (fst r) =
       [BrokerSend (tokenId message) message 1 false;
        BrokerSend (tokenId message) message 2 false;
        BrokerSend (tokenId message) message 3 false] /\
     exists e, broker 3%nat = Some e /\
       snd r = Rejected ("Failed to send message after 3 attempts: " ++ e)%string) /\
  (forall parse broker message,
     KafkaProducerService.sendPriceUpdateMessage false parse broker message =
     ([], Rejected "Kafka producer is not connected")).
Proof.
  split; [reflexivity|]. split; [|split].
  - intros broker key value.
    apply (sends_ceiling broker key value 3 1).
    unfold KafkaProducerService.maxRetries; lia.
  - intros parse broker message Hparse Hfail r. subst r.
    destruct (broker 1%nat) as [e1|] eqn:H1; [|elim (Hfail _ H1)].
    destruct (broker 2%nat) as [e2|] eqn:H2; [|elim (Hfail _ H2)].
    destruct (broker 3%nat) as [e3|] eqn:H3; [|elim (Hfail _ H3)].
    unfold KafkaProducerService.sendPriceUpdateMessage. cbn [negb]. rewrite Hparse.
    rewrite sendWithRetry_body, H1. cbn [Nat.ltb Nat.leb KafkaProducerService.maxRetries Nat.add].
    rewrite sendWithRetry_body, H2. cbn [Nat.ltb Nat.leb KafkaProducerService.maxRetries Nat.add].
    rewrite sendWithRetry_body, H3. cbn [Nat.ltb Nat.leb KafkaProducerService.maxRetries].
    split; [reflexivity|]. exists e3. split; reflexivity.
  - reflexivity.
Qed.

(** The retry ceiling on a broker that is down for good. *)
Lemma retry_ceiling_witness :
  let message := {| tokenId := "t1"; msgSymbol := "ETH"; oldPrice := num 1;
                    newPrice := num 2; timestamp := 0 |} in
  let r := KafkaProducerService.sendPriceUpdateMessage true (fun _ => None)
             (fun _ => Some "broker down") message in
  count isSend (fst r) = 3%nat /\
  snd r = Rejected "Failed to send message after 3 attempts: broker down".
Proof.
  intros message r.
  destruct (proj1 (proj2 (proj2 retry_ceiling)) (fun _ => None)
              (fun _ => Some "broker down") message eq_refl
              ltac:(intros n; discriminate))
    as (Hs & e & He & Hr).
  split.
  - unfold count. fold r in Hs. rewrite Hs. reflexivity.
  - fold r in Hr. rewrite Hr. injection He as <-. reflexivity.
Defined.

(** ** The update pipeline *)

Section PublishEffects.

Import KafkaProducerService.

Variable broker : Broker.
Variable key : string.
Variable value : Message.

Lemma sendWithRetry_ofClient (k attempt : nat) :
  (maxRetries - attempt <= k)%nat ->
  forall e, In e (fst (sendWithRetry broker key value attempt)) -> ofClient e.
Proof.
  unfold maxRetries.
  revert attempt. induction k as [|k IH]; intros attempt Hk e;
    rewrite (sendWithRetry_body broker key value attempt); unfold maxRetries;
    destruct (broker attempt) as [msg|];
    try destruct (Nat.ltb_spec attempt 3) as [Hlt|Hge]; try lia;
    cbn [fst]; intros Hin;
    repeat (destruct Hin as [<-|Hin]; [repeat split|]);
    try contradiction.
  apply (IH (attempt + 1)%nat); [lia|exact Hin].
Qed.

Lemma sendWithRetry_fulfilled (k attempt : nat) :
  (maxRetries - attempt <= k)%nat ->
  snd (sendWithRetry broker key value attempt) = Fulfilled tt ->
  exists a, In (BrokerSend key value a true)
               (fst (sendWithRetry broker key value attempt)).
Proof.
  unfold maxRetries.
  revert attempt. induction k as [|k IH]; intros attempt Hk;
    rewrite (sendWithRetry_body broker key value attempt); unfold maxRetries;
    destruct (broker attempt) as [msg|];
    try destruct (Nat.ltb_spec attempt 3) as [Hlt|Hge]; try lia;
    cbn [fst snd]; intros Hok; try discriminate;
    try (exists attempt; left; reflexivity).
  destruct (IH (attempt + 1)%nat ltac:(lia) Hok) as [a Ha].
  exists a. do 4 right. exact Ha.
Qed.

Lemma sendWithRetry_rejected (k attempt : nat) (err : Error) :
  (maxRetries - attempt <= k)%nat ->
  snd (sendWithRetry broker key value attempt) = Rejected err ->
  forall e, In e (fst (sendWithRetry broker key value attempt)) ->
            isSendOk e = false.
Proof.
  unfold maxRetries.
  revert attempt. induction k as [|k IH]; intros attempt Hk;
    rewrite (sendWithRetry_body broker key value attempt); unfold maxRetries;
    destruct (broker attempt) as [msg|];
    try destruct (Nat.ltb_spec attempt 3) as [Hlt|Hge]; try lia;
    cbn [fst snd]; intros Hrej e Hin; try discriminate;
    repeat (destruct Hin as [<-|Hin]; [reflexivity|]);
    try contradiction.
  apply (IH (attempt + 1)%nat ltac:(lia) Hrej e Hin).
Qed.

End PublishEffects.

Section Publish.

Import KafkaProducerService.

Variable connected : bool.
Variable parse : Message -> option Error.
Variable broker : Broker.
Variable message : Message.

Let pub := sendPriceUpdateMessage connected parse broker message.

Lemma publish_ofClient : forall e, In e (fst pub) -> ofClient e.
Proof.
  subst pub. unfold sendPriceUpdateMessage.
  destruct connected; cbn [negb]; [|intros e []].
  destruct (parse message); [intros e' []|].
  pose proof (sendWithRetry_ofClient broker (tokenId message) message 3 1
                ltac:(unfold maxRetries; lia)) as Hc.
  destruct (snd (sendWithRetry broker (tokenId message) message 1));
    cbn [fst]; intros e Hin; [|apply Hc, Hin].
  apply in_app_or in Hin. destruct Hin as [Hin|[<-|[]]].
  - apply Hc, Hin.
  - repeat split.
Qed.

(** A publish call that resolves has had a send accepted by the broker and
    ends with its "Sent message" line. *)
Lemma publish_fulfilled (u : unit) :
  snd pub = Fulfilled u ->
  exists pre a,
    fst pub = pre ++ [logged LOG (SentMessage message)] /\
    In (BrokerSend (tokenId message) message a true) pre.
Proof.
  subst pub. unfold sendPriceUpdateMessage.
  destruct connected; cbn [negb]; [|discriminate].
  destruct (parse message); [discriminate|].
  destruct (snd (sendWithRetry broker (tokenId message) message 1)) as [[]|err] eqn:Hs;
    cbn [fst snd]; [|discriminate].
  intros _.
  destruct (sendWithRetry_fulfilled broker (tokenId message) message 3 1
              ltac:(unfold maxRetries; lia) Hs) as [a Ha].
  eexists. exists a. split; [reflexivity|exact Ha].
Qed.

(** A publish call that rejects has had no send accepted. *)
Lemma publish_rejected (err : Error) :
  snd pub = Rejected err ->
  forall e, In e (fst pub) -> isSendOk e = false.
Proof.
  subst pub. unfold sendPriceUpdateMessage.
  destruct connected; cbn [negb]; [|intros _ e' []].
  destruct (parse message); [intros _ e' []|].
  destruct (snd (sendWithRetry broker (tokenId message) message 1)) as [[]|err'] eqn:Hs;
    cbn [fst snd]; [discriminate|].
  intros _.
  apply (sendWithRetry_rejected broker (tokenId message) message 3 1 err');
    [unfold maxRetries; lia|exact Hs].
Qed.

End Publish.

Section Item.

Import Pipeline.

Variable env : Env.
Variable token : Token.

Lemma updateTokenPrice_path : ItemPath env token (updateTokenPrice env token).
Proof.
  unfold updateTokenPrice, strict_neq.
  destruct (priceResult (item env token)) as [newP|e] eqn:Hp;
    [|now apply SourceFailed].
  destruct (strict_eq (price token) newP) eqn:Hneq; cbn [negb];
    [now apply (Unchanged env token newP)|].
  destruct (snd (publish env token newP)) as [[]|e] eqn:Hpub;
    [|now apply (PublishFailed env token newP)].
  destruct (saveResult (item env token)) as [e|] eqn:Hsave.
  - now apply (PersistFailed env token newP).
  - now apply (Updated env token newP).
Qed.

Lemma client_savedRows (l : list Effect) :
  (forall e, In e l -> ofClient e) -> flat_map savedRow l = [].
Proof.
  induction l as [|e l IH]; intros Hl; [reflexivity|].
  cbn [flat_map]. rewrite IH by (intros e' He'; apply Hl; now right).
  destruct (Hl e (or_introl eq_refl)) as [Hs _].
  destruct e; try reflexivity; discriminate.
Qed.

(** The rows one item writes: its new row when it ran to the end, nothing
    otherwise. *)
Lemma item_savedRows :
  (flat_map savedRow (effects (updateTokenPrice env token)) = [] /\
   rowAfter env token = token) \/
  (exists newP,
     flat_map savedRow (effects (updateTokenPrice env token)) = [updated env token newP] /\
     rowAfter env token = updated env token newP).
Proof.
  assert (Hclient : forall newP,
             flat_map savedRow (fst (publish env token newP)) = []).
  { intros newP. apply client_savedRows, publish_ofClient. }
  unfold rowAfter.
  pose proof updateTokenPrice_path as Hpath.
  remember (updateTokenPrice env token) as run eqn:Hrun. clear Hrun.
  destruct Hpath; cbn [effects outcome entity flat_map savedRow app];
    rewrite ?flat_map_app, ?Hclient; cbn [flat_map savedRow app];
    try (left; split; reflexivity).
  right. exists newP. split; reflexivity.
Qed.

End Item.

Section Store.

Import Pipeline.

Lemma findOne_save (k : string) (t : Token) (st : Store) :
  findOne k (save t st) =
  if String.eqb (id t) k then Some t else findOne k st.
Proof.
  induction st as [|r st IH]; cbn [save findOne]; [reflexivity|].
  destruct (String.eqb_spec (id r) (id t)) as [Heq|Hne]; cbn [findOne].
  - rewrite Heq. destruct (String.eqb (id t) k); reflexivity.
  - rewrite IH.
    destruct (String.eqb_spec (id r) k) as [Hrk|Hrk];
      destruct (String.eqb_spec (id t) k) as [Htk|Htk];
      try reflexivity.
    congruence.
Qed.

Lemma findOne_commit_other (k : string) (l : list Token) (st : Store) :
  (forall t, In t l -> id t <> k) ->
  findOne k (fold_left (fun st t => save t st) l st) = findOne k st.
Proof.
  revert st. induction l as [|t l IH]; intros st Hl; [reflexivity|].
  cbn [fold_left]. rewrite IH by (intros t' Ht'; apply Hl; now right).
  rewrite findOne_save.
  destruct (String.eqb_spec (id t) k) as [Heq|Hne]; [|reflexivity].
  elim (Hl t (or_introl eq_refl) Heq).
Qed.

Lemma findOne_first (t : Token) (r1 r2 : Store) :
  (forall r, In r r1 -> id r <> id t) ->
  findOne (id t) (r1 ++ t :: r2) = Some t.
Proof.
  induction r1 as [|r r1 IH]; intros Hr1; cbn [app findOne].
  - now rewrite String.eqb_refl.
  - destruct (String.eqb_spec (id r) (id t)) as [Heq|Hne].
    + elim (Hr1 r (or_introl eq_refl) Heq).
    + apply IH. intros r' Hr'. apply Hr1. now right.
Qed.

Variable env : Env.

(** The rows written by a batch of items all carry the id of their item. *)
Lemma batch_savedRows (l : Store) (k : string) :
  (forall r, In r l -> id r <> k) ->
  forall t, In t (flat_map savedRow (flat_map effects (map (updateTokenPrice env) l))) ->
            id t <> k.
Proof.
  induction l as [|r l IH]; intros Hl t; cbn [map flat_map]; [intros []|].
  rewrite flat_map_app. intros Hin. apply in_app_or in Hin.
  destruct Hin as [Hin|Hin].
  - destruct (item_savedRows env r) as [[E _]|[newP [E _]]];
      rewrite E in Hin; [destruct Hin|].
    destruct Hin as [<-|[]]. cbn [updated id]. apply Hl. now left.
  - apply IH; [|exact Hin]. intros r' Hr'. apply Hl. now right.
Qed.

(** The row of an item after a tick is decided by that item's own
    processing alone. *)
Lemma stored_row (rows : Store) (token : Token) :
  findResult env = None ->
  NoDup (map id rows) ->
  In token rows ->
  findOne (id token) (stored (updatePrices env rows)) = Some (rowAfter env token).
Proof.
  intros Hfind Hnodup Hin.
  unfold updatePrices. rewrite Hfind. cbn [stored]. unfold commit.
  destruct (in_split _ _ Hin) as (r1 & r2 & Hrows).
  assert (H1 : forall r, In r r1 -> id r <> id token).
  { intros r Hr Heq. rewrite Hrows, map_app in Hnodup. cbn [map] in Hnodup.
    apply NoDup_remove_2 in Hnodup. apply Hnodup, in_or_app. left.
    rewrite <- Heq. now apply in_map. }
  assert (H2 : forall r, In r r2 -> id r <> id token).
  { intros r Hr Heq. rewrite Hrows, map_app in Hnodup. cbn [map] in Hnodup.
    apply NoDup_remove_2 in Hnodup. apply Hnodup, in_or_app. right.
    rewrite <- Heq. now apply in_map. }
  rewrite Hrows at 1. rewrite map_app. cbn [map].
  rewrite !flat_map_app. cbn [flat_map]. rewrite !flat_map_app.
  rewrite !fold_left_app.
  rewrite findOne_commit_other by (apply batch_savedRows, H2).
  destruct (item_savedRows env token) as [[E ->]|[newP [E ->]]]; rewrite E;
    cbn [fold_left].
  - rewrite findOne_commit_other by (apply batch_savedRows, H1).
    rewrite Hrows. apply findOne_first, H1.
  - rewrite findOne_save. cbn [updated id]. now rewrite String.eqb_refl.
Qed.

End Store.

Lemma strict_eq_refl (a : number) : strict_eq a a = true.
Proof. unfold strict_eq. apply Z.eqb_refl. Qed.

Lemma strict_eq_false_neq (a b : number) : strict_eq a b = false -> a <> b.
Proof. intros H ->. rewrite strict_eq_refl in H. discriminate. Qed.

(** A list splits in one way only around its single element satisfying [p]. *)
Lemma split_unique {A} (p : A -> bool) (l1 l2 pre post : list A) (x y : A) :
  l1 ++ x :: l2 = pre ++ y :: post ->
  p x = true -> p y = true ->
  (forall e, In e l1 -> p e = false) ->
  (forall e, In e l2 -> p e = false) ->
  pre = l1 /\ y = x /\ post = l2.
Proof.
  revert pre. induction l1 as [|a l1 IH]; intros [|b pre] E Hx Hy H1 H2;
    cbn [app] in E.
  - injection E as -> ->. auto.
  - injection E as -> ->.
    rewrite (H2 y) in Hy by (apply in_or_app; right; now left). discriminate.
  - injection E as -> _. rewrite (H1 y (or_introl eq_refl)) in Hy. discriminate.
  - injection E as -> E.
    destruct (IH pre E Hx Hy) as (-> & -> & ->); auto.
    intros e He. apply H1. now right.
Qed.

Section Tick.

Import Pipeline.

Variable env : Env.
Variable rows : Store.

Lemma runs_inv (run : ItemRun) :
  In run (runs (updatePrices env rows)) ->
  findResult env = None /\
  exists token, In token rows /\ run = updateTokenPrice env token.
Proof.
  unfold updatePrices. destruct (findResult env); cbn [runs]; [intros []|].
  intros Hin. apply in_map_iff in Hin. destruct Hin as (token & <- & Hin).
  split; [reflexivity|]. now exists token.
Qed.

Lemma runs_intro (token : Token) :
  findResult env = None -> In token rows ->
  In (updateTokenPrice env token) (runs (updatePrices env rows)).
Proof.
  intros Hfind Hin. unfold updatePrices. rewrite Hfind. cbn [runs].
  now apply in_map.
Qed.

End Tick.

(** C2. In every tick, a store save of an item comes only after the publish
    call for that item's new price has had a send accepted by the broker and
    has returned (its "Sent message" line is logged), and it is the only save
    of the item; and when the publish call rejects, the item's promise rejects
    with that error, no save is invoked and no send was accepted, and the
    item's row in the store is the one that was loaded. *)
Theorem publish_before_persist :
  forall (env : Pipeline.Env) (rows : Pipeline.Store),
    (forall run pre t ok post,
       In run (Pipeline.runs (Pipeline.updatePrices env rows)) ->
       Pipeline.effects run = pre ++ StoreSave t ok :: post ->
       (exists m a,
          In (BrokerSend (id t) m a true) pre /\
          newPrice m = price t /\
          In (logged LOG (SentMessage m)) pre) /\
       (forall e, In e pre \/ In e post -> isSave e = false)) /\
    (forall token newP e,
       Pipeline.findResult env = None ->
       NoDup (map id rows) ->
       In token rows ->
       Pipeline.priceResult (Pipeline.item env token) = Fulfilled newP ->
       strict_eq (price token) newP = false ->
       snd (Pipeline.publish env token newP) = Rejected e ->
       let run := Pipeline.updateTokenPrice env token in
       In run (Pipeline.runs (Pipeline.updatePrices env rows)) /\
       Pipeline.outcome run = Rejected e /\
       (forall x, In x (Pipeline.effects run) -> isSave x = false /\ isSendOk x = false) /\
       Pipeline.findOne (id token) (Pipeline.stored (Pipeline.updatePrices env rows))
       = Some token).
Proof.
  intros env rows. split.
  - intros run pre t ok post Hrun Heff.
    destruct (runs_inv env rows run Hrun) as (_ & token & _ & ->).
    pose proof (updateTokenPrice_path env token) as Hpath.
    remember (Pipeline.updateTokenPrice env token) as run eqn:Hr. clear Hr.
    assert (Hnone : forall l, (forall e, In e l -> isSave e = false) ->
                              l = pre ++ StoreSave t ok :: post -> False).
    { intros l Hl E. specialize (Hl (StoreSave t ok)). rewrite E in Hl.
      discriminate Hl. apply in_or_app. right. now left. }
    destruct Hpath as [e Hp|newP Hp Heq|newP e Hp Hne Hpub
                       |newP e Hp Hne Hpub Hsave|newP Hp Hne Hpub Hsave];
      cbn [Pipeline.effects] in Heff.
    + exfalso. apply (Hnone [PriceRequested]); [|exact Heff].
      intros x [<-|[]]. reflexivity.
    + exfalso. apply (Hnone [PriceRequested]); [|exact Heff].
      intros x [<-|[]]. reflexivity.
    + exfalso. eapply Hnone; [|exact Heff].
      intros x [<-|[<-|Hx]]; try reflexivity.
      apply (publish_ofClient _ _ _ _ x Hx).
    + change (PriceRequested :: EventCreated (Pipeline.messageFor env token newP)
              :: fst (Pipeline.publish env token newP) ++ [StoreSave (updated env token newP) false])
        with ((PriceRequested :: EventCreated (Pipeline.messageFor env token newP)
               :: fst (Pipeline.publish env token newP))
              ++ StoreSave (updated env token newP) false :: []) in Heff.
      apply (split_unique isSave) in Heff; try reflexivity.
      * destruct Heff as (-> & E & ->). injection E as -> ->.
        destruct (publish_fulfilled _ _ _ _ tt Hpub) as (pre' & a & Hfst & Ha).
        split.
        -- exists (Pipeline.messageFor env token newP), a.
           unfold Pipeline.publish at 1 2. rewrite Hfst.
           split; [|split; [reflexivity|]].
           ++ do 2 right. apply in_or_app. left. exact Ha.
           ++ do 2 right. apply in_or_app. right. now left.
        -- intros x [[<-|[<-|Hx]]|[]]; try reflexivity.
           apply (publish_ofClient _ _ _ _ x Hx).
      * intros x [<-|[<-|Hx]]; try reflexivity.
        apply (publish_ofClient _ _ _ _ x Hx).
      * intros x [].
    + change (PriceRequested :: EventCreated (Pipeline.messageFor env token newP)
              :: fst (Pipeline.publish env token newP)
              ++ [StoreSave (updated env token newP) true;
                  logged LOG (UpdatedPrice (symbol token) (price token) newP)])
        with ((PriceRequested :: EventCreated (Pipeline.messageFor env token newP)
               :: fst (Pipeline.publish env token newP))
              ++ StoreSave (updated env token newP) true
              :: [logged LOG (UpdatedPrice (symbol token) (price token) newP)]) in Heff.
      apply (split_unique isSave) in Heff; try reflexivity.
      * destruct Heff as (-> & E & ->). injection E as -> ->.
        destruct (publish_fulfilled _ _ _ _ tt Hpub) as (pre' & a & Hfst & Ha).
        split.
        -- exists (Pipeline.messageFor env token newP), a.
           unfold Pipeline.publish at 1 2. rewrite Hfst.
           split; [|split; [reflexivity|]].
           ++ do 2 right. apply in_or_app. left. exact Ha.
           ++ do 2 right. apply in_or_app. right. now left.
        -- intros x [[<-|[<-|Hx]]|[<-|[]]]; try reflexivity.
           apply (publish_ofClient _ _ _ _ x Hx).
      * intros x [<-|[<-|Hx]]; try reflexivity.
        apply (publish_ofClient _ _ _ _ x Hx).
      * intros x [<-|[]]. reflexivity.
  - intros token newP e Hfind Hnodup Hin Hp Hne Hpub run.
    assert (Hrun : run =
      {| Pipeline.effects := PriceRequested :: EventCreated (Pipeline.messageFor env token newP)
                             :: fst (Pipeline.publish env token newP);
         Pipeline.outcome := Rejected e; Pipeline.entity := token |}).
    { subst run. unfold Pipeline.updateTokenPrice, strict_neq.
      rewrite Hp, Hne. cbn [negb]. rewrite Hpub. reflexivity. }
    split; [now apply runs_intro|].
    split; [now rewrite Hrun|].
    split.
    + rewrite Hrun. cbn [Pipeline.effects].
      intros x [<-|[<-|Hx]]; try (split; reflexivity).
      split; [apply (publish_ofClient _ _ _ _ x Hx)|].
      apply (publish_rejected _ _ _ _ e Hpub x Hx).
    + rewrite (stored_row env rows token Hfind Hnodup Hin).
      unfold rowAfter. fold run. now rewrite Hrun.
Qed.

Lemma NoDup_table : NoDup (map id Scenario.table).
Proof.
  repeat constructor; cbn; intuition discriminate.
Defined.

(** The tick in which B's publish fails: A is saved after its publish, B is
    left as loaded. *)
Lemma publish_before_persist_witness :
  (exists m a,
     In (BrokerSend "A" m a true)
        (firstn 4 (Pipeline.effects
                     (Pipeline.updateTokenPrice Scenario.publishOfBFails Scenario.tokenA))) /\
     newPrice m = num 300001 /\
     In (logged LOG (SentMessage m))
        (firstn 4 (Pipeline.effects
                     (Pipeline.updateTokenPrice Scenario.publishOfBFails Scenario.tokenA)))) /\
  Pipeline.findOne "B"
    (Pipeline.stored (Pipeline.updatePrices Scenario.publishOfBFails Scenario.table))
  = Some Scenario.tokenB.
Proof.
  split.
  - refine (proj1 (proj1 (publish_before_persist Scenario.publishOfBFails Scenario.table)
              (Pipeline.updateTokenPrice Scenario.publishOfBFails Scenario.tokenA)
              _ (updated Scenario.publishOfBFails Scenario.tokenA (num 300001)) true
              [logged LOG (UpdatedPrice (Some "ETH") (num 300000) (num 300001))]
              _ _)).
    + left. reflexivity.
    + reflexivity.
  - refine (proj2 (proj2 (proj2 (proj2 (publish_before_persist Scenario.publishOfBFails
              Scenario.table) Scenario.tokenB (num 4500001)
              "Failed to send message after 3 attempts: broker down"
              eq_refl NoDup_table _ eq_refl eq_refl eq_refl)))).
    right. left. reflexivity.
Defined.

(** C3. In every tick, an item whose new price equals its stored price has
    no effect beyond asking for the price: no event is constructed, nothing is
    published, nothing is saved, and its row is the one loaded; and every
    event constructed in a tick carries an old price different from its new
    price. *)
Theorem no_op_suppression :
  forall (env : Pipeline.Env) (rows : Pipeline.Store),
    (forall token newP,
       Pipeline.findResult env = None ->
       NoDup (map id rows) ->
       In token rows ->
       Pipeline.priceResult (Pipeline.item env token) = Fulfilled newP ->
       strict_eq (price token) newP = true ->
       let run := Pipeline.updateTokenPrice env token in
       In run (Pipeline.runs (Pipeline.updatePrices env rows)) /\
       Pipeline.effects run = [PriceRequested] /\
       Pipeline.outcome run = Fulfilled tt /\
       Pipeline.findOne (id token) (Pipeline.stored (Pipeline.updatePrices env rows))
       = Some token) /\
    (forall run m,
       In run (Pipeline.runs (Pipeline.updatePrices env rows)) ->
       In (EventCreated m) (Pipeline.effects run) ->
       strict_eq (oldPrice m) (newPrice m) = false /\ oldPrice m <> newPrice m).
Proof.
  intros env rows. split.
  - intros token newP Hfind Hnodup Hin Hp Heq run.
    assert (Hrun : run = {| Pipeline.effects := [PriceRequested];
                            Pipeline.outcome := Fulfilled tt;
                            Pipeline.entity := token |}).
    { subst run. unfold Pipeline.updateTokenPrice, strict_neq.
      rewrite Hp, Heq. reflexivity. }
    split; [now apply runs_intro|].
    rewrite (stored_row env rows token Hfind Hnodup Hin).
    unfold rowAfter. fold run. rewrite Hrun. auto.
  - intros run m Hrun Hev.
    destruct (runs_inv env rows run Hrun) as (_ & token & _ & ->).
    pose proof (updateTokenPrice_path env token) as Hpath.
    remember (Pipeline.updateTokenPrice env token) as run eqn:Hr. clear Hr.
    assert (Hmsg : forall newP, strict_eq (price token) newP = false ->
              m = Pipeline.messageFor env token newP ->
              strict_eq (oldPrice m) (newPrice m) = false /\ oldPrice m <> newPrice m).
    { intros newP Hne ->. cbn. split; [exact Hne|].
      now apply strict_eq_false_neq. }
    assert (Hcl : forall newP, In (EventCreated m) (fst (Pipeline.publish env token newP)) -> False).
    { intros newP Hx. destruct (publish_ofClient _ _ _ _ _ Hx) as (_ & Hx' & _). discriminate. }
    destruct Hpath as [e Hp|newP Hp Heq|newP e Hp Hne Hpub
                       |newP e Hp Hne Hpub Hsave|newP Hp Hne Hpub Hsave];
      cbn [Pipeline.effects] in Hev.
    + destruct Hev as [Hev|[]]. discriminate.
    + destruct Hev as [Hev|[]]. discriminate.
    + destruct Hev as [Hev|[Hev|Hev]]; [discriminate| |elim (Hcl _ Hev)].
      injection Hev as <-. now apply (Hmsg newP).
    + destruct Hev as [Hev|[Hev|Hev]]; [discriminate| |].
      * injection Hev as <-. now apply (Hmsg newP).
      * apply in_app_or in Hev. destruct Hev as [Hev|[Hev|[]]];
          [elim (Hcl _ Hev)|discriminate].
    + destruct Hev as [Hev|[Hev|Hev]]; [discriminate| |].
      * injection Hev as <-. now apply (Hmsg newP).
      * apply in_app_or in Hev. destruct Hev as [Hev|[Hev|[Hev|[]]]];
          [elim (Hcl _ Hev)|discriminate|discriminate].
Qed.

(** The tick in which the price source repeats C's price. *)
Lemma no_op_suppression_witness :
  Pipeline.effects (Pipeline.updateTokenPrice Scenario.sameForC Scenario.tokenC)
  = [PriceRequested] /\
  Pipeline.findOne "C"
    (Pipeline.stored (Pipeline.updatePrices Scenario.sameForC Scenario.table))
  = Some Scenario.tokenC /\
  forall m,
    In (EventCreated m)
       (Pipeline.effects (Pipeline.updateTokenPrice Scenario.sameForC Scenario.tokenA)) ->
    oldPrice m <> newPrice m.
Proof.
  pose proof (proj1 (no_op_suppression Scenario.sameForC Scenario.table)
                Scenario.tokenC (num 15000) eq_refl NoDup_table
                (or_intror (or_intror (or_introl eq_refl))) eq_refl eq_refl)
    as (_ & Heff & _ & Hrow).
  split; [exact Heff|]. split; [exact Hrow|].
  intros m Hm.
  apply (proj2 (no_op_suppression Scenario.sameForC Scenario.table)
           (Pipeline.updateTokenPrice Scenario.sameForC Scenario.tokenA) m
           (or_introl eq_refl) Hm).
Defined.

(** ** Failure isolation and the failure report *)

Lemma count_app {A} (p : A -> bool) (l1 l2 : list A) :
  count p (l1 ++ l2) = (count p l1 + count p l2)%nat.
Proof. unfold count. now rewrite filter_app, length_app. Qed.

Lemma no_warning_logs (l : list Effect) :
  (forall e, In e l -> isWarning e = false) ->
  count isWarn (flat_map Pipeline.logOf l) = 0%nat.
Proof.
  induction l as [|e l IH]; intros Hl; [reflexivity|].
  cbn [flat_map]. rewrite count_app, IH by (intros e' He'; apply Hl; now right).
  specialize (Hl e (or_introl eq_refl)).
  destruct e; try reflexivity. unfold count. cbn in *. now rewrite Hl.
Qed.

Section Report.

Import Pipeline.

Lemma item_no_warning (env : Env) (token : Token) :
  forall e, In e (effects (updateTokenPrice env token)) -> isWarning e = false.
Proof.
  pose proof (updateTokenPrice_path env token) as Hpath.
  remember (updateTokenPrice env token) as run eqn:Hr. clear Hr.
  assert (Hcl : forall newP e, In e (fst (publish env token newP)) ->
                               isWarning e = false).
  { intros newP e He. apply (publish_ofClient _ _ _ _ e He). }
  destruct Hpath; cbn [effects]; intros x Hx;
    repeat (destruct Hx as [<-|Hx]; [reflexivity|]);
    try contradiction; try (now apply (Hcl newP));
    apply in_app_or in Hx; destruct Hx as [Hx|Hx];
    try (now apply (Hcl newP));
    repeat (destruct Hx as [<-|Hx]; [reflexivity|]); contradiction.
Qed.

Lemma batch_no_warning (env : Env) (l : Store) :
  forall e, In e (flat_map effects (map (updateTokenPrice env) l)) ->
            isWarning e = false.
Proof.
  intros e He. apply in_flat_map in He. destruct He as (run & Hrun & He).
  apply in_map_iff in Hrun. destruct Hrun as (token & <- & _).
  now apply (item_no_warning env token).
Qed.

Lemma reasons_failures (results : list (Settled unit)) :
  reasons (filter isRejected results) = reasons results /\
  List.length (filter isRejected results) = List.length (reasons results).
Proof.
  unfold reasons.
  induction results as [|[u|e] results [IH1 IH2]];
    cbn [filter isRejected flat_map app List.length]; auto.
  rewrite IH1, IH2. auto.
Qed.

(** The report is a function of the rejection reasons alone. *)
Lemma report_reasons (results : list (Settled unit)) :
  report results =
  if (0 <? List.length (reasons results))%nat then
    {| level := WARN; line := TokensFailed (List.length (reasons results)) |}
      :: map (fun e => {| level := ERROR; line := FailedToUpdateToken e |})
           (reasons results)
  else [].
Proof.
  unfold report. cbv zeta.
  destruct (reasons_failures results) as [E1 E2]. now rewrite E1, E2.
Qed.

Lemma error_lines_no_warn (rs : list Error) :
  filter isWarn
    (map (fun e => {| level := ERROR; line := FailedToUpdateToken e |}) rs) = [].
Proof. induction rs as [|e rs IH]; [reflexivity|exact IH]. Qed.

Lemma report_warnings (results : list (Settled unit)) :
  count isWarn (report results) =
  if (0 <? count isRejected results)%nat then 1%nat else 0%nat.
Proof.
  unfold count. rewrite report_reasons.
  destruct (reasons_failures results) as [_ E2]. rewrite E2.
  destruct (0 <? List.length (reasons results))%nat; [|reflexivity].
  cbn [filter isWarn level]. now rewrite error_lines_no_warn.
Qed.

(** An item's processing reads nothing of the tick but its own answers. *)
Lemma updateTokenPrice_local (env env' : Env) (token : Token) :
  isConnected env' = isConnected env ->
  schemaParse env' = schemaParse env ->
  item env' token = item env token ->
  updateTokenPrice env' token = updateTokenPrice env token.
Proof.
  intros Hc Hs Hi. unfold updateTokenPrice, publish, messageFor.
  now rewrite Hc, Hs, Hi.
Qed.

End Report.

(** C6 as the claim states it fails on a tick without failures: all three
    items are processed and saved, and no warning line is logged at all. *)
Lemma failure_isolation_counterexample :
  let r := Pipeline.updatePrices Scenario.allSucceed Scenario.table in
  List.length (Pipeline.runs r) = 3%nat /\
  Pipeline.failureCount r = 0%nat /\
  count isWarn (Pipeline.tickLog r) = 0%nat /\
  count isWarn (Pipeline.tickLog r) <> 1%nat.
Proof. vm_compute. repeat split; discriminate. Qed.

(** C6, amended. In every tick the failures are counted, and the tick logs
    exactly one warning line, carrying that count, when the count is positive,
    and no warning line when no item failed.  When the load succeeds, every
    item is processed and its outcome collected, in table order, whatever the
    other outcomes are; and an item's processing and its row after the tick
    depend on its own collaborators' answers only, not on what happens to any
    other item. *)
Theorem failure_isolation :
  forall (env : Pipeline.Env) (rows : Pipeline.Store),
    let r := Pipeline.updatePrices env rows in
    count isWarn (Pipeline.tickLog r)
      = (if (0 <? Pipeline.failureCount r)%nat then 1%nat else 0%nat) /\
    ((0 < Pipeline.failureCount r)%nat ->
     In {| level := WARN; line := TokensFailed (Pipeline.failureCount r) |}
        (Pipeline.summary r)) /\
    (Pipeline.findResult env = None ->
     map Pipeline.outcome (Pipeline.runs r)
       = map (fun t => Pipeline.outcome (Pipeline.updateTokenPrice env t)) rows /\
     Pipeline.failureCount r
       = count (fun t => isRejected (Pipeline.outcome (Pipeline.updateTokenPrice env t)))
               rows /\
     (NoDup (map id rows) ->
      (forall token, In token rows ->
         Pipeline.findOne (id token) (Pipeline.stored r) = Some (rowAfter env token)) /\
      (forall env' token,
         Pipeline.findResult env' = None ->
         Pipeline.isConnected env' = Pipeline.isConnected env ->
         Pipeline.schemaParse env' = Pipeline.schemaParse env ->
         In token rows ->
         Pipeline.item env' token = Pipeline.item env token ->
         Pipeline.updateTokenPrice env' token = Pipeline.updateTokenPrice env token /\
         Pipeline.findOne (id token) (Pipeline.stored (Pipeline.updatePrices env' rows))
         = Pipeline.findOne (id token) (Pipeline.stored r)))).
Proof.
  intros env rows r.
  destruct (Pipeline.findResult env) as [e|] eqn:Hfind.
  { assert (Hr : r = {| Pipeline.opening := []; Pipeline.runs := [];
                        Pipeline.summary :=
                          [{| level := ERROR; line := ErrorUpdatingPrices e |}];
                        Pipeline.stored := rows |}).
    { subst r. unfold Pipeline.updatePrices. now rewrite Hfind. }
    rewrite Hr. split; [reflexivity|]. split; [|discriminate].
    unfold Pipeline.failureCount, count. cbn. lia. }
  assert (Hr : r = {| Pipeline.opening :=
                        [{| level := LOG; line := UpdatingPrices (List.length rows) |}];
                      Pipeline.runs := map (Pipeline.updateTokenPrice env) rows;
                      Pipeline.summary :=
                        Pipeline.report (map Pipeline.outcome
                                           (map (Pipeline.updateTokenPrice env) rows));
                      Pipeline.stored :=
                        Pipeline.commit
                          (flat_map Pipeline.effects
                             (map (Pipeline.updateTokenPrice env) rows)) rows |}).
  { subst r. unfold Pipeline.updatePrices. now rewrite Hfind. }
  split; [|split].
  - unfold Pipeline.tickLog. rewrite !count_app.
    unfold Pipeline.failureCount. rewrite Hr.
    cbn [Pipeline.opening Pipeline.runs Pipeline.summary].
    rewrite report_warnings, no_warning_logs by apply batch_no_warning.
    reflexivity.
  - unfold Pipeline.failureCount. rewrite Hr.
    cbn [Pipeline.runs Pipeline.summary]. intros Hpos.
    unfold Pipeline.report, count in *.
    apply Nat.ltb_lt in Hpos. rewrite Hpos. now left.
  - intros _. split; [|split].
    + rewrite Hr. cbn [Pipeline.runs]. now rewrite map_map.
    + rewrite Hr. unfold Pipeline.failureCount, count. cbn [Pipeline.runs].
      rewrite map_map. clear. induction rows as [|t l IH]; [reflexivity|].
      cbn [map filter]. destruct (isRejected _); cbn [List.length]; now rewrite IH.
    + intros Hnodup. split.
      * intros token Hin. now apply stored_row.
      * intros env' token Hfind' Hc Hs Hin Hi.
        pose proof (updateTokenPrice_local env env' token Hc Hs Hi) as Hloc.
        split; [exact Hloc|].
        subst r. rewrite !stored_row by assumption.
        unfold rowAfter. now rewrite Hloc.
Qed.

(** Three items, B's publish always fails: one failure, one warning line;
    A and C are stored with their new prices, B with its old one. *)
Lemma failure_isolation_witness :
  let r := Pipeline.updatePrices Scenario.publishOfBFails Scenario.table in
  Pipeline.failureCount r = 1%nat /\
  count isWarn (Pipeline.tickLog r) = 1%nat /\
  In {| level := WARN; line := TokensFailed 1 |} (Pipeline.summary r) /\
  option_map price (Pipeline.findOne "A" (Pipeline.stored r)) = Some (num 300001) /\
  option_map price (Pipeline.findOne "B" (Pipeline.stored r)) = Some (num 4500000) /\
  option_map price (Pipeline.findOne "C" (Pipeline.stored r)) = Some (num 15001).
Proof.
  intros r.
  destruct (failure_isolation Scenario.publishOfBFails Scenario.table)
    as (Hwarn & Hline & Hitems).
  destruct (Hitems eq_refl) as (_ & Hcount & Hstore).
  destruct (Hstore NoDup_table) as (Hrow & _).
  fold r in Hrow, Hcount, Hwarn, Hline.
  assert (Hc : Pipeline.failureCount r = 1%nat) by (rewrite Hcount; reflexivity).
  split; [exact Hc|].
  split; [rewrite Hwarn, Hc; reflexivity|].
  split; [rewrite <- Hc at 1; apply Hline; rewrite Hc; constructor|].
  split; [|split].
  - change "A" with (id Scenario.tokenA).
    rewrite (Hrow Scenario.tokenA (or_introl eq_refl)). reflexivity.
  - change "B" with (id Scenario.tokenB).
    rewrite (Hrow Scenario.tokenB (or_intror (or_introl eq_refl))). reflexivity.
  - change "C" with (id Scenario.tokenC).
    rewrite (Hrow Scenario.tokenC (or_intror (or_intror (or_introl eq_refl)))). reflexivity.
Defined.

Lemma report_has_reason (results : list (Settled unit)) (e : Error) :
  In (Rejected e) results ->
  In {| level := ERROR; line := FailedToUpdateToken e |} (Pipeline.report results).
Proof.
  intros Hin. rewrite report_reasons.
  assert (He : In e (Pipeline.reasons results)).
  { unfold Pipeline.reasons. apply in_flat_map. exists (Rejected e).
    split; [exact Hin|now left]. }
  destruct (Pipeline.reasons results) as [|e' rs]; [destruct He|].
  cbn [List.length Nat.ltb Nat.leb]. right.
  apply (in_map (fun e => {| level := ERROR; line := FailedToUpdateToken e |}) _ _ He).
Qed.

(** C9 as the claim states it fails: a tick whose only item fails at the
    save, after its publish succeeded, and a tick whose only item fails at the
    price source log the very same failure lines when the two errors carry the
    same message. *)
Lemma persist_failure_log_counterexample :
  let p := Pipeline.updatePrices Scenario.persistFails [Scenario.tokenA] in
  let s := Pipeline.updatePrices Scenario.sourceFails [Scenario.tokenA] in
  existsb isSendOk (flat_map Pipeline.effects (Pipeline.runs p)) = true /\
  In (StoreSave (updated Scenario.persistFails Scenario.tokenA (num 300001)) false)
     (flat_map Pipeline.effects (Pipeline.runs p)) /\
  flat_map Pipeline.effects (Pipeline.runs s) = [PriceRequested] /\
  Pipeline.summary p = Pipeline.summary s /\
  Pipeline.summary p =
    [{| level := WARN; line := TokensFailed 1 |};
     {| level := ERROR; line := FailedToUpdateToken "boom" |}].
Proof.
  cbv zeta. repeat split.
  do 4 right. left. reflexivity.
Qed.

(** C9, amended. A per-item persist failure after a successful publish is
    caught and logged: the item's promise rejects with the store's error, the
    tick's report carries the line "Failed to update token: <that error>", and
    the publish client's "Sent message" line for the item precedes the failed
    save.  The failure line is the one used for every per-item failure: the
    report of a tick is determined by the rejection reasons alone, so ticks
    with the same reasons log the same report whichever steps failed. *)
Theorem failure_report_by_reason :
  forall (env : Pipeline.Env) (rows : Pipeline.Store),
    Pipeline.findResult env = None ->
    let r := Pipeline.updatePrices env rows in
    (forall token newP e,
       In token rows ->
       Pipeline.priceResult (Pipeline.item env token) = Fulfilled newP ->
       strict_eq (price token) newP = false ->
       snd (Pipeline.publish env token newP) = Fulfilled tt ->
       Pipeline.saveResult (Pipeline.item env token) = Some e ->
       let run := Pipeline.updateTokenPrice env token in
       Pipeline.outcome run = Rejected e /\
       In {| level := ERROR; line := FailedToUpdateToken e |} (Pipeline.summary r) /\
       exists pre,
         Pipeline.effects run =
           pre ++ [logged LOG (SentMessage (Pipeline.messageFor env token newP));
                   StoreSave (updated env token newP) false]) /\
    (forall env' rows',
       Pipeline.findResult env' = None ->
       Pipeline.reasons (map Pipeline.outcome (Pipeline.runs (Pipeline.updatePrices env' rows')))
       = Pipeline.reasons (map Pipeline.outcome (Pipeline.runs r)) ->
       Pipeline.summary (Pipeline.updatePrices env' rows') = Pipeline.summary r).
Proof.
  intros env rows Hfind r.
  assert (Hsum : forall env0 rows0, Pipeline.findResult env0 = None ->
            Pipeline.summary (Pipeline.updatePrices env0 rows0) =
            Pipeline.report (map Pipeline.outcome
                               (Pipeline.runs (Pipeline.updatePrices env0 rows0)))).
  { intros env0 rows0 H0. unfold Pipeline.updatePrices. now rewrite H0. }
  split.
  - intros token newP e Hin Hp Hne Hpub Hsave run.
    assert (Hrun : run =
      {| Pipeline.effects := PriceRequested :: EventCreated (Pipeline.messageFor env token newP)
                             :: fst (Pipeline.publish env token newP)
                             ++ [StoreSave (updated env token newP) false];
         Pipeline.outcome := Rejected e; Pipeline.entity := updated env token newP |}).
    { subst run. unfold Pipeline.updateTokenPrice, strict_neq.
      rewrite Hp, Hne. cbn [negb]. rewrite Hpub, Hsave. reflexivity. }
    split; [now rewrite Hrun|]. split.
    + subst r. rewrite Hsum by exact Hfind. apply report_has_reason.
      apply in_map_iff. exists run. split; [now rewrite Hrun|].
      now apply runs_intro.
    + destruct (publish_fulfilled _ _ _ _ tt Hpub) as (pre & a & Hfst & _).
      exists (PriceRequested :: EventCreated (Pipeline.messageFor env token newP) :: pre).
      rewrite Hrun. cbn [Pipeline.effects]. unfold Pipeline.publish. rewrite Hfst.
      cbn [app]. now rewrite <- app_assoc.
  - intros env' rows' Hfind' Hreasons.
    subst r. rewrite !Hsum by assumption.
    now rewrite !report_reasons, Hreasons.
Qed.

(** The persist failure of the concrete tick, and its report next to that of
    the price-source failure. *)
Lemma failure_report_by_reason_witness :
  In {| level := ERROR; line := FailedToUpdateToken "boom" |}
     (Pipeline.summary (Pipeline.updatePrices Scenario.persistFails [Scenario.tokenA])) /\
  Pipeline.summary (Pipeline.updatePrices Scenario.sourceFails [Scenario.tokenA])
  = Pipeline.summary (Pipeline.updatePrices Scenario.persistFails [Scenario.tokenA]).
Proof.
  pose proof (failure_report_by_reason Scenario.persistFails [Scenario.tokenA] eq_refl)
    as [Hp Hs].
  split.
  - apply (Hp Scenario.tokenA (num 300001) "boom" (or_introl eq_refl)
              eq_refl eq_refl eq_refl eq_refl).
  - apply (Hs Scenario.sourceFails [Scenario.tokenA] eq_refl eq_refl).
Defined.

(** ** The scheduler *)

(** Reduction of the field projections and setters of the world. *)
Ltac fields :=
  cbn [Scheduler.service Scheduler.rows Scheduler.inFlight Scheduler.begun
       Scheduler.waiters Scheduler.awaiting Scheduler.returned
       Scheduler.nextInvocation Scheduler.logs Scheduler.updateIntervalSeconds
       Scheduler.timer Scheduler.isRunning Scheduler.isProcessing
       Scheduler.shutdownPromise fst snd negb Scheduler.withService
       Scheduler.withWaiters Scheduler.withAwaiting Scheduler.withReturned
       Scheduler.say Scheduler.suspend Scheduler.setTimer Scheduler.setIsRunning
       Scheduler.setIsProcessing Scheduler.setShutdownPromise] in *.

Ltac open_tick :=
  unfold Scheduler.start, Scheduler.timerFires, Scheduler.beginTick,
    Scheduler.say, Scheduler.withService, Scheduler.setTimer,
    Scheduler.setIsRunning, Scheduler.setIsProcessing.

Section SchedulerFacts.

Import Scheduler.

Lemma sameTicks_refl (w : World) : sameTicks w w.
Proof. repeat split. Qed.

Lemma sameTicks_trans (w1 w2 w3 : World) :
  sameTicks w1 w2 -> sameTicks w2 w3 -> sameTicks w1 w3.
Proof. unfold sameTicks. intuition congruence. Qed.

Lemma stopFinish_sameTicks (w : World) : sameTicks w (stopFinish w).
Proof.
  unfold stopFinish. destruct (isProcessing (service w)); repeat split.
Qed.

Lemma stopLoop_sameTicks (a : nat) (w : World) : sameTicks w (fst (stopLoop a w)).
Proof.
  unfold stopLoop.
  destruct (isProcessing (service w) && (a <? maxAttempts)%nat); fields;
    [apply sameTicks_refl|apply stopFinish_sameTicks].
Qed.

Lemma stopBegin_sameTicks (w : World) : sameTicks w (fst (stopBegin w)).
Proof.
  unfold stopBegin.
  destruct (isRunning (service w)); fields; [|repeat split].
  destruct (timer (service w)); fields;
    (destruct (isProcessing (service w)) eqn:Hp; fields;
     [eapply sameTicks_trans; [|apply stopLoop_sameTicks]; repeat split
     |repeat split]).
Qed.

Lemma callStop_sameTicks (c : nat) (w : World) : sameTicks w (callStop c w).
Proof.
  unfold callStop. pose proof (stopBegin_sameTicks w) as H.
  destruct (stopBegin w) as [w1 [a|]]; fields; exact H.
Qed.

Lemma callOnModuleDestroy_sameTicks (c : nat) (w : World) :
  sameTicks w (callOnModuleDestroy c w).
Proof.
  unfold callOnModuleDestroy. pose proof (stopBegin_sameTicks w) as H.
  destruct (shutdownPromise (service w)) as [[|i]|] eqn:Hsp; cbv zeta;
    rewrite ?Hsp; fields; [repeat split|repeat split|].
  destruct (stopBegin w) as [w1 [a|]]; fields; exact H.
Qed.

Lemma sleepElapses_sameTicks (i : nat) (w : World) : sameTicks w (sleepElapses i w).
Proof.
  unfold sleepElapses.
  destruct (findWaiter i (waiters w)) as [x|]; [|apply sameTicks_refl].
  pose proof (stopLoop_sameTicks (attempts x + 1) w) as H.
  destruct (stopLoop (attempts x + 1) w) as [w1 [a|]]; fields; [exact H|].
  unfold finishInvocation, resolvePromise, sameTicks in *.
  destruct (shutdownPromise (service w1)) as [[|j]|]; fields; auto.
  destruct (j =? invocation x)%nat; fields; auto.
Qed.

Lemma guarded_init (interval : Z) (table : Pipeline.Store) :
  guarded (init interval table).
Proof. reflexivity. Qed.

Lemma guarded_sameTicks (w w' : World) : sameTicks w w' -> guarded w -> guarded w'.
Proof. unfold guarded. intros (-> & -> & _ & _). auto. Qed.

Lemma guarded_step (w : World) (e : Event) : guarded w -> guarded (step w e).
Proof.
  destruct e; cbn [step].
  - unfold guarded. open_tick.
    destruct (isRunning (service w)); fields; [auto|].
    destruct (isProcessing (service w)); fields; intros ->; reflexivity.
  - unfold guarded. open_tick.
    destruct (timer (service w)); fields; [|auto].
    destruct (isProcessing (service w)) eqn:Hp; fields; rewrite ?Hp;
      intros ->; reflexivity.
  - unfold guarded, tickSettles, setIsProcessing.
    destruct (inFlight w) as [|n] eqn:Hn; fields; [now rewrite Hn|].
    destruct (isProcessing (service w)); congruence.
  - apply guarded_sameTicks, callStop_sameTicks.
  - apply guarded_sameTicks, callOnModuleDestroy_sameTicks.
  - apply guarded_sameTicks, sleepElapses_sameTicks.
Qed.

Lemma guarded_run (w : World) (es : list Event) : guarded w -> guarded (run w es).
Proof.
  revert w. induction es as [|e es IH]; intros w H; [exact H|].
  apply IH, guarded_step, H.
Qed.

Lemma sameCalls_refl (w : World) : sameCalls w w.
Proof. repeat split. Qed.

Lemma sameCalls_trans (w1 w2 w3 : World) :
  sameCalls w1 w2 -> sameCalls w2 w3 -> sameCalls w1 w3.
Proof. unfold sameCalls. intuition congruence. Qed.

Lemma start_sameCalls (w : World) : sameCalls w (start w).
Proof.
  open_tick. destruct (isRunning (service w)); fields; [repeat split|].
  destruct (isProcessing (service w)); repeat split.
Qed.

Lemma timerFires_sameCalls (w : World) : sameCalls w (timerFires w).
Proof.
  open_tick. destruct (timer (service w)); fields; [|repeat split].
  destruct (isProcessing (service w)); repeat split.
Qed.

Lemma tickSettles_sameCalls (env : Pipeline.Env) (w : World) :
  sameCalls w (tickSettles env w).
Proof. unfold tickSettles. destruct (inFlight w); repeat split. Qed.

Lemma stopFinish_sameCalls (w : World) : sameCalls w (stopFinish w).
Proof.
  unfold stopFinish. destruct (isProcessing (service w)); repeat split.
Qed.

Lemma stopLoop_sameCalls (a : nat) (w : World) : sameCalls w (fst (stopLoop a w)).
Proof.
  unfold stopLoop.
  destruct (isProcessing (service w) && (a <? maxAttempts)%nat); fields;
    [apply sameCalls_refl|apply stopFinish_sameCalls].
Qed.

Lemma stopBegin_sameCalls (w : World) : sameCalls w (fst (stopBegin w)).
Proof.
  unfold stopBegin.
  destruct (isRunning (service w)); fields; [|repeat split].
  destruct (timer (service w)); fields;
    (destruct (isProcessing (service w)) eqn:Hp; fields;
     [eapply sameCalls_trans; [|apply stopLoop_sameCalls]; repeat split
     |repeat split]).
Qed.

(** *** Waiters *)

Lemma findWaiter_invocation (i : nat) (ws : list Waiter) (x : Waiter) :
  findWaiter i ws = Some x -> invocation x = i.
Proof.
  induction ws as [|y ws IH]; cbn [findWaiter]; [discriminate|].
  destruct (Nat.eqb_spec (invocation y) i); [|exact IH].
  now intros [= <-].
Qed.

Lemma findWaiter_app (i : nat) (ws ws' : list Waiter) (x : Waiter) :
  findWaiter i ws = Some x -> findWaiter i (ws ++ ws') = Some x.
Proof.
  induction ws as [|y ws IH]; cbn [findWaiter app]; [discriminate|].
  destruct (invocation y =? i)%nat; auto.
Qed.

Lemma findWaiter_fresh (i : nat) (ws : list Waiter) (x : Waiter) :
  (forall y, In y ws -> (invocation y < i)%nat) ->
  invocation x = i ->
  findWaiter i (ws ++ [x]) = Some x.
Proof.
  intros Hws Hx. induction ws as [|y ws IH]; cbn [findWaiter app].
  - rewrite Hx, Nat.eqb_refl. reflexivity.
  - destruct (Nat.eqb_spec (invocation y) i) as [E|_].
    + specialize (Hws y (or_introl eq_refl)). lia.
    + apply IH. intros z Hz. apply Hws. now right.
Qed.

Lemma findWaiter_setAttempts_same (i a : nat) (ws : list Waiter) (x : Waiter) :
  findWaiter i ws = Some x ->
  findWaiter i (setAttempts i a ws)
  = Some {| invocation := i; caller := caller x; attempts := a |}.
Proof.
  induction ws as [|y ws IH]; cbn [findWaiter setAttempts map]; [discriminate|].
  destruct (Nat.eqb_spec (invocation y) i) as [E|E]; cbn [invocation].
  - intros [= <-]. now rewrite Nat.eqb_refl.
  - destruct (Nat.eqb_spec (invocation y) i); [contradiction|]. exact IH.
Qed.

Lemma findWaiter_setAttempts_other (i j a : nat) (ws : list Waiter) :
  j <> i -> findWaiter i (setAttempts j a ws) = findWaiter i ws.
Proof.
  intros Hji. induction ws as [|y ws IH]; cbn [findWaiter setAttempts map];
    [reflexivity|].
  destruct (Nat.eqb_spec (invocation y) j) as [E|E]; cbn [invocation].
  - destruct (Nat.eqb_spec j i); [contradiction|].
    destruct (Nat.eqb_spec (invocation y) i); [congruence|]. exact IH.
  - destruct (invocation y =? i)%nat; [reflexivity|exact IH].
Qed.

Lemma findWaiter_dropWaiter_other (i j : nat) (ws : list Waiter) :
  j <> i -> findWaiter i (dropWaiter j ws) = findWaiter i ws.
Proof.
  intros Hji. induction ws as [|y ws IH]; cbn [findWaiter dropWaiter filter];
    [reflexivity|].
  destruct (Nat.eqb_spec (invocation y) j) as [E|E]; cbn [negb findWaiter].
  - destruct (Nat.eqb_spec (invocation y) i); [congruence|]. exact IH.
  - destruct (invocation y =? i)%nat; [reflexivity|exact IH].
Qed.

Lemma findWaiter_dropWaiter_same (i : nat) (ws : list Waiter) :
  findWaiter i (dropWaiter i ws) = None.
Proof.
  induction ws as [|y ws IH]; cbn [findWaiter dropWaiter filter]; [reflexivity|].
  destruct (Nat.eqb_spec (invocation y) i) as [E|E]; cbn [negb findWaiter];
    [exact IH|].
  destruct (Nat.eqb_spec (invocation y) i); [contradiction|exact IH].
Qed.

(** *** stop() up to its first await *)

Lemma stopBegin_stopped (w : World) :
  isRunning (service w) = false -> stopBegin w = (say WARN NotRunning w, None).
Proof. intros H. unfold stopBegin. now rewrite H. Qed.

Lemma stopBegin_running (w : World) :
  isRunning (service w) = true ->
  timer (service (fst (stopBegin w))) = false /\
  isRunning (service (fst (stopBegin w))) = false /\
  snd (stopBegin w) = (if isProcessing (service w) then Some 0%nat else None) /\
  logs (fst (stopBegin w)) =
    logs w ++ [{| level := LOG; line := StoppingService |};
               {| level := LOG;
                  line := if isProcessing (service w) then WaitingForUpdate
                          else ServiceStopped |}].
Proof.
  intros H. unfold stopBegin, stopLoop. rewrite H. fields.
  destruct (timer (service w)) eqn:Ht; fields;
    destruct (isProcessing (service w)); fields;
    change (0 <? maxAttempts)%nat with true; cbn [andb]; fields;
    rewrite <- ?app_assoc; repeat split; exact Ht.
Qed.

(** *** One step at a time *)

Lemma step_keeps_waiter (i : nat) (w : World) (e : Event) (x : Waiter) :
  isSleepOf i e = false ->
  findWaiter i (waiters w) = Some x ->
  findWaiter i (waiters (step w e)) = Some x.
Proof.
  intros He Hx. destruct e as [| |env|c|c|j]; cbn [step].
  - destruct (start_sameCalls w) as (-> & _). exact Hx.
  - destruct (timerFires_sameCalls w) as (-> & _). exact Hx.
  - destruct (tickSettles_sameCalls env w) as (-> & _). exact Hx.
  - unfold callStop. destruct (stopBegin_sameCalls w) as (Hw & _).
    destruct (stopBegin w) as [w1 [a|]]; fields; rewrite Hw;
      [now apply findWaiter_app|exact Hx].
  - unfold callOnModuleDestroy. destruct (stopBegin_sameCalls w) as (Hw & _).
    destruct (shutdownPromise (service w)) as [[|k]|] eqn:Hsp; cbv zeta;
      rewrite ?Hsp; fields; try exact Hx.
    destruct (stopBegin w) as [w1 [a|]]; fields; rewrite Hw;
      [now apply findWaiter_app|exact Hx].
  - cbn [isSleepOf] in He. apply Nat.eqb_neq in He.
    unfold sleepElapses.
    destruct (findWaiter j (waiters w)) as [y|] eqn:Hy; [|exact Hx].
    destruct (stopLoop_sameCalls (attempts y + 1) w) as (Hw & _).
    destruct (stopLoop (attempts y + 1) w) as [w1 [a|]]; fields.
    + rewrite Hw, findWaiter_setAttempts_other; assumption.
    + unfold finishInvocation. fields.
      rewrite (findWaiter_invocation _ _ _ Hy), Hw,
        findWaiter_dropWaiter_other; assumption.
Qed.

Lemma step_returned_grows (w : World) (e : Event) :
  exists l, returned (step w e) = returned w ++ l.
Proof.
  destruct e as [| |env|c|c|j]; cbn [step].
  - exists []. destruct (start_sameCalls w) as (_ & _ & -> & _).
    now rewrite app_nil_r.
  - exists []. destruct (timerFires_sameCalls w) as (_ & _ & -> & _).
    now rewrite app_nil_r.
  - exists []. destruct (tickSettles_sameCalls env w) as (_ & _ & -> & _).
    now rewrite app_nil_r.
  - unfold callStop. destruct (stopBegin_sameCalls w) as (_ & _ & Hw & _).
    destruct (stopBegin w) as [w1 [a|]]; fields; rewrite Hw; eauto.
    exists []. now rewrite app_nil_r.
  - unfold callOnModuleDestroy. destruct (stopBegin_sameCalls w) as (_ & _ & Hw & _).
    destruct (shutdownPromise (service w)) as [[|k]|] eqn:Hsp; cbv zeta;
      rewrite ?Hsp; fields; eauto.
    + exists []. now rewrite app_nil_r.
    + destruct (stopBegin w) as [w1 [a|]]; fields; rewrite Hw; eauto.
      exists []. now rewrite app_nil_r.
  - unfold sleepElapses.
    destruct (findWaiter j (waiters w)) as [y|] eqn:Hy;
      [|exists []; now rewrite app_nil_r].
    destruct (stopLoop_sameCalls (attempts y + 1) w) as (_ & _ & Hw & _).
    destruct (stopLoop (attempts y + 1) w) as [w1 [a|]]; fields.
    + exists []. now rewrite Hw, app_nil_r.
    + unfold finishInvocation. fields. rewrite Hw. eauto.
Qed.

Lemma hasReturned_step (c : nat) (w : World) (e : Event) :
  hasReturned c w = true -> hasReturned c (step w e) = true.
Proof.
  unfold hasReturned. destruct (step_returned_grows w e) as [l ->].
  rewrite existsb_app. now intros ->.
Qed.

Lemma hasReturned_run (c : nat) (es : list Event) (w : World) :
  hasReturned c w = true -> hasReturned c (run w es) = true.
Proof.
  revert w. induction es as [|e es IH]; intros w H; [exact H|].
  apply IH, hasReturned_step, H.
Qed.

Lemma step_keeps_processing (w : World) (e : Event) :
  isSettle e = false ->
  isProcessing (service w) = true ->
  isProcessing (service (step w e)) = true.
Proof.
  intros He Hp. destruct e as [| |env|c|c|j]; cbn [step]; try discriminate.
  - open_tick. destruct (isRunning (service w)); fields; [exact Hp|].
    now rewrite Hp.
  - open_tick. destruct (timer (service w)); fields; [|exact Hp].
    now rewrite Hp.
  - destruct (callStop_sameTicks c w) as (-> & _). exact Hp.
  - destruct (callOnModuleDestroy_sameTicks c w) as (-> & _). exact Hp.
  - destruct (sleepElapses_sameTicks j w) as (-> & _). exact Hp.
Qed.

(** *** The interval stays cleared *)

Lemma stopFinish_timer (w : World) :
  timer (service (stopFinish w)) = timer (service w).
Proof. unfold stopFinish. destruct (isProcessing (service w)); reflexivity. Qed.

Lemma stopLoop_timer (a : nat) (w : World) :
  timer (service (fst (stopLoop a w))) = timer (service w).
Proof.
  unfold stopLoop.
  destruct (isProcessing (service w) && (a <? maxAttempts)%nat); fields;
    [reflexivity|apply stopFinish_timer].
Qed.

Lemma stopBegin_timer (w : World) :
  timer (service w) = false -> timer (service (fst (stopBegin w))) = false.
Proof.
  intros Ht. destruct (isRunning (service w)) eqn:Hr.
  - now apply stopBegin_running.
  - now rewrite stopBegin_stopped.
Qed.

Lemma timer_off_step (w : World) (e : Event) :
  isStart e = false ->
  timer (service w) = false ->
  timer (service (step w e)) = false /\ begun (step w e) = begun w.
Proof.
  intros He Ht. destruct e as [| |env|c|c|j]; cbn [step]; try discriminate.
  - unfold timerFires. rewrite Ht. auto.
  - unfold tickSettles. destruct (inFlight w); auto.
  - split; [|apply callStop_sameTicks].
    unfold callStop. pose proof (stopBegin_timer w Ht) as H.
    destruct (stopBegin w) as [w1 [a|]]; exact H.
  - split; [|apply callOnModuleDestroy_sameTicks].
    unfold callOnModuleDestroy. pose proof (stopBegin_timer w Ht) as H.
    destruct (shutdownPromise (service w)) as [[|k]|] eqn:Hsp; cbv zeta;
      rewrite ?Hsp; fields; try exact Ht.
    destruct (stopBegin w) as [w1 [a|]]; exact H.
  - split; [|apply sleepElapses_sameTicks].
    unfold sleepElapses. destruct (findWaiter j (waiters w)) as [y|]; [|exact Ht].
    pose proof (stopLoop_timer (attempts y + 1) w) as H. rewrite Ht in H.
    destruct (stopLoop (attempts y + 1) w) as [w1 [a|]]; fields; [exact H|].
    unfold finishInvocation, resolvePromise. fields.
    destruct (shutdownPromise (service w1)) as [[|k]|]; try exact H.
    destruct (k =? invocation y)%nat; exact H.
Qed.

Lemma timer_off_run (es : list Event) (w : World) :
  forallb (fun e => negb (isStart e)) es = true ->
  timer (service w) = false ->
  timer (service (run w es)) = false /\ begun (run w es) = begun w.
Proof.
  revert w. induction es as [|e es IH]; intros w Hes Ht; [auto|].
  cbn [forallb] in Hes. apply andb_prop in Hes. destruct Hes as [He Hes].
  apply negb_true_iff in He.
  destruct (timer_off_step w e He Ht) as [Ht' Hb].
  destruct (IH (step w e) Hes Ht') as [H1 H2].
  cbn [run fold_left]. split; [exact H1|]. unfold run in H2. congruence.
Qed.

(** *** Invocation numbers are fresh *)

Lemma fresh_suspend (c : option nat) (a : nat) (w : World) :
  fresh w -> fresh (suspend c a w).
Proof.
  unfold fresh. fields. intros H x Hx. apply in_app_or in Hx.
  destruct Hx as [Hx|[<-|[]]]; [specialize (H x Hx); lia|cbn; lia].
Qed.

Lemma fresh_sameCalls (w w' : World) : sameCalls w w' -> fresh w -> fresh w'.
Proof. unfold fresh. intros (-> & _ & _ & -> & _). auto. Qed.

Lemma fresh_step (w : World) (e : Event) : fresh w -> fresh (step w e).
Proof.
  intros H. destruct e as [| |env|c|c|j]; cbn [step].
  - eapply fresh_sameCalls; [apply start_sameCalls|exact H].
  - eapply fresh_sameCalls; [apply timerFires_sameCalls|exact H].
  - eapply fresh_sameCalls; [apply tickSettles_sameCalls|exact H].
  - unfold callStop.
    pose proof (fresh_sameCalls _ _ (stopBegin_sameCalls w) H) as H1.
    destruct (stopBegin w) as [w1 [a|]]; fields;
      [now apply fresh_suspend|exact H1].
  - unfold callOnModuleDestroy.
    pose proof (fresh_sameCalls _ _ (stopBegin_sameCalls w) H) as H1.
    destruct (shutdownPromise (service w)) as [[|k]|] eqn:Hsp; cbv zeta;
      rewrite ?Hsp; fields; try exact H.
    destruct (stopBegin w) as [w1 [a|]]; fields; [|exact H1].
    apply (fresh_suspend None a w1 H1).
  - unfold sleepElapses. destruct (findWaiter j (waiters w)) as [y|]; [|exact H].
    pose proof (fresh_sameCalls _ _ (stopLoop_sameCalls (attempts y + 1) w) H) as H1.
    destruct (stopLoop (attempts y + 1) w) as [w1 [a|]]; unfold fresh in *; fields.
    + intros x Hx. unfold setAttempts in Hx. apply in_map_iff in Hx.
      destruct Hx as (z & <- & Hz). specialize (H1 z Hz).
      destruct (Nat.eqb_spec (invocation z) j); cbn [invocation]; lia.
    + unfold finishInvocation. fields. intros x Hx.
      unfold dropWaiter in Hx. apply filter_In in Hx. now apply H1.
Qed.

Lemma fresh_run (es : list Event) (w : World) : fresh w -> fresh (run w es).
Proof.
  revert w. induction es as [|e es IH]; intros w H; [exact H|].
  apply IH, fresh_step, H.
Qed.

Lemma fresh_init (interval : Z) (table : Pipeline.Store) :
  fresh (init interval table).
Proof. intros x []. Qed.

(** *** The wait loop *)

Lemma count_cons {A} (p : A -> bool) (x : A) (l : list A) :
  count p (x :: l) = ((if p x then 1 else 0) + count p l)%nat.
Proof. unfold count. cbn [filter]. destruct (p x); reflexivity. Qed.

Lemma isSleepOf_true (i : nat) (e : Event) :
  isSleepOf i e = true -> e = SleepElapses i.
Proof.
  destruct e; cbn [isSleepOf]; try discriminate.
  intros H. apply Nat.eqb_eq in H. now subst.
Qed.

(** The sleep of a waiting invocation ends: the loop goes round once more
    while the flag is up and fewer than [maxAttempts] sleeps are done. *)
Lemma sleep_continues (i : nat) (w : World) (x : Waiter) :
  findWaiter i (waiters w) = Some x ->
  isProcessing (service w) = true ->
  (attempts x + 1 < maxAttempts)%nat ->
  sleepElapses i w = withWaiters (setAttempts i (attempts x + 1) (waiters w)) w.
Proof.
  intros Hx Hp Ha. unfold sleepElapses, stopLoop. rewrite Hx, Hp.
  apply Nat.ltb_lt in Ha. now rewrite Ha.
Qed.

Lemma sleep_finishes (i : nat) (w : World) (x : Waiter) :
  findWaiter i (waiters w) = Some x ->
  isProcessing (service w) && (attempts x + 1 <? maxAttempts)%nat = false ->
  sleepElapses i w = finishInvocation x (attempts x + 1) (stopFinish w).
Proof.
  intros Hx Hl. unfold sleepElapses, stopLoop. now rewrite Hx, Hl.
Qed.

Lemma finishInvocation_returns (x : Waiter) (a c : nat) (w : World) :
  caller x = Some c ->
  exists rest,
    returned (finishInvocation x a w) = returned w ++ ret c a w :: rest.
Proof.
  intros Hc. unfold finishInvocation, callerReturn. fields. rewrite Hc.
  cbn [app]. eauto.
Qed.

Lemma hasReturned_ret (c a : nat) (w0 : World) (l rest : list Return) (w : World) :
  returned w = l ++ ret c a w0 :: rest -> hasReturned c w = true.
Proof.
  intros H. unfold hasReturned. rewrite H, existsb_app. cbn [existsb ret who].
  now rewrite Nat.eqb_refl, orb_true_r.
Qed.

(** However the events fall, an invocation in the wait loop has returned
    once its sleep has elapsed [maxAttempts] times in all. *)
Lemma stop_returns (i c : nat) (es : list Event) :
  forall (w : World) (x : Waiter),
    findWaiter i (waiters w) = Some x ->
    caller x = Some c ->
    (attempts x < maxAttempts)%nat ->
    (maxAttempts - attempts x <= count (isSleepOf i) es)%nat ->
    hasReturned c (run w es) = true.
Proof.
  unfold maxAttempts.
  induction es as [|e es IH]; intros w x Hx Hc Ha Hn.
  - change (count (isSleepOf i) []) with 0%nat in Hn. lia.
  - rewrite count_cons in Hn. cbn [run fold_left].
    destruct (isSleepOf i e) eqn:He.
    + apply isSleepOf_true in He. subst e. cbn [step].
      destruct (isProcessing (service w) && (attempts x + 1 <? maxAttempts)%nat)
        eqn:Hl.
      * apply andb_prop in Hl. destruct Hl as [Hp Hlt]. apply Nat.ltb_lt in Hlt.
        rewrite (sleep_continues i w x Hx Hp Hlt).
        eapply (IH _ {| invocation := i; caller := caller x;
                        attempts := attempts x + 1 |}).
        -- fields. now apply findWaiter_setAttempts_same.
        -- exact Hc.
        -- exact Hlt.
        -- cbn [attempts]. lia.
      * rewrite (sleep_finishes i w x Hx Hl).
        apply hasReturned_run.
        destruct (finishInvocation_returns x (attempts x + 1) c (stopFinish w) Hc)
          as [rest Hr].
        eapply hasReturned_ret, Hr.
    + eapply (IH _ x); try assumption.
      now apply step_keeps_waiter.
Qed.

(** While the tick stays in flight, the invocation stays in the loop until
    its sleep has elapsed [maxAttempts] times. *)
Lemma stuck_waits (i : nat) (es : list Event) :
  forall (w : World) (x : Waiter),
    findWaiter i (waiters w) = Some x ->
    isProcessing (service w) = true ->
    forallb (fun e => negb (isSettle e)) es = true ->
    (attempts x + count (isSleepOf i) es < maxAttempts)%nat ->
    isProcessing (service (run w es)) = true /\
    exists x',
      findWaiter i (waiters (run w es)) = Some x' /\
      caller x' = caller x /\
      attempts x' = (attempts x + count (isSleepOf i) es)%nat.
Proof.
  unfold maxAttempts.
  induction es as [|e es IH]; intros w x Hx Hp Hes Hn.
  - split; [exact Hp|]. exists x. change (count (isSleepOf i) []) with 0%nat.
    rewrite Nat.add_0_r. auto.
  - rewrite count_cons in *. cbn [run fold_left].
    cbn [forallb] in Hes. apply andb_prop in Hes. destruct Hes as [He Hes].
    apply negb_true_iff in He.
    pose proof (step_keeps_processing w e He Hp) as Hp'.
    destruct (isSleepOf i e) eqn:Hs.
    + apply isSleepOf_true in Hs. subst e. cbn [step] in *.
      assert (Hlt : (attempts x + 1 < 30)%nat) by lia.
      rewrite (sleep_continues i w x Hx Hp Hlt) in *.
      destruct (IH (withWaiters (setAttempts i (attempts x + 1) (waiters w)) w)
                  {| invocation := i; caller := caller x;
                     attempts := attempts x + 1 |}) as (H1 & x' & H2 & H3 & H4);
        try assumption.
      * fields. now apply findWaiter_setAttempts_same.
      * cbn [attempts]. lia.
      * split; [exact H1|]. exists x'. cbn [caller attempts] in *.
        repeat split; try assumption. lia.
    + destruct (IH (step w e) x) as (H1 & x' & H2 & H3 & H4); try assumption.
      * now apply step_keeps_waiter.
      * split; [exact H1|]. exists x'. repeat split; assumption.
Qed.

(** The last round of the loop under a stuck tick: the forced shutdown. *)
Lemma forced_return (i c : nat) (w : World) (x : Waiter) :
  findWaiter i (waiters w) = Some x ->
  caller x = Some c ->
  (attempts x + 1 = maxAttempts)%nat ->
  isProcessing (service w) = true ->
  logs (sleepElapses i w)
    = logs w ++ [{| level := WARN; line := ForcedShutdown |};
                 {| level := LOG; line := ServiceStopped |}] /\
  (exists rest,
     returned (sleepElapses i w)
     = returned w ++ {| who := c; sleptMs := 30000; stillProcessing := true |}
                     :: rest) /\
  isWaiting i (sleepElapses i w) = false.
Proof.
  intros Hx Hc Ha Hp.
  assert (Hl : isProcessing (service w) && (attempts x + 1 <? maxAttempts)%nat = false).
  { rewrite Ha, Nat.ltb_irrefl. apply andb_false_r. }
  rewrite (sleep_finishes i w x Hx Hl).
  split; [|split].
  - unfold finishInvocation, stopFinish. rewrite Hp. fields.
    now rewrite <- app_assoc.
  - destruct (finishInvocation_returns x (attempts x + 1) c (stopFinish w) Hc)
      as [rest Hr].
    exists rest. rewrite Hr. destruct (stopFinish_sameCalls w) as (_ & _ & -> & _).
    unfold ret, sleptFor. rewrite Ha.
    destruct (stopFinish_sameTicks w) as (-> & _). rewrite Hp. reflexivity.
  - unfold isWaiting, finishInvocation. fields.
    rewrite (findWaiter_invocation _ _ _ Hx).
    now rewrite findWaiter_dropWaiter_same.
Qed.

(** *** The calls, in closed form *)

Lemma callStop_notRunning (c : nat) (w : World) :
  isRunning (service w) = false ->
  callStop c w
  = withReturned (returned w ++ [ret c 0 w]) (say WARN NotRunning w).
Proof. intros H. unfold callStop. now rewrite stopBegin_stopped. Qed.

Lemma callStop_waits (c : nat) (w : World) :
  isRunning (service w) = true ->
  isProcessing (service w) = true ->
  waiters (callStop c w)
    = waiters w ++ [{| invocation := nextInvocation w; caller := Some c;
                       attempts := 0 |}] /\
  nextInvocation (callStop c w) = S (nextInvocation w) /\
  returned (callStop c w) = returned w /\
  awaiting (callStop c w) = awaiting w /\
  timer (service (callStop c w)) = false /\
  isRunning (service (callStop c w)) = false /\
  isProcessing (service (callStop c w)) = true /\
  logs (callStop c w)
    = logs w ++ [{| level := LOG; line := StoppingService |};
                 {| level := LOG; line := WaitingForUpdate |}].
Proof.
  intros Hr Hp. unfold callStop.
  destruct (stopBegin_running w Hr) as (Ht & Hr' & Hs & Hl).
  destruct (stopBegin_sameCalls w) as (Hw & Ha & Hret & Hn & _).
  destruct (stopBegin_sameTicks w) as (Hp' & _).
  rewrite Hp in Hs, Hl, Hp'.
  destruct (stopBegin w) as [w1 r]. fields. subst r. fields.
  rewrite Hw, Hn. repeat split; assumption.
Qed.

Lemma callStop_immediate (c : nat) (w : World) :
  isRunning (service w) = true ->
  isProcessing (service w) = false ->
  hasReturned c (callStop c w) = true /\
  timer (service (callStop c w)) = false /\
  isRunning (service (callStop c w)) = false.
Proof.
  intros Hr Hp. unfold callStop.
  destruct (stopBegin_running w Hr) as (Ht & Hr' & Hs & _).
  rewrite Hp in Hs.
  destruct (stopBegin w) as [w1 r]. fields. subst r. fields.
  split; [|split; assumption].
  unfold hasReturned. fields. rewrite existsb_app. cbn [existsb ret who].
  now rewrite Nat.eqb_refl, orb_true_r.
Qed.

End SchedulerFacts.

(** C1. Along every sequence of events from the initial state (calls of
    [start], timer firings, ticks settling, shutdown calls and their sleeps)
    at most one tick is in flight, and the in-progress flag is up exactly
    then.  While a tick is in flight a timer firing changes nothing but the
    log (a "skipping" warning: nothing is queued or retried) and the
    out-of-band tick of [start] does not begin either; when the tick settles,
    also by its load throwing, the flag is cleared and no tick begins by
    itself; and the next timer firing begins a tick again. *)
Theorem no_overlap :
  forall (interval : Z) (table : Pipeline.Store) (es : list Scheduler.Event),
    let w := Scheduler.run (Scheduler.init interval table) es in
    (Scheduler.inFlight w <= 1)%nat /\
    Scheduler.inFlight w
      = (if Scheduler.isProcessing (Scheduler.service w) then 1%nat else 0%nat) /\
    (Scheduler.isProcessing (Scheduler.service w) = true ->
     Scheduler.timer (Scheduler.service w) = true ->
     Scheduler.step w Scheduler.TimerFires
       = Scheduler.say WARN SkippingIteration w) /\
    (Scheduler.isProcessing (Scheduler.service w) = true ->
     Scheduler.begun (Scheduler.step w Scheduler.CallStart) = Scheduler.begun w /\
     Scheduler.inFlight (Scheduler.step w Scheduler.CallStart) = Scheduler.inFlight w) /\
    (forall env,
       let w' := Scheduler.step w (Scheduler.TickSettles env) in
       Scheduler.isProcessing (Scheduler.service w') = false /\
       Scheduler.inFlight w' = 0%nat /\
       Scheduler.begun w' = Scheduler.begun w) /\
    (forall env,
       Scheduler.timer (Scheduler.service w) = true ->
       let w' := Scheduler.step (Scheduler.step w (Scheduler.TickSettles env))
                   Scheduler.TimerFires in
       Scheduler.begun w' = S (Scheduler.begun w) /\
       Scheduler.inFlight w' = 1%nat /\
       Scheduler.isProcessing (Scheduler.service w') = true).
Proof.
  intros interval table es w.
  assert (G : guarded w) by apply guarded_run, guarded_init.
  unfold guarded in G.
  assert (S : forall env,
             Scheduler.isProcessing
               (Scheduler.service (Scheduler.step w (Scheduler.TickSettles env))) = false /\
             Scheduler.inFlight (Scheduler.step w (Scheduler.TickSettles env)) = 0%nat /\
             Scheduler.begun (Scheduler.step w (Scheduler.TickSettles env)) = Scheduler.begun w /\
             Scheduler.timer
               (Scheduler.service (Scheduler.step w (Scheduler.TickSettles env)))
             = Scheduler.timer (Scheduler.service w)).
  { intros env. cbn [Scheduler.step]. unfold Scheduler.tickSettles.
    destruct (Scheduler.inFlight w) as [|n] eqn:Hn.
    - destruct (Scheduler.isProcessing (Scheduler.service w)); [discriminate|]. auto.
    - destruct (Scheduler.isProcessing (Scheduler.service w)); [|discriminate].
      injection G as ->. repeat split. }
  split; [|split; [|split; [|split; [|split]]]].
  - rewrite G. destruct (Scheduler.isProcessing (Scheduler.service w)); lia.
  - exact G.
  - intros Hp Ht. cbn [Scheduler.step]. unfold Scheduler.timerFires.
    now rewrite Ht, Hp.
  - intros Hp. cbn [Scheduler.step].
    unfold Scheduler.start, Scheduler.beginTick.
    destruct (Scheduler.isRunning (Scheduler.service w)); [split; reflexivity|].
    cbn. rewrite Hp. split; reflexivity.
  - intros env w'. destruct (S env) as (H1 & H2 & H3 & _). auto.
  - intros env Ht w'. destruct (S env) as (H1 & H2 & H3 & H4).
    subst w'. cbn [Scheduler.step] in *.
    unfold Scheduler.timerFires, Scheduler.beginTick.
    rewrite H4, Ht, H1. cbn. rewrite H2, H3. auto.
Qed.

(** The started service: a firing during the initial tick is skipped, and
    after the tick's load has thrown the next firing begins the second tick. *)
Lemma no_overlap_witness :
  Scheduler.step Scenario.started Scheduler.TimerFires
    = Scheduler.say WARN SkippingIteration Scenario.started /\
  Scheduler.begun
    (Scheduler.step (Scheduler.step Scenario.started (Scheduler.TickSettles Scenario.loadFails))
       Scheduler.TimerFires) = 2%nat.
Proof.
  destruct (no_overlap 5 Scenario.table [Scheduler.CallStart])
    as (_ & _ & Hskip & _ & _ & Hnext).
  split.
  - apply Hskip; reflexivity.
  - apply (Hnext Scenario.loadFails eq_refl).
Defined.

Section SharedShutdown.

Import Scheduler.

Variables (i c1 c2 : nat).

Lemma idle_step (w : World) (e : Event) :
  fromEnvironment e = true ->
  waiters w = [] ->
  waiters (step w e) = [] /\ returned (step w e) = returned w.
Proof.
  intros He Hw. destruct e as [| |env|c|c|j]; cbn [step]; try discriminate.
  - destruct (timerFires_sameCalls w) as (-> & _ & -> & _). auto.
  - destruct (tickSettles_sameCalls env w) as (-> & _ & -> & _). auto.
  - unfold sleepElapses. rewrite Hw. cbn [findWaiter]. auto.
Qed.

Lemma idle_run (es : list Event) (w : World) :
  forallb fromEnvironment es = true ->
  waiters w = [] ->
  waiters (run w es) = [] /\ returned (run w es) = returned w.
Proof.
  revert w. induction es as [|e es IH]; intros w Hes Hw; [auto|].
  cbn [forallb] in Hes. apply andb_prop in Hes. destruct Hes as [He Hes].
  destruct (idle_step w e He Hw) as [H1 H2].
  destruct (IH (step w e) Hes H1) as [H3 H4].
  cbn [run fold_left]. unfold run in *. split; congruence.
Qed.

(** The callers sharing the promise stay suspended together and return
    together, with the same outcome. *)
Lemma pendingPair_run (es : list Event) :
  forall (w : World) (a : nat),
    (a < maxAttempts)%nat ->
    pendingPair i c1 c2 a w ->
    forallb fromEnvironment es = true ->
    (returned (run w es) = returned w /\
     pendingPair i c1 c2 (a + count (isSleepOf i) es) (run w es) /\
     (a + count (isSleepOf i) es < maxAttempts)%nat) \/
    (exists k b,
       returned (run w es)
       = returned w ++ [{| who := c1; sleptMs := sleptFor k; stillProcessing := b |};
                        {| who := c2; sleptMs := sleptFor k; stillProcessing := b |}] /\
       waiters (run w es) = []).
Proof.
  unfold maxAttempts.
  induction es as [|e es IH]; intros w a Ha [Hw Haw] Hes.
  - left. change (count (isSleepOf i) []) with 0%nat. rewrite Nat.add_0_r.
    repeat split; assumption.
  - cbn [forallb] in Hes. apply andb_prop in Hes. destruct Hes as [He Hes].
    rewrite count_cons. cbn [run fold_left].
    assert (Hsame : sameCalls w (step w e) ->
              (returned (fold_left step es (step w e)) = returned w /\
               pendingPair i c1 c2 (a + (0 + count (isSleepOf i) es))
                 (fold_left step es (step w e)) /\
               (a + (0 + count (isSleepOf i) es) < 30)%nat) \/
              (exists k b,
                  returned (fold_left step es (step w e))
                  = returned w ++ [{| who := c1; sleptMs := sleptFor k; stillProcessing := b |};
                                   {| who := c2; sleptMs := sleptFor k; stillProcessing := b |}] /\
                  waiters (fold_left step es (step w e)) = [])).
    { intros (H1 & H2 & H3 & _).
      destruct (IH (step w e) a Ha) as [(R & P & L)|(k & b & R & W)];
        [split; congruence|exact Hes| |].
      - left. rewrite <- H3. auto.
      - right. exists k, b. rewrite <- H3. auto. }
    destruct e as [| |env|c|c|j]; cbn [fromEnvironment] in He; try discriminate.
    + apply Hsame, timerFires_sameCalls.
    + apply Hsame, tickSettles_sameCalls.
    + cbn [isSleepOf]. destruct (Nat.eqb_spec j i) as [->|Hji].
      * clear Hsame. cbn [step].
        assert (Hx : findWaiter i (waiters w)
                     = Some {| invocation := i; caller := None; attempts := a |}).
        { rewrite Hw. cbn [findWaiter invocation]. now rewrite Nat.eqb_refl. }
        destruct (isProcessing (service w) && (a + 1 <? maxAttempts)%nat) eqn:Hl.
        -- apply andb_prop in Hl. destruct Hl as [Hp Hlt]. apply Nat.ltb_lt in Hlt.
           rewrite (sleep_continues i w _ Hx Hp Hlt). cbn [attempts].
           destruct (IH (withWaiters (setAttempts i (a + 1) (waiters w)) w) (a + 1)%nat)
             as [(R & P & L)|(k & b & R & W)]; [exact Hlt| |exact Hes| |].
           ++ split; fields; [|exact Haw]. rewrite Hw.
              cbn [setAttempts map invocation caller]. now rewrite Nat.eqb_refl.
           ++ left. unfold run in *. fields.
              replace (a + (1 + count (isSleepOf i) es))%nat
                with (a + 1 + count (isSleepOf i) es)%nat by lia.
              auto.
           ++ right. exists k, b. unfold run in *. fields. auto.
        -- rewrite (sleep_finishes i w _ Hx Hl). cbn [attempts]. right.
           exists (a + 1)%nat, (isProcessing (service (stopFinish w))).
           destruct (stopFinish_sameCalls w) as (Hw' & Haw' & Hr' & _).
           destruct (idle_run es (finishInvocation
                       {| invocation := i; caller := None; attempts := a |}
                       (a + 1) (stopFinish w)) Hes) as [W R].
           { unfold finishInvocation. fields. rewrite Hw', Hw.
             cbn [dropWaiter filter invocation]. now rewrite Nat.eqb_refl. }
           unfold run in *. rewrite R, W. split; [|reflexivity].
           unfold finishInvocation, callerReturn, awaiterReturns. fields.
           rewrite Haw', Haw, Hr'. cbn [filter snd fst map app caller].
           now rewrite Nat.eqb_refl.
      * apply Hsame. cbn [step]. unfold sleepElapses.
        rewrite Hw. cbn [findWaiter invocation].
        destruct (Nat.eqb_spec i j); [congruence|]. apply sameCalls_refl.
Qed.

End SharedShutdown.

Section DestroyCalls.

Import Scheduler.

Lemma destroy_first (c : nat) (w : World) :
  isRunning (service w) = true ->
  isProcessing (service w) = true ->
  shutdownPromise (service w) = None ->
  waiters (callOnModuleDestroy c w)
    = waiters w ++ [{| invocation := nextInvocation w; caller := None;
                       attempts := 0 |}] /\
  awaiting (callOnModuleDestroy c w) = awaiting w ++ [(c, nextInvocation w)] /\
  returned (callOnModuleDestroy c w) = returned w /\
  shutdownPromise (service (callOnModuleDestroy c w))
    = Some (Pending (nextInvocation w)).
Proof.
  intros Hr Hp Hsp. unfold callOnModuleDestroy. rewrite Hsp.
  destruct (stopBegin_running w Hr) as (_ & _ & Hs & _).
  destruct (stopBegin_sameCalls w) as (Hw & Ha & Hret & Hn & _).
  rewrite Hp in Hs.
  destruct (stopBegin w) as [w1 r]. fields. subst r. fields.
  rewrite Hw, Ha, Hn. repeat split; assumption.
Qed.

Lemma destroy_joins (c i : nat) (w : World) :
  shutdownPromise (service w) = Some (Pending i) ->
  callOnModuleDestroy c w = withAwaiting (awaiting w ++ [(c, i)]) w.
Proof.
  intros Hsp. unfold callOnModuleDestroy. rewrite Hsp. cbv zeta beta iota.
  rewrite Hsp. reflexivity.
Qed.

End DestroyCalls.

(** C8 as the claim states it fails for [stop()]: with the first tick in
    flight, the second of two [stop()] calls has returned while the first is
    still in its wait loop and the tick still in progress. *)
Lemma idempotent_stop_counterexample :
  let w := Scheduler.run Scenario.started [Scheduler.CallStop 1; Scheduler.CallStop 2] in
  Scheduler.hasReturned 2 w = true /\
  Scheduler.hasReturned 1 w = false /\
  Scheduler.isWaiting 0 w = true /\
  Scheduler.isProcessing (Scheduler.service w) = true.
Proof. vm_compute. repeat split. Qed.

(** C8, amended. While the service is running with a tick in flight: of two
    [stop()] calls only the first enters the wait loop, so exactly one wait
    sequence occurs; the second logs the "not running" warning and returns at
    once, without waiting.  Of two [onModuleDestroy()] calls the first starts
    the one [stop()] and keeps its promise, the second awaits that same
    promise: under any timer and collaborator events both are suspended
    together and both return at the same step with the same outcome, at the
    latest when the sleep has elapsed 30 times. *)
Theorem shutdown_callers :
  forall (w : Scheduler.World) (c1 c2 : nat),
    Scheduler.isRunning (Scheduler.service w) = true ->
    Scheduler.isProcessing (Scheduler.service w) = true ->
    (let w2 := Scheduler.run w [Scheduler.CallStop c1; Scheduler.CallStop c2] in
     Scheduler.waiters w2
       = Scheduler.waiters w
         ++ [{| Scheduler.invocation := Scheduler.nextInvocation w;
                Scheduler.caller := Some c1; Scheduler.attempts := 0 |}] /\
     Scheduler.returned w2
       = Scheduler.returned w
         ++ [{| Scheduler.who := c2; Scheduler.sleptMs := 0;
                Scheduler.stillProcessing := true |}] /\
     Scheduler.logs w2
       = Scheduler.logs w ++ [{| level := LOG; line := StoppingService |};
                              {| level := LOG; line := WaitingForUpdate |};
                              {| level := WARN; line := NotRunning |}]) /\
    (Scheduler.shutdownPromise (Scheduler.service w) = None ->
     Scheduler.waiters w = [] ->
     Scheduler.awaiting w = [] ->
     let i := Scheduler.nextInvocation w in
     let w2 := Scheduler.run w [Scheduler.CallOnModuleDestroy c1;
                                Scheduler.CallOnModuleDestroy c2] in
     Scheduler.waiters w2
       = [{| Scheduler.invocation := i; Scheduler.caller := None;
             Scheduler.attempts := 0 |}] /\
     Scheduler.returned w2 = Scheduler.returned w /\
     forall es,
       forallb Scheduler.fromEnvironment es = true ->
       (Scheduler.returned (Scheduler.run w2 es) = Scheduler.returned w /\
        (count (Scheduler.isSleepOf i) es < 30)%nat) \/
       (exists k b,
          Scheduler.returned (Scheduler.run w2 es)
          = Scheduler.returned w
            ++ [{| Scheduler.who := c1; Scheduler.sleptMs := Scheduler.sleptFor k;
                   Scheduler.stillProcessing := b |};
                {| Scheduler.who := c2; Scheduler.sleptMs := Scheduler.sleptFor k;
                   Scheduler.stillProcessing := b |}])).
Proof.
  intros w c1 c2 Hr Hp. split.
  - cbn [Scheduler.run fold_left Scheduler.step].
    destruct (callStop_waits c1 w Hr Hp) as (Hw & _ & Hret & _ & _ & Hr1 & Hp1 & Hl).
    rewrite (callStop_notRunning c2 _ Hr1). fields.
    rewrite Hw, Hret, Hl, <- app_assoc. unfold Scheduler.ret. rewrite Hp1.
    repeat split.
  - intros Hsp Hw Haw i w2.
    destruct (destroy_first c1 w Hr Hp Hsp) as (Hw1 & Haw1 & Hret1 & Hsp1).
    assert (E : w2 = Scheduler.withAwaiting
                       (Scheduler.awaiting (Scheduler.callOnModuleDestroy c1 w) ++ [(c2, i)])
                       (Scheduler.callOnModuleDestroy c1 w)).
    { subst w2. cbn [Scheduler.run fold_left Scheduler.step].
      now rewrite (destroy_joins c2 i _ Hsp1). }
    rewrite Hw in Hw1. rewrite Haw in Haw1. cbn [app] in Hw1, Haw1.
    assert (P : pendingPair i c1 c2 0 w2).
    { rewrite E. split; fields; [exact Hw1|now rewrite Haw1]. }
    assert (R : Scheduler.returned w2 = Scheduler.returned w).
    { rewrite E. fields. exact Hret1. }
    split; [apply P|]. split; [exact R|].
    intros es Hes.
    destruct (pendingPair_run i c1 c2 es w2 0) as [(R' & _ & L)|(k & b & R' & _)];
      try assumption.
    + unfold Scheduler.maxAttempts. lia.
    + left. rewrite R', R. split; [reflexivity|exact L].
    + right. exists k, b. now rewrite R', R.
Qed.

(** The started service, its first tick stuck: two [stop()] calls, and two
    [onModuleDestroy()] calls followed by thirty sleeps. *)
Lemma shutdown_callers_witness :
  Scheduler.returned
    (Scheduler.run Scenario.started [Scheduler.CallStop 1; Scheduler.CallStop 2])
  = [{| Scheduler.who := 2; Scheduler.sleptMs := 0; Scheduler.stillProcessing := true |}] /\
  exists k b,
    Scheduler.returned
      (Scheduler.run
         (Scheduler.run Scenario.started [Scheduler.CallOnModuleDestroy 1;
                                          Scheduler.CallOnModuleDestroy 2])
         (repeat (Scheduler.SleepElapses 0) 30))
    = [{| Scheduler.who := 1; Scheduler.sleptMs := Scheduler.sleptFor k;
          Scheduler.stillProcessing := b |};
       {| Scheduler.who := 2; Scheduler.sleptMs := Scheduler.sleptFor k;
          Scheduler.stillProcessing := b |}].
Proof.
  destruct (shutdown_callers Scenario.started 1 2 eq_refl eq_refl) as [Hstop Hdestroy].
  split.
  - apply Hstop.
  - destruct (Hdestroy eq_refl eq_refl eq_refl) as (_ & _ & Hes).
    destruct (Hes (repeat (Scheduler.SleepElapses 0) 30) eq_refl) as [[_ L]|H].
    + exfalso. vm_compute in L. apply (Nat.lt_irrefl 30). exact L.
    + exact H.
Defined.

(** * Further properties of the code *)

(** ** sendWithRetry, attempt by attempt *)

Section RetryShape.

Import KafkaProducerService.

Variable broker : Broker.
Variable key : string.
Variable value : Message.

Let trace (attempt : nat) := fst (sendWithRetry broker key value attempt).
Let sends (attempt : nat) := count isSend (trace attempt).

Lemma sends_in_order (k attempt : nat) :
  (maxRetries - attempt <= k)%nat ->
  filter isSend (trace attempt)
  = map (fun n => BrokerSend key value n (accepted broker n))
        (seq attempt (sends attempt)).
Proof.
  subst sends trace. cbv beta. unfold maxRetries, count, accepted.
  revert attempt. induction k as [|k IH]; intros attempt Hk;
    rewrite (sendWithRetry_body broker key value attempt); unfold maxRetries;
    destruct (broker attempt) as [msg|] eqn:Hb;
    try (cbn [fst filter isSend List.length seq map]; now rewrite Hb);
    destruct (Nat.ltb_spec attempt 3) as [Hlt|Hge]; try lia;
    try (cbn [fst filter isSend List.length seq map logged]; now rewrite Hb).
  cbn [fst filter isSend logged app List.length seq map]. rewrite Hb.
  f_equal. replace (S attempt) with (attempt + 1)%nat by lia. apply IH. lia.
Qed.

Lemma failures_before_last (k attempt : nat) :
  (maxRetries - attempt <= k)%nat ->
  forall n, (attempt <= n < attempt + sends attempt - 1)%nat ->
            accepted broker n = false.
Proof.
  subst sends trace. cbv beta. unfold maxRetries, count, accepted.
  revert attempt. induction k as [|k IH]; intros attempt Hk n;
    rewrite (sendWithRetry_body broker key value attempt); unfold maxRetries;
    destruct (broker attempt) as [msg|] eqn:Hb;
    try (cbn [fst filter isSend List.length]; lia);
    destruct (Nat.ltb_spec attempt 3) as [Hlt|Hge]; try lia;
    try (cbn [fst filter isSend List.length logged]; lia).
  cbn [fst filter isSend logged app List.length]. intros Hn.
  destruct (Nat.eq_dec n attempt) as [->|Hne]; [now rewrite Hb|].
  apply (IH (attempt + 1)%nat); lia.
Qed.

Lemma outcome_by_last (k attempt : nat) :
  (maxRetries - attempt <= k)%nat ->
  (attempt <= maxRetries)%nat ->
  match snd (sendWithRetry broker key value attempt) with
  | Fulfilled _ => accepted broker (attempt + sends attempt - 1) = true
  | Rejected e =>
      (attempt + sends attempt - 1)%nat = maxRetries /\
      exists msg, broker maxRetries = Some msg /\
        e = ("Failed to send message after " ++ showNat maxRetries
             ++ " attempts: " ++ msg)%string
  end.
Proof.
  subst sends trace. cbv beta. unfold maxRetries, count, accepted.
  revert attempt. induction k as [|k IH]; intros attempt Hk Hle;
    rewrite (sendWithRetry_body broker key value attempt); unfold maxRetries;
    destruct (broker attempt) as [msg|] eqn:Hb;
    try (cbn [fst snd filter isSend List.length];
         replace (attempt + 1 - 1)%nat with attempt by lia; now rewrite Hb);
    destruct (Nat.ltb_spec attempt 3) as [Hlt|Hge]; try lia.
  - cbn [fst snd filter isSend List.length logged].
    assert (attempt = 3%nat) by lia. subst attempt.
    split; [reflexivity|]. exists msg. split; [exact Hb|reflexivity].
  - cbn [fst snd filter isSend logged app List.length].
    specialize (IH (attempt + 1)%nat ltac:(lia) ltac:(lia)).
    pose proof (sends_positive broker key value (attempt + 1)) as Hpos.
    unfold count in Hpos.
    replace (attempt + S (List.length (filter isSend
               (fst (sendWithRetry broker key value (attempt + 1))))) - 1)%nat
      with (attempt + 1 + List.length (filter isSend
               (fst (sendWithRetry broker key value (attempt + 1)))) - 1)%nat by lia.
    exact IH.
  - cbn [fst snd filter isSend List.length logged].
    assert (attempt = 3%nat) by lia. subst attempt.
    split; [reflexivity|]. exists msg. split; [exact Hb|reflexivity].
Qed.

Lemma error_lines (k attempt : nat) :
  (maxRetries - attempt <= k)%nat ->
  forall n msg,
    In (logged ERROR (ErrorSending n maxRetries msg)) (trace attempt) <->
    (attempt <= n < attempt + sends attempt)%nat /\ broker n = Some msg.
Proof.
  subst sends trace. cbv beta. unfold maxRetries, count.
  revert attempt. induction k as [|k IH]; intros attempt Hk n msg;
    rewrite (sendWithRetry_body broker key value attempt); unfold maxRetries;
    destruct (broker attempt) as [m|] eqn:Hb.
  - destruct (Nat.ltb_spec attempt 3) as [Hlt|Hge]; [lia|].
    cbn [fst filter isSend List.length logged In]. split.
    + intros [H|[H|[]]]; [discriminate|]. injection H as <- <-.
      split; [lia|exact Hb].
    + intros [Hn Hm]. assert (n = attempt) by lia. subst n.
      right. left. congruence.
  - cbn [fst filter isSend List.length In]. split.
    + intros [H|[]]. discriminate.
    + intros [Hn Hm]. assert (n = attempt) by lia. subst n. congruence.
  - destruct (Nat.ltb_spec attempt 3) as [Hlt|Hge].
    + cbn [fst filter isSend logged app List.length In].
      specialize (IH (attempt + 1)%nat ltac:(lia) n msg). split.
      * intros [H|[H|[H|[H|H]]]]; try discriminate.
        -- injection H as <- <-. split; [lia|exact Hb].
        -- apply IH in H. destruct H as [Hn Hm]. split; [lia|exact Hm].
      * intros [Hn Hm]. destruct (Nat.eq_dec n attempt) as [->|Hne].
        -- right. left. congruence.
        -- do 4 right. apply IH. split; [lia|exact Hm].
    + cbn [fst filter isSend List.length logged In]. split.
      * intros [H|[H|[]]]; [discriminate|]. injection H as <- <-.
        split; [lia|exact Hb].
      * intros [Hn Hm]. assert (n = attempt) by lia. subst n.
        right. left. congruence.
  - cbn [fst filter isSend List.length In]. split.
    + intros [H|[]]. discriminate.
    + intros [Hn Hm]. assert (n = attempt) by lia. subst n. congruence.
Qed.

End RetryShape.

(** X1. Whatever the broker answers, [sendWithRetry] sends attempts
    1, 2, ..., s in this order with [1 <= s <= 3], always with the same key
    and payload; every attempt before the last was rejected; the call
    resolves exactly when the last attempt was accepted, so an accepted send
    is never followed by another send. *)
Theorem retry_stops_at_first_acceptance :
  forall (broker : KafkaProducerService.Broker) (key : string) (value : Message),
    let r := KafkaProducerService.sendWithRetry broker key value 1 in
    let s := count isSend (fst r) in
    (1 <= s <= 3)%nat /\
    filter isSend (fst r)
      = map (fun n => BrokerSend key value n (accepted broker n)) (seq 1 s) /\
    (forall n, (1 <= n < s)%nat -> accepted broker n = false) /\
    (snd r = Fulfilled tt <-> accepted broker s = true) /\
    (forall k v n, In (BrokerSend k v n true) (fst r) -> k = key /\ v = value /\ n = s).
Proof.
  intros broker key value r s.
  assert (Hbound : (3 - 1 <= 3)%nat) by lia.
  pose proof (sends_positive broker key value 1) as Hpos.
  pose proof (sends_ceiling broker key value 3 1 Hbound) as Hceil.
  pose proof (sends_in_order broker key value 3 1 Hbound) as Hshape.
  pose proof (failures_before_last broker key value 3 1 Hbound) as Hfail.
  pose proof (outcome_by_last broker key value 3 1 Hbound) as Hlast.
  unfold KafkaProducerService.maxRetries in *. fold r in Hpos, Hceil, Hshape, Hfail, Hlast.
  fold s in Hpos, Hceil, Hshape, Hfail, Hlast.
  replace (1 + s - 1)%nat with s in * by lia.
  specialize (Hlast ltac:(lia)).
  split; [lia|]. split; [exact Hshape|]. split; [|split].
  - intros n Hn. apply Hfail. lia.
  - destruct (snd r) as [[]|e].
    + split; auto.
    + destruct Hlast as (Hs & msg & Hm & _). split; [discriminate|].
      unfold accepted. rewrite Hs, Hm. discriminate.
  - intros k v n Hin.
    assert (Hf : In (BrokerSend k v n true) (filter isSend (fst r))).
    { apply filter_In. split; [exact Hin|reflexivity]. }
    rewrite Hshape in Hf. apply in_map_iff in Hf.
    destruct Hf as (m & Hm & Hseq). injection Hm as -> -> -> Hacc.
    apply in_seq in Hseq. repeat split.
    destruct (Nat.eq_dec n s) as [|Hne]; [assumption|].
    rewrite Hfail in Hacc by lia. discriminate.
Qed.

(** A broker that accepts the second attempt only. *)
Lemma retry_stops_at_first_acceptance_witness :
  let broker := fun n : nat => if (n =? 2)%nat then None else Some "busy" in
  let value := {| tokenId := "A"; msgSymbol := "ETH"; oldPrice := num 1;
                  newPrice := num 2; timestamp := 0 |} in
  accepted broker 1 = false /\
  forall k v n,
    In (BrokerSend k v n true)
       (fst (KafkaProducerService.sendWithRetry broker "A" value 1)) ->
    n = 2%nat.
Proof.
  intros broker value.
  destruct (retry_stops_at_first_acceptance broker "A" value) as (_ & _ & Hf & _ & Hl).
  split.
  - apply Hf. vm_compute. split; apply le_n.
  - intros k v n Hin. apply (Hl k v n Hin).
Defined.

(** X2. The backoff of one publish is decided by the number [s] of sends:
    it sleeps [1000 * (2 ^ (s - 1) - 1)] ms in all, never more than 3000 ms. *)
Theorem backoff_total :
  forall (broker : KafkaProducerService.Broker) (key : string) (value : Message),
    let r := KafkaProducerService.sendWithRetry broker key value 1 in
    let s := count isSend (fst r) in
    totalWait (fst r) = (1000 * (2 ^ (Z.of_nat s - 1) - 1))%Z /\
    (0 <= totalWait (fst r) <= 3000)%Z.
Proof.
  intros broker key value r s.
  assert (Hbound : (3 - 1 <= 3)%nat) by lia.
  pose proof (sends_positive broker key value 1) as Hpos.
  pose proof (sends_ceiling broker key value 3 1 Hbound) as Hceil.
  pose proof (sleeps_schedule broker key value 3 1 Hbound) as Hsl.
  unfold KafkaProducerService.maxRetries in *. fold r in Hpos, Hceil, Hsl.
  fold s in Hpos, Hceil, Hsl.
  unfold totalWait. rewrite Hsl.
  destruct s as [|[|[|[|n]]]]; try lia; vm_compute; repeat split; congruence.
Qed.

(** X3. Every rejected attempt, and nothing else, is logged as an error with
    its attempt number, the ceiling 3 and the broker's message. *)
Theorem failed_attempts_logged :
  forall (broker : KafkaProducerService.Broker) (key : string) (value : Message)
         (n : nat) (msg : string),
    let r := KafkaProducerService.sendWithRetry broker key value 1 in
    In (logged ERROR (ErrorSending n 3 msg)) (fst r) <->
    (1 <= n <= count isSend (fst r))%nat /\ broker n = Some msg.
Proof.
  intros broker key value n msg r.
  pose proof (error_lines broker key value 3 1 ltac:(unfold KafkaProducerService.maxRetries; lia) n msg) as H.
  unfold KafkaProducerService.maxRetries in H. fold r in H.
  rewrite H. split; intros [Hn Hm]; (split; [lia|exact Hm]).
Qed.

(** ** The publish call and the items of a tick *)

Section PublishShape.

Import KafkaProducerService.

Variable connected : bool.
Variable parse : Message -> option Error.
Variable broker : Broker.
Variable message : Message.

Let pub := sendPriceUpdateMessage connected parse broker message.

Lemma sendWithRetry_client (key : string) (value : Message) (k attempt : nat) :
  (maxRetries - attempt <= k)%nat ->
  forall e, In e (fst (sendWithRetry broker key value attempt)) ->
            isClientEffect e = true.
Proof.
  revert attempt. induction k as [|k IH]; intros attempt Hk e;
    rewrite sendWithRetry_body;
    destruct (broker attempt) as [msg|];
    try (cbn [fst]; intros [<-|[]]; reflexivity);
    destruct (Nat.ltb_spec attempt maxRetries) as [Hlt|Hge];
    try (cbn [fst]; intros [<-|[<-|[]]]; reflexivity);
    try lia.
  cbn [fst app]. intros [<-|[<-|[<-|[<-|Hin]]]]; try reflexivity.
  apply (IH (attempt + 1)%nat); [lia|exact Hin].
Qed.

(** [sendWithRetry] itself never logs the success line. *)
Lemma sendWithRetry_quiet (key : string) (value m : Message) (k attempt : nat) :
  (maxRetries - attempt <= k)%nat ->
  ~ In (logged LOG (SentMessage m)) (fst (sendWithRetry broker key value attempt)).
Proof.
  revert attempt. induction k as [|k IH]; intros attempt Hk;
    rewrite sendWithRetry_body;
    destruct (broker attempt) as [msg|];
    try (cbn [fst]; intros [H|[]]; discriminate);
    destruct (Nat.ltb_spec attempt maxRetries) as [Hlt|Hge];
    try (cbn [fst]; intros [H|[H|[]]]; discriminate);
    try lia.
  cbn [fst app]. intros [H|[H|[H|[H|Hin]]]]; try discriminate.
  apply (IH (attempt + 1)%nat); [lia|exact Hin].
Qed.

Lemma sendWithRetry_send (key : string) (value : Message) :
  forall k v a ok,
    In (BrokerSend k v a ok) (fst (sendWithRetry broker key value 1)) ->
    k = key /\ v = value /\ ok = accepted broker a.
Proof.
  intros k v a ok Hin.
  assert (Hf : In (BrokerSend k v a ok)
                  (filter isSend (fst (sendWithRetry broker key value 1)))).
  { apply filter_In. split; [exact Hin|reflexivity]. }
  rewrite (sends_in_order broker key value 3 1) in Hf
    by (unfold maxRetries; lia).
  apply in_map_iff in Hf. destruct Hf as (n & Hn & _).
  injection Hn as -> -> -> ->. repeat split.
Qed.

Lemma totalWait_app (l1 l2 : list Effect) :
  totalWait (l1 ++ l2) = (totalWait l1 + totalWait l2)%Z.
Proof.
  unfold totalWait, sleeps. rewrite flat_map_app.
  induction (flat_map sleepOf l1) as [|z l IH]; cbn [app fold_right]; lia.
Qed.

Lemma sendWithRetry_wait (key : string) (value : Message) :
  (0 <= totalWait (fst (sendWithRetry broker key value 1)) <= 3000)%Z.
Proof.
  pose proof (sends_positive broker key value 1) as Hpos.
  pose proof (sends_ceiling broker key value 3 1) as Hceil.
  pose proof (sleeps_schedule broker key value 3 1) as Hsl.
  unfold maxRetries in *. specialize (Hceil ltac:(lia)). specialize (Hsl ltac:(lia)).
  unfold totalWait. rewrite Hsl.
  destruct (count isSend (fst (sendWithRetry broker key value 1)))
    as [|[|[|[|n]]]]; try lia; vm_compute; split; congruence.
Qed.

Lemma publish_shape :
  (connected = false /\ pub = ([], Rejected "Kafka producer is not connected")) \/
  (exists e, connected = true /\ parse message = Some e /\ pub = ([], Rejected e)) \/
  (connected = true /\ parse message = None /\
   snd (sendWithRetry broker (tokenId message) message 1) = Fulfilled tt /\
   pub = (fst (sendWithRetry broker (tokenId message) message 1)
            ++ [logged LOG (SentMessage message)], Fulfilled tt)) \/
  (exists e, connected = true /\ parse message = None /\
   snd (sendWithRetry broker (tokenId message) message 1) = Rejected e /\
   pub = (fst (sendWithRetry broker (tokenId message) message 1), Rejected e)).
Proof.
  unfold pub, sendPriceUpdateMessage.
  destruct connected; cbn [negb]; [|left; split; reflexivity].
  destruct (parse message) as [e|]; [right; left; exists e; repeat split|].
  destruct (snd (sendWithRetry broker (tokenId message) message 1)) as [[]|e] eqn:E.
  - right; right; left. repeat split.
  - right; right; right. exists e. repeat split.
Qed.

Lemma publish_client : forall e, In e (fst pub) -> isClientEffect e = true.
Proof.
  intros e.
  destruct publish_shape as [[_ ->]|[(x & _ & _ & ->)|[(_ & _ & _ & ->)|(x & _ & _ & _ & ->)]]];
    cbn [fst]; try (intros []).
  - intros Hin. apply in_app_or in Hin. destruct Hin as [Hin|[<-|[]]]; [|reflexivity].
    apply (sendWithRetry_client (tokenId message) message 3 1); [unfold maxRetries; lia|exact Hin].
  - apply (sendWithRetry_client (tokenId message) message 3 1). unfold maxRetries; lia.
Qed.

Lemma publish_send :
  forall k v a ok,
    In (BrokerSend k v a ok) (fst pub) ->
    connected = true /\ parse message = None /\
    k = tokenId message /\ v = message /\ ok = accepted broker a.
Proof.
  intros k v a ok.
  destruct publish_shape as [[_ ->]|[(x & _ & _ & ->)|[(Hc & Hp & _ & ->)|(x & Hc & Hp & _ & ->)]]];
    cbn [fst]; try (intros []).
  - intros Hin. apply in_app_or in Hin. destruct Hin as [Hin|[Hin|[]]]; [|discriminate].
    destruct (sendWithRetry_send _ _ _ _ _ _ Hin) as (-> & -> & ->). repeat split; assumption.
  - intros Hin.
    destruct (sendWithRetry_send _ _ _ _ _ _ Hin) as (-> & -> & ->). repeat split; assumption.
Qed.

Lemma publish_sends_ceiling : (count isSend (fst pub) <= 3)%nat.
Proof.
  pose proof (sends_ceiling broker (tokenId message) message 3 1) as Hceil.
  unfold maxRetries in Hceil. specialize (Hceil ltac:(lia)).
  destruct publish_shape as [[_ ->]|[(x & _ & _ & ->)|[(_ & _ & _ & ->)|(x & _ & _ & _ & ->)]]];
    cbn [fst]; rewrite ?count_app; cbn; lia.
Qed.

Lemma publish_wait : (0 <= totalWait (fst pub) <= 3000)%Z.
Proof.
  pose proof (sendWithRetry_wait (tokenId message) message) as Hw.
  destruct publish_shape as [[_ ->]|[(x & _ & _ & ->)|[(_ & _ & _ & ->)|(x & _ & _ & _ & ->)]]];
    cbn [fst]; rewrite ?totalWait_app;
    try (change (totalWait []) with 0%Z);
    try (change (totalWait [logged LOG (SentMessage message)]) with 0%Z); lia.
Qed.

End PublishShape.

(** X4. [sendPriceUpdateMessage] sends only when the producer is connected
    and the message has passed the schema; each of its sends is keyed by the
    message's token id and carries the message itself; it makes at most 3
    sends and sleeps at most 3000 ms between them; and [Sent message] is
    logged exactly when the call resolves. *)
Theorem publish_guards :
  forall (connected : bool) (parse : Message -> option Error)
         (broker : KafkaProducerService.Broker) (message : Message),
    let r := KafkaProducerService.sendPriceUpdateMessage connected parse broker message in
    (forall k v a ok,
       In (BrokerSend k v a ok) (fst r) ->
       connected = true /\ parse message = None /\
       k = tokenId message /\ v = message /\ ok = accepted broker a) /\
    (count isSend (fst r) <= 3)%nat /\
    (0 <= totalWait (fst r) <= 3000)%Z /\
    (In (logged LOG (SentMessage message)) (fst r) <-> snd r = Fulfilled tt).
Proof.
  intros connected parse broker message r.
  split; [apply publish_send|]. split; [apply publish_sends_ceiling|].
  split; [apply publish_wait|].
  subst r.
  destruct (publish_shape connected parse broker message)
    as [[_ ->]|[(x & _ & _ & ->)|[(_ & _ & _ & ->)|(x & _ & _ & E & ->)]]];
    cbn [fst snd].
  - split; [intros []|discriminate].
  - split; [intros []|discriminate].
  - split; [reflexivity|]. intros _. apply in_or_app. right. now left.
  - split; [|discriminate]. intros Hin.
    apply (sendWithRetry_quiet broker (tokenId message) message message 3 1) in Hin;
      [destruct Hin|unfold KafkaProducerService.maxRetries; lia].
Qed.

(** A message the schema rejects is never sent. *)
Lemma publish_guards_witness :
  let message := {| tokenId := "A"; msgSymbol := ""; oldPrice := num 1;
                    newPrice := num 2; timestamp := 0 |} in
  let parse := fun m : Message => if String.eqb (msgSymbol m) "" then Some "symbol" else None in
  let r := KafkaProducerService.sendPriceUpdateMessage true parse Scenario.up message in
  parse message = Some "symbol" /\
  (forall k v a ok, In (BrokerSend k v a ok) (fst r) -> False) /\
  (In (logged LOG (SentMessage message)) (fst r) <-> snd r = Fulfilled tt).
Proof.
  intros message parse r.
  destruct (publish_guards true parse Scenario.up message) as (Hs & _ & _ & Hlog).
  split; [reflexivity|]. split; [|exact Hlog].
  intros k v a ok Hin.
  destruct (Hs k v a ok Hin) as (_ & Hp & _). vm_compute in Hp. discriminate.
Defined.

Section ItemShape.

Import Pipeline.

Lemma symbolOrUnknown_falsy (t : Token) :
  symbolOrUnknown t <> ""%string /\
  (symbol t = Some (symbolOrUnknown t) \/ symbolOrUnknown t = "UNKNOWN"%string).
Proof.
  unfold symbolOrUnknown. destruct (symbol t) as [sym|].
  - destruct (String.eqb_spec sym "") as [->|Hne].
    + split; [discriminate|now right].
    + split; [exact Hne|now left].
  - split; [discriminate|now right].
Qed.

Lemma publish_no_event (env : Env) (token : Token) (newP : number) (m : Message) :
  ~ In (EventCreated m) (fst (publish env token newP)).
Proof.
  intros Hin. apply publish_client in Hin. discriminate.
Qed.

Lemma publish_no_save (env : Env) (token : Token) (newP : number)
    (t : Token) (ok : bool) :
  ~ In (StoreSave t ok) (fst (publish env token newP)).
Proof.
  intros Hin. apply publish_client in Hin. discriminate.
Qed.

(** X5. Whatever an item sends to the broker is the event created for it:
    keyed by the item's id, with the price of the loaded row as old price,
    the answer of the price source as new price, the two different, and the
    row's symbol or UNKNOWN, never the empty string, as symbol; no other
    event is created for the item, and a row the item saves carries the
    announced new price under the same id and symbol. *)
Theorem event_is_what_is_sent :
  forall (env : Env) (token : Token) (k : string) (m : Message) (a : nat) (ok : bool),
    In (BrokerSend k m a ok) (effects (updateTokenPrice env token)) ->
    k = id token /\ tokenId m = id token /\
    oldPrice m = price token /\
    priceResult (item env token) = Fulfilled (newPrice m) /\
    strict_eq (oldPrice m) (newPrice m) = false /\
    msgSymbol m <> ""%string /\
    (symbol token = Some (msgSymbol m) \/ msgSymbol m = "UNKNOWN"%string) /\
    (forall m', In (EventCreated m') (effects (updateTokenPrice env token)) -> m' = m) /\
    (forall t ok', In (StoreSave t ok') (effects (updateTokenPrice env token)) ->
       id t = id token /\ symbol t = symbol token /\ price t = newPrice m).
Proof.
  intros env token k m a ok.
  pose proof (updateTokenPrice_path env token) as Hpath.
  remember (updateTokenPrice env token) as run eqn:Hrun. clear Hrun.
  assert (Hmsg : forall newP,
             priceResult (item env token) = Fulfilled newP ->
             strict_eq (price token) newP = false ->
             In (BrokerSend k m a ok) (fst (publish env token newP)) ->
             k = id token /\ m = messageFor env token newP /\
             tokenId m = id token /\ oldPrice m = price token /\
             priceResult (item env token) = Fulfilled (newPrice m) /\
             strict_eq (oldPrice m) (newPrice m) = false /\
             msgSymbol m <> ""%string /\
             (symbol token = Some (msgSymbol m) \/ msgSymbol m = "UNKNOWN"%string)).
  { intros newP Hp Hne Hin. apply publish_send in Hin.
    destruct Hin as (_ & _ & -> & -> & _).
    destruct (symbolOrUnknown_falsy token) as [Hs1 Hs2].
    unfold messageFor, createTokenPriceUpdateMessage.
    cbn [tokenId oldPrice newPrice msgSymbol].
    repeat split; assumption. }
  destruct Hpath as [e Hp|newP Hp Heq|newP e Hp Hne Hpub|newP e Hp Hne Hpub Hsave
                    |newP Hp Hne Hpub Hsave];
    cbn [effects]; intros Hin.
  - destruct Hin as [Hin|[]]; discriminate.
  - destruct Hin as [Hin|[]]; discriminate.
  - destruct Hin as [Hin|[Hin|Hin]]; try discriminate.
    destruct (Hmsg newP Hp Hne Hin) as (Hk & Hm & H1 & H2 & H3 & H4 & H5 & H6).
    repeat split; try assumption.
    + intros m' [H|[H|H]]; try discriminate.
      * now injection H as <-.
      * now apply publish_no_event in H.
    + destruct H as [H|[H|H]]; try discriminate. now apply publish_no_save in H.
    + destruct H as [H|[H|H]]; try discriminate. now apply publish_no_save in H.
    + destruct H as [H|[H|H]]; try discriminate. now apply publish_no_save in H.
  - destruct Hin as [Hin|[Hin|Hin]]; try discriminate.
    apply in_app_or in Hin. destruct Hin as [Hin|[Hin|[]]]; try discriminate.
    destruct (Hmsg newP Hp Hne Hin) as (Hk & Hm & H1 & H2 & H3 & H4 & H5 & H6).
    assert (Hsaved : forall t ok',
               In (StoreSave t ok')
                  (PriceRequested :: EventCreated (messageFor env token newP)
                   :: fst (publish env token newP)
                   ++ [StoreSave (updated env token newP) false]) ->
               t = updated env token newP).
    { intros t ok' [H|[H|H]]; try discriminate.
      apply in_app_or in H. destruct H as [H|[H|[]]].
      - now apply publish_no_save in H.
      - now injection H as <- _. }
    repeat split; try assumption.
    + intros m' [H|[H|H]]; try discriminate.
      * now injection H as <-.
      * apply in_app_or in H. destruct H as [H|[H|[]]]; try discriminate.
        now apply publish_no_event in H.
    + apply Hsaved in H. now subst t.
    + apply Hsaved in H. now subst t.
    + apply Hsaved in H. subst t m. reflexivity.
  - destruct Hin as [Hin|[Hin|Hin]]; try discriminate.
    apply in_app_or in Hin. destruct Hin as [Hin|[Hin|[Hin|[]]]]; try discriminate.
    destruct (Hmsg newP Hp Hne Hin) as (Hk & Hm & H1 & H2 & H3 & H4 & H5 & H6).
    assert (Hsaved : forall t ok',
               In (StoreSave t ok')
                  (PriceRequested :: EventCreated (messageFor env token newP)
                   :: fst (publish env token newP)
                   ++ [StoreSave (updated env token newP) true;
                       logged LOG (UpdatedPrice (symbol token) (price token) newP)]) ->
               t = updated env token newP).
    { intros t ok' [H|[H|H]]; try discriminate.
      apply in_app_or in H. destruct H as [H|[H|[H|[]]]]; try discriminate.
      - now apply publish_no_save in H.
      - now injection H as <- _. }
    repeat split; try assumption.
    + intros m' [H|[H|H]]; try discriminate.
      * now injection H as <-.
      * apply in_app_or in H. destruct H as [H|[H|[H|[]]]]; try discriminate.
        now apply publish_no_event in H.
    + apply Hsaved in H. now subst t.
    + apply Hsaved in H. now subst t.
    + apply Hsaved in H. subst t m. reflexivity.
Qed.

Lemma event_is_what_is_sent_witness :
  let m := messageFor Scenario.allSucceed Scenario.tokenA (num 300001) in
  In (BrokerSend "A" m 1 true)
     (effects (updateTokenPrice Scenario.allSucceed Scenario.tokenA)) /\
  oldPrice m = num 300000 /\ msgSymbol m <> ""%string.
Proof.
  intros m.
  assert (Hin : In (BrokerSend "A" m 1 true)
                   (effects (updateTokenPrice Scenario.allSucceed Scenario.tokenA))).
  { vm_compute. right. right. left. reflexivity. }
  split; [exact Hin|].
  destruct (event_is_what_is_sent Scenario.allSucceed Scenario.tokenA "A" m 1 true Hin)
    as (_ & _ & Hold & _ & _ & Hsym & _).
  split; [exact Hold|exact Hsym].
Defined.

End ItemShape.

Section TickShape.

Import Pipeline.








Lemma count_nil {A} (p : A -> bool) : count p [] = 0%nat.
Proof. reflexivity. Qed.

Lemma count_none {A} (p : A -> bool) (l : list A) :
  (forall x, In x l -> p x = false) -> count p l = 0%nat.
Proof.
  induction l as [|x l IH]; intros Hl; [reflexivity|].
  rewrite count_cons, (Hl x (or_introl eq_refl)), IH; [reflexivity|].
  intros y Hy. apply Hl. now right.
Qed.

Lemma publish_counts (env : Env) (token : Token) (newP : number) :
  count isRequest (fst (publish env token newP)) = 0%nat /\
  count isEvent (fst (publish env token newP)) = 0%nat /\
  count isSave (fst (publish env token newP)) = 0%nat /\
  (count isSend (fst (publish env token newP)) <= 3)%nat.
Proof.
  repeat split; try apply publish_sends_ceiling;
    apply count_none; intros e He; apply publish_client in He;
    destruct e; try discriminate; reflexivity.
Qed.

Lemma totalWait_skip (e : Effect) (l : list Effect) :
  sleepOf e = [] -> totalWait (e :: l) = totalWait l.
Proof.
  intros He. unfold totalWait, sleeps. cbn [flat_map]. now rewrite He.
Qed.

(** What one item does, counted. *)
Lemma item_counts (env : Env) (token : Token) :
  let tr := effects (updateTokenPrice env token) in
  count isRequest tr = 1%nat /\
  (count isEvent tr <= 1)%nat /\
  (count isSend tr <= 3 * count isEvent tr)%nat /\
  (count isSave tr <= count isEvent tr)%nat /\
  (0 <= totalWait tr <= 3000 * Z.of_nat (count isEvent tr))%Z.
Proof.
  pose proof (updateTokenPrice_path env token) as Hpath.
  remember (updateTokenPrice env token) as run eqn:Hrun. clear Hrun.
  destruct Hpath as [e Hp|newP Hp Heq|newP e Hp Hne Hpub|newP e Hp Hne Hpub Hsave
                    |newP Hp Hne Hpub Hsave];
    cbn [effects]; cbv zeta;
    try (destruct (publish_counts env token newP) as (H1 & H2 & H3 & H4);
         pose proof (publish_wait (isConnected env) (schemaParse env)
                       (broker (item env token)) (messageFor env token newP)) as Hwait;
         fold (publish env token newP) in Hwait);
    rewrite ?totalWait_skip by reflexivity;
    rewrite ?totalWait_app;
    rewrite ?totalWait_skip by reflexivity;
    change (totalWait []) with 0%Z;
    rewrite ?count_cons, ?count_app, ?count_cons, ?count_nil;
    cbn [isRequest isEvent isSend isSave logged];
    rewrite ?H1, ?H2, ?H3;
    repeat split; lia.
Qed.

(** X7. The work of a tick is bounded by its table: every loaded row is
    asked for a price exactly once; at most one event is created per row, at
    most three sends are made and at most one save is called per event. *)
Theorem tick_work_bounds :
  forall (env : Env) (rows : Store),
    findResult env = None ->
    let tr := flat_map effects (runs (updatePrices env rows)) in
    count isRequest tr = List.length rows /\
    (count isEvent tr <= List.length rows)%nat /\
    (count isSend tr <= 3 * count isEvent tr)%nat /\
    (count isSave tr <= count isEvent tr)%nat.
Proof.
  intros env rows Hfind. unfold updatePrices. rewrite Hfind. cbn [runs].
  induction rows as [|token rows IH]; cbn [map flat_map List.length]; cbv zeta.
  - repeat split; cbn; lia.
  - destruct (item_counts env token) as (H1 & H2 & H3 & H4 & _).
    cbv zeta in IH. destruct IH as (I1 & I2 & I3 & I4).
    rewrite !count_app. repeat split; lia.
Qed.

Lemma tick_work_bounds_witness :
  let tr := flat_map effects (runs (updatePrices Scenario.publishOfBFails Scenario.table)) in
  count isRequest tr = 3%nat /\ (count isSend tr <= 3 * count isEvent tr)%nat.
Proof.
  destruct (tick_work_bounds Scenario.publishOfBFails Scenario.table eq_refl)
    as (H1 & _ & H3 & _).
  split; [exact H1|exact H3].
Defined.

(** X8. While the producer is not connected, a tick sends nothing, saves
    nothing and leaves the table as it is; an item fails with the error of
    the price source, resolves when its price did not change, and is
    rejected with [Kafka producer is not connected] when it did. *)
Theorem disconnected_tick :
  forall (env : Env) (rows : Store),
    isConnected env = false ->
    stored (updatePrices env rows) = rows /\
    (forall e, In e (flat_map effects (runs (updatePrices env rows))) ->
               isSend e = false /\ isSave e = false) /\
    (forall token,
       outcome (updateTokenPrice env token)
       = match priceResult (item env token) with
         | Rejected e => Rejected e
         | Fulfilled newP =>
             if strict_eq (price token) newP then Fulfilled tt
             else Rejected "Kafka producer is not connected"
         end).
Proof.
  intros env rows Hoff.
  assert (Hitem : forall token,
             updateTokenPrice env token
             = match priceResult (item env token) with
               | Rejected e =>
                   {| effects := [PriceRequested]; outcome := Rejected e; entity := token |}
               | Fulfilled newP =>
                   if strict_eq (price token) newP then
                     {| effects := [PriceRequested]; outcome := Fulfilled tt;
                        entity := token |}
                   else
                     {| effects := [PriceRequested; EventCreated (messageFor env token newP)];
                        outcome := Rejected "Kafka producer is not connected";
                        entity := token |}
               end).
  { intros token. unfold updateTokenPrice, publish, strict_neq,
      KafkaProducerService.sendPriceUpdateMessage.
    rewrite Hoff. cbn [negb fst snd].
    destruct (priceResult (item env token)); [|reflexivity].
    destruct (strict_eq (price token) value); reflexivity. }
  assert (Hquiet : forall l e,
             In e (flat_map effects (map (updateTokenPrice env) l)) ->
             isSend e = false /\ isSave e = false).
  { induction l as [|token l IH]; cbn [map flat_map]; [intros e []|].
    intros e Hin. apply in_app_or in Hin. destruct Hin as [Hin|Hin]; [|now apply IH].
    rewrite Hitem in Hin.
    destruct (priceResult (item env token)) as [newP|err];
      [destruct (strict_eq (price token) newP)|]; cbn [effects] in Hin;
      repeat (destruct Hin as [<-|Hin]; [split; reflexivity|]); destruct Hin. }
  split; [|split].
  - unfold updatePrices. destruct (findResult env); cbn [stored]; [reflexivity|].
    unfold commit.
    assert (Hnone : forall l, (forall e, In e l -> isSave e = false) ->
                              flat_map savedRow l = []).
    { induction l as [|e l IH]; intros Hl; [reflexivity|]. cbn [flat_map].
      rewrite IH by (intros e' He'; apply Hl; now right).
      specialize (Hl e (or_introl eq_refl)). destruct e; try discriminate; reflexivity. }
    rewrite Hnone; [reflexivity|]. intros e He. now apply (Hquiet rows).
  - unfold updatePrices. destruct (findResult env) as [err|]; cbn [runs flat_map];
      [intros x []|].
    apply Hquiet.
  - intros token. rewrite Hitem.
    destruct (priceResult (item env token)) as [newP|err]; [|reflexivity].
    destruct (strict_eq (price token) newP); reflexivity.
Qed.

Lemma disconnected_tick_witness :
  let env := {| isConnected := false;
                schemaParse := schemaParse Scenario.allSucceed;
                findResult := None;
                item := item Scenario.allSucceed |} in
  stored (updatePrices env Scenario.table) = Scenario.table /\
  outcome (updateTokenPrice env Scenario.tokenA)
  = Rejected "Kafka producer is not connected".
Proof.
  intros env.
  destruct (disconnected_tick env Scenario.table eq_refl) as (Hst & _ & Hout).
  split; [exact Hst|]. rewrite (Hout Scenario.tokenA). reflexivity.
Defined.

End TickShape.

(** ** The scheduler, further *)

Section SchedulerShape.

Import Scheduler.

Lemma stopFinish_running (w : World) :
  isRunning (service (stopFinish w)) = isRunning (service w).
Proof. unfold stopFinish. destruct (isProcessing (service w)); reflexivity. Qed.

Lemma stopLoop_running (a : nat) (w : World) :
  isRunning (service (fst (stopLoop a w))) = isRunning (service w).
Proof.
  unfold stopLoop.
  destruct (isProcessing (service w) && (a <? maxAttempts)%nat); fields;
    [reflexivity|apply stopFinish_running].
Qed.

Lemma stopBegin_armed (w : World) : armed w -> armed (fst (stopBegin w)).
Proof.
  unfold armed. intros Ha. destruct (isRunning (service w)) eqn:Hr.
  - destruct (stopBegin_running w Hr) as (-> & -> & _). reflexivity.
  - rewrite stopBegin_stopped by exact Hr. fields. congruence.
Qed.

Lemma finishInvocation_flags (x : Waiter) (a : nat) (w : World) :
  timer (service (finishInvocation x a w)) = timer (service w) /\
  isRunning (service (finishInvocation x a w)) = isRunning (service w).
Proof.
  unfold finishInvocation, resolvePromise. fields.
  destruct (shutdownPromise (service w)) as [[|j]|]; auto.
  destruct (j =? invocation x)%nat; auto.
Qed.

Lemma armed_step (w : World) (e : Event) : armed w -> armed (step w e).
Proof.
  unfold armed. intros Ha. destruct e as [| |env|c|c|j]; cbn [step].
  - open_tick. destruct (isRunning (service w)) eqn:Hr; fields; [congruence|].
    destruct (isProcessing (service w)); reflexivity.
  - open_tick. destruct (timer (service w)) eqn:Ht; fields; [|congruence].
    destruct (isProcessing (service w)); fields; congruence.
  - unfold tickSettles. destruct (inFlight w); fields; exact Ha.
  - unfold callStop. pose proof (stopBegin_armed w Ha) as H. unfold armed in H.
    destruct (stopBegin w) as [w1 [a|]]; fields; exact H.
  - unfold callOnModuleDestroy. pose proof (stopBegin_armed w Ha) as H.
    unfold armed in H.
    destruct (shutdownPromise (service w)) as [[|k]|] eqn:Hsp; cbv zeta;
      rewrite ?Hsp; fields; try exact Ha.
    destruct (stopBegin w) as [w1 [a|]]; fields; exact H.
  - unfold sleepElapses. destruct (findWaiter j (waiters w)) as [y|]; [|exact Ha].
    pose proof (stopLoop_timer (attempts y + 1) w) as Ht.
    pose proof (stopLoop_running (attempts y + 1) w) as Hr.
    destruct (stopLoop (attempts y + 1) w) as [w1 [a|]]; fields; [congruence|].
    destruct (finishInvocation_flags y (attempts y + 1) w1) as [-> ->]. congruence.
Qed.

Lemma armed_run (es : list Event) (w : World) : armed w -> armed (run w es).
Proof.
  revert w. induction es as [|e es IH]; intros w H; [exact H|].
  apply IH, armed_step, H.
Qed.

(** X9. In every reachable state the interval is armed exactly when the
    service is running: [stop()] never leaves an armed interval behind, a
    running service is never without its interval, and [start()] on a
    running service arms no second one. *)
Theorem interval_armed_iff_running :
  forall (interval : Z) (table : Pipeline.Store) (es : list Event),
    let w := run (init interval table) es in
    timer (service w) = isRunning (service w) /\
    (isRunning (service w) = true ->
     step w CallStart = say WARN AlreadyRunning w).
Proof.
  intros interval table es w. split.
  - apply (armed_run es (init interval table)). reflexivity.
  - intros Hr. cbn [step]. unfold start. now rewrite Hr.
Qed.

Lemma interval_armed_iff_running_witness :
  step Scenario.started CallStart = say WARN AlreadyRunning Scenario.started.
Proof.
  apply (interval_armed_iff_running 5 Scenario.table [CallStart]). reflexivity.
Defined.

(** *** A tick that does not settle *)

Lemma stuck_step (w : World) (e : Event) :
  isSettle e = false ->
  isProcessing (service w) = true ->
  begun (step w e) = begun w /\ inFlight (step w e) = inFlight w /\
  rows (step w e) = rows w.
Proof.
  intros He Hp. destruct e as [| |env|c|c|j]; cbn [step]; try discriminate.
  - open_tick. destruct (isRunning (service w)); fields; [auto|].
    rewrite Hp. auto.
  - open_tick. destruct (timer (service w)); fields; [|auto].
    rewrite Hp. auto.
  - destruct (callStop_sameTicks c w) as (_ & H1 & H2 & H3). auto.
  - destruct (callOnModuleDestroy_sameTicks c w) as (_ & H1 & H2 & H3). auto.
  - destruct (sleepElapses_sameTicks j w) as (_ & H1 & H2 & H3). auto.
Qed.

Lemma stuck_run (es : list Event) (w : World) :
  isProcessing (service w) = true ->
  forallb (fun e => negb (isSettle e)) es = true ->
  isProcessing (service (run w es)) = true /\
  begun (run w es) = begun w /\
  inFlight (run w es) = inFlight w /\
  rows (run w es) = rows w.
Proof.
  revert w. induction es as [|e es IH]; intros w Hp Hes; [auto|].
  cbn [forallb] in Hes. apply andb_prop in Hes. destruct Hes as [He Hes].
  apply negb_true_iff in He.
  destruct (stuck_step w e He Hp) as (H1 & H2 & H3).
  pose proof (step_keeps_processing w e He Hp) as Hp'.
  destruct (IH (step w e) Hp' Hes) as (I0 & I1 & I2 & I3).
  unfold run in *. cbn [fold_left]. repeat split; congruence.
Qed.

(** X10. A tick that does not settle starves the service: as long as the
    tick in flight has not settled, whatever else happens (the timer fires,
    [start()], [stop()] and [onModuleDestroy()] are called, sleeps
    elapse), no tick begins and the flag stays up. *)
Theorem stuck_tick_starves :
  forall (w : World) (es : list Event),
    isProcessing (service w) = true ->
    forallb (fun e => negb (isSettle e)) es = true ->
    isProcessing (service (run w es)) = true /\
    begun (run w es) = begun w /\
    inFlight (run w es) = inFlight w.
Proof.
  intros w es Hp Hes.
  destruct (stuck_run es w Hp Hes) as (H1 & H2 & H3 & _). auto.
Qed.

Lemma stuck_tick_starves_witness :
  begun (run Scenario.started [TimerFires; CallStop 1; CallStart; TimerFires]) = 1%nat.
Proof.
  apply (stuck_tick_starves Scenario.started
           [TimerFires; CallStop 1; CallStart; TimerFires]); reflexivity.
Defined.

(** *** The promise kept by onModuleDestroy() *)

Lemma callStop_promise (c : nat) (w : World) :
  shutdownPromise (service (callStop c w)) = shutdownPromise (service w).
Proof.
  unfold callStop. destruct (stopBegin_sameCalls w) as (_ & _ & _ & _ & H).
  destruct (stopBegin w) as [w1 [a|]]; fields; exact H.
Qed.

Lemma promise_sticks_step (w : World) (e : Event) :
  shutdownPromise (service w) <> None ->
  shutdownPromise (service (step w e)) <> None.
Proof.
  intros Hsp. destruct e as [| |env|c|c|j]; cbn [step].
  - destruct (start_sameCalls w) as (_ & _ & _ & _ & ->). exact Hsp.
  - destruct (timerFires_sameCalls w) as (_ & _ & _ & _ & ->). exact Hsp.
  - destruct (tickSettles_sameCalls env w) as (_ & _ & _ & _ & ->). exact Hsp.
  - now rewrite callStop_promise.
  - unfold callOnModuleDestroy.
    destruct (shutdownPromise (service w)) as [[|k]|] eqn:E; cbv zeta;
      rewrite ?E; fields; rewrite ?E; try discriminate. now destruct Hsp.
  - unfold sleepElapses. destruct (findWaiter j (waiters w)) as [y|]; [|exact Hsp].
    destruct (stopLoop_sameCalls (attempts y + 1) w) as (_ & _ & _ & _ & H).
    destruct (stopLoop (attempts y + 1) w) as [w1 [a|]]; fields; [congruence|].
    unfold finishInvocation, resolvePromise. fields.
    destruct (shutdownPromise (service w1)) as [[|k]|] eqn:E; rewrite ?E;
      try discriminate; [|congruence].
    destruct (k =? invocation y)%nat; fields; rewrite ?E; discriminate.
Qed.

Lemma promise_sticks_run (es : list Event) (w : World) :
  shutdownPromise (service w) <> None ->
  shutdownPromise (service (run w es)) <> None.
Proof.
  revert w. induction es as [|e es IH]; intros w H; [exact H|].
  apply IH, promise_sticks_step, H.
Qed.

Lemma destroy_sets_promise (c : nat) (w : World) :
  shutdownPromise (service (callOnModuleDestroy c w)) <> None.
Proof.
  unfold callOnModuleDestroy.
  destruct (shutdownPromise (service w)) as [[|k]|] eqn:E; cbv zeta;
    rewrite ?E; fields; rewrite ?E; try discriminate.
  destruct (stopBegin w) as [w1 [a|]]; fields; discriminate.
Qed.

Lemma destroy_again (c : nat) (w : World) :
  shutdownPromise (service w) <> None ->
  service (callOnModuleDestroy c w) = service w /\
  logs (callOnModuleDestroy c w) = logs w /\
  waiters (callOnModuleDestroy c w) = waiters w.
Proof.
  intros Hsp. unfold callOnModuleDestroy.
  destruct (shutdownPromise (service w)) as [[|k]|] eqn:E; cbv zeta;
    rewrite ?E; fields; auto. now destruct Hsp.
Qed.

(** X11. [onModuleDestroy()] stops the service once in its life: from its
    first call on the kept promise is never cleared, so every later call,
    whatever has happened in between, calls no [stop()]: it leaves the
    service object, the log and the waiting [stop()] calls as they are.  A
    service started again after the first call, and not stopped by
    [stop()], is still running after the second. *)
Theorem destroy_stops_once :
  forall (w : World) (c c' : nat) (es : list Event),
    let w1 := run (step w (CallOnModuleDestroy c)) es in
    let w2 := step w1 (CallOnModuleDestroy c') in
    shutdownPromise (service w1) <> None /\
    service w2 = service w1 /\ logs w2 = logs w1 /\ waiters w2 = waiters w1 /\
    (In CallStart es ->
     forallb (fun e => match e with CallStop _ => false | _ => true end) es = true ->
     isRunning (service w2) = true).
Proof.
  intros w c c' es w1 w2.
  assert (Hsp : shutdownPromise (service w1) <> None).
  { apply promise_sticks_run. cbn [step]. apply destroy_sets_promise. }
  destruct (destroy_again c' w1 Hsp) as (Hs & Hl & Hw).
  split; [exact Hsp|]. split; [exact Hs|]. split; [exact Hl|]. split; [exact Hw|].
  intros Hin Hes. unfold w2. cbn [step]. rewrite Hs.
  assert (Hrun : forall es' w0,
             shutdownPromise (service w0) <> None ->
             forallb (fun e => match e with CallStop _ => false | _ => true end) es' = true ->
             (isRunning (service w0) = true \/ In CallStart es') ->
             isRunning (service (run w0 es')) = true).
  { clear. induction es' as [|e es' IH]; intros w0 Hsp Hes Hor.
    - destruct Hor as [Hr|[]]. exact Hr.
    - cbn [forallb] in Hes. apply andb_prop in Hes. destruct Hes as [He Hes].
      apply (IH (step w0 e)); [now apply promise_sticks_step|exact Hes|].
      destruct e as [| |env|c|c|j]; try discriminate.
      + left. cbn [step]. open_tick. destruct (isRunning (service w0)) eqn:Hr; fields;
          [exact Hr|]. destruct (isProcessing (service w0)); reflexivity.
      + destruct Hor as [Hr|[Hx|Hin]]; [left|discriminate|now right].
        cbn [step]. open_tick. destruct (timer (service w0)); fields; [|exact Hr].
        destruct (isProcessing (service w0)); fields; exact Hr.
      + destruct Hor as [Hr|[Hx|Hin]]; [left|discriminate|now right].
        cbn [step]. unfold tickSettles. destruct (inFlight w0); fields; exact Hr.
      + destruct Hor as [Hr|[Hx|Hin]]; [left|discriminate|now right].
        cbn [step]. now destruct (destroy_again c w0 Hsp) as (-> & _).
      + destruct Hor as [Hr|[Hx|Hin]]; [left|discriminate|now right].
        cbn [step]. unfold sleepElapses.
        destruct (findWaiter j (waiters w0)) as [y|]; [|exact Hr].
        pose proof (stopLoop_running (attempts y + 1) w0) as H.
        destruct (stopLoop (attempts y + 1) w0) as [w1 [a|]]; fields; [congruence|].
        destruct (finishInvocation_flags y (attempts y + 1) w1) as [_ ->]. congruence. }
  apply Hrun; [cbn [step]; apply destroy_sets_promise|exact Hes|now right].
Qed.

Lemma destroy_stops_once_witness :
  isRunning
    (service (step (run (step (init 5 Scenario.table) (CallOnModuleDestroy 1))
                        [CallStart])
                   (CallOnModuleDestroy 2)))
  = true.
Proof.
  destruct (destroy_stops_once (init 5 Scenario.table) 1 2 [CallStart])
    as (_ & _ & _ & _ & H).
  exact (H (or_introl eq_refl) eq_refl).
Defined.
End SchedulerShape.

Section GracefulStop.

Import Scheduler.

Lemma forallb_both {A} (p q : A -> bool) (l : list A) :
  forallb (fun x => p x && q x) l = true ->
  forallb p l = true /\ forallb q l = true.
Proof.
  induction l as [|x l IH]; cbn [forallb]; [auto|].
  intros H. apply andb_prop in H. destruct H as [Hx Hl].
  apply andb_prop in Hx. destruct Hx as [Hp Hq].
  destruct (IH Hl) as [H1 H2]. rewrite Hp, Hq, H1, H2. auto.
Qed.

Lemma run_app (es es' : list Event) (w : World) :
  run w (es ++ es') = run (run w es) es'.
Proof. apply fold_left_app. Qed.

Lemma run_keeps_waiter (i : nat) (es : list Event) :
  forall (w : World) (x : Waiter),
    forallb (fun e => negb (isSleepOf i e)) es = true ->
    findWaiter i (waiters w) = Some x ->
    findWaiter i (waiters (run w es)) = Some x.
Proof.
  induction es as [|e es IH]; intros w x Hes Hx; [exact Hx|].
  cbn [forallb] in Hes. apply andb_prop in Hes. destruct Hes as [He Hes].
  apply negb_true_iff in He.
  apply (IH (step w e)); [exact Hes|]. now apply step_keeps_waiter.
Qed.

Lemma atRest_step (w : World) (e : Event) :
  isStart e = false ->
  atRest w ->
  atRest (step w e) /\ rows (step w e) = rows w /\ begun (step w e) = begun w.
Proof.
  intros He (Ht & Hp & Hn). unfold atRest.
  destruct (timer_off_step w e He Ht) as [Ht' Hb].
  destruct e as [| |env|c|c|j]; cbn [step] in *; try discriminate.
  - unfold timerFires. rewrite Ht. cbn [negb]. auto.
  - unfold tickSettles. rewrite Hn. auto.
  - destruct (callStop_sameTicks c w) as (H1 & H2 & H3 & H4).
    repeat split; congruence.
  - destruct (callOnModuleDestroy_sameTicks c w) as (H1 & H2 & H3 & H4).
    repeat split; congruence.
  - destruct (sleepElapses_sameTicks j w) as (H1 & H2 & H3 & H4).
    repeat split; congruence.
Qed.

Lemma atRest_run (es : list Event) (w : World) :
  forallb (fun e => negb (isStart e)) es = true ->
  atRest w ->
  atRest (run w es) /\ rows (run w es) = rows w /\ begun (run w es) = begun w.
Proof.
  revert w. induction es as [|e es IH]; intros w Hes Hw; [auto|].
  cbn [forallb] in Hes. apply andb_prop in Hes. destruct Hes as [He Hes].
  apply negb_true_iff in He.
  destruct (atRest_step w e He Hw) as (Hw' & Hr & Hb).
  destruct (IH (step w e) Hes Hw') as (I1 & I2 & I3).
  unfold run in *. cbn [fold_left]. repeat split; [apply I1..|congruence|congruence].
Qed.

(** A [stop()] whose tick has settled returns at its next poll. *)
Lemma sleep_returns (i c : nat) (w : World) (x : Waiter) :
  findWaiter i (waiters w) = Some x ->
  caller x = Some c ->
  isProcessing (service w) = false ->
  logs (sleepElapses i w)
    = logs w ++ [{| level := LOG; line := ServiceStopped |}] /\
  (exists rest,
     returned (sleepElapses i w)
     = returned w ++ {| who := c; sleptMs := sleptFor (attempts x + 1);
                        stillProcessing := false |} :: rest) /\
  isWaiting i (sleepElapses i w) = false /\
  sameTicks w (sleepElapses i w).
Proof.
  intros Hx Hc Hp.
  assert (Hl : isProcessing (service w) && (attempts x + 1 <? maxAttempts)%nat = false).
  { now rewrite Hp. }
  split; [|split; [|split]]; [| | |apply sleepElapses_sameTicks];
    rewrite (sleep_finishes i w x Hx Hl).
  - unfold finishInvocation, stopFinish. rewrite Hp. fields. reflexivity.
  - destruct (finishInvocation_returns x (attempts x + 1) c (stopFinish w) Hc)
      as [rest Hr].
    exists rest. rewrite Hr. destruct (stopFinish_sameCalls w) as (_ & _ & -> & _).
    unfold ret. destruct (stopFinish_sameTicks w) as (-> & _). rewrite Hp. reflexivity.
  - unfold isWaiting, finishInvocation. fields.
    rewrite (findWaiter_invocation _ _ _ Hx).
    now rewrite findWaiter_dropWaiter_same.
Qed.

(** The tick in flight settles while [stop()] waits: the call returns at
    its next poll. *)
Lemma graceful_return (w : World) (c : nat) (es1 : list Event)
    (env : Pipeline.Env) (es2 : list Event) :
  fresh w -> guarded w ->
  isRunning (service w) = true ->
  isProcessing (service w) = true ->
  forallb (fun e => negb (isSettle e) && negb (isStart e)) es1 = true ->
  (count (isSleepOf (nextInvocation w)) es1 < 30)%nat ->
  forallb (fun e => negb (isStart e) && negb (isSleepOf (nextInvocation w) e)) es2
  = true ->
  let i := nextInvocation w in
  let w2 := run (step (run (step w (CallStop c)) es1) (TickSettles env)) es2 in
  let w3 := step w2 (SleepElapses i) in
  isWaiting i w2 = true /\
  rows w2 = Pipeline.stored (Pipeline.updatePrices env (rows w)) /\
  logs w3 = logs w2 ++ [{| level := LOG; line := ServiceStopped |}] /\
  (exists rest,
     returned w3
     = returned w2
       ++ {| who := c;
             sleptMs := 1000 * Z.of_nat (count (isSleepOf i) es1 + 1);
             stillProcessing := false |} :: rest) /\
  isWaiting i w3 = false /\
  rows w3 = rows w2 /\
  begun w3 = begun w.
Proof.
  intros Hfresh Hguard Hr Hp Hes1 Hn Hes2 i w2 w3.
  destruct (forallb_both _ _ _ Hes1) as [Hsettle1 Hstart1].
  destruct (forallb_both _ _ _ Hes2) as [Hstart2 Hsleep2].
  destruct (callStop_waits c w Hr Hp) as (Hw & _ & _ & _ & Ht1 & _ & Hp1 & _).
  destruct (callStop_sameTicks c w) as (_ & _ & Hb1 & Hrows1).
  set (w1 := step w (CallStop c)) in *.
  change (callStop c w) with w1 in *.
  assert (Hx : findWaiter i (waiters w1)
               = Some {| invocation := i; caller := Some c; attempts := 0 |}).
  { rewrite Hw. apply findWaiter_fresh; [exact Hfresh|reflexivity]. }
  destruct (stuck_waits i es1 w1 _ Hx Hp1 Hsettle1) as (Hp2 & x' & Hx' & Hc' & Ha').
  { cbn [attempts]. unfold maxAttempts. fold i in Hn. lia. }
  cbn [caller attempts] in Hc', Ha'.
  destruct (stuck_run es1 w1 Hp1 Hsettle1) as (_ & Hb2 & _ & Hrows2).
  destruct (timer_off_run es1 w1 Hstart1 Ht1) as [Ht2 _].
  assert (Hg2 : guarded (run w1 es1)).
  { apply guarded_run. unfold w1. apply guarded_step, Hguard. }
  unfold guarded in Hg2. rewrite Hp2 in Hg2.
  set (wa := run w1 es1) in *.
  assert (Hsettled : atRest (step wa (TickSettles env)) /\
                     rows (step wa (TickSettles env))
                     = Pipeline.stored (Pipeline.updatePrices env (rows wa)) /\
                     begun (step wa (TickSettles env)) = begun wa /\
                     findWaiter i (waiters (step wa (TickSettles env))) = Some x').
  { cbn [step]. unfold tickSettles, atRest. rewrite Hg2. fields.
    repeat split; assumption. }
  destruct Hsettled as (Hrest & Hrows3 & Hb3 & Hx3).
  set (wb := step wa (TickSettles env)) in *.
  destruct (atRest_run es2 wb Hstart2 Hrest) as ((_ & Hp4 & _) & Hrows4 & Hb4).
  pose proof (run_keeps_waiter i es2 wb x' Hsleep2 Hx3) as Hx4.
  change w2 with (run wb es2) in *.
  destruct (sleep_returns i c (run wb es2) x' Hx4 Hc' Hp4)
    as (Hlogs & [rest Hret] & Hgone & (_ & _ & Hb5 & Hrows5)).
  split; [unfold isWaiting; now rewrite Hx4|].
  split; [congruence|].
  split; [exact Hlogs|].
  split; [exists rest; rewrite Ha' in Hret; exact Hret|].
  split; [exact Hgone|].
  split; [exact Hrows5|].
  unfold w3. cbn [step]. congruence.
Qed.

(** X12. A graceful stop.  [stop()] is called on a running service with a
    tick in flight, the tick settles before the wait loop gives up, and
    nobody calls [start()]: then the tick's result is in the table, no tick
    has begun since, and at its next poll the call logs
    [Price update service stopped] without the forced-shutdown warning and
    returns, having slept 1000 ms once more than the polls that found the
    tick still running. *)
Theorem graceful_shutdown :
  forall (interval : Z) (table : Pipeline.Store) (es0 : list Event) (c : nat)
         (es1 : list Event) (env : Pipeline.Env) (es2 : list Event),
    let w := run (init interval table) es0 in
    let i := nextInvocation w in
    isRunning (service w) = true ->
    isProcessing (service w) = true ->
    forallb (fun e => negb (isSettle e) && negb (isStart e)) es1 = true ->
    (count (isSleepOf i) es1 < 30)%nat ->
    forallb (fun e => negb (isStart e) && negb (isSleepOf i e)) es2 = true ->
    let w2 := run (step (run (step w (CallStop c)) es1) (TickSettles env)) es2 in
    let w3 := step w2 (SleepElapses i) in
    isWaiting i w2 = true /\
    rows w2 = Pipeline.stored (Pipeline.updatePrices env (rows w)) /\
    logs w3 = logs w2 ++ [{| level := LOG; line := ServiceStopped |}] /\
    (exists rest,
       returned w3
       = returned w2
         ++ {| who := c;
               sleptMs := 1000 * Z.of_nat (count (isSleepOf i) es1 + 1);
               stillProcessing := false |} :: rest) /\
    isWaiting i w3 = false /\
    rows w3 = rows w2 /\
    begun w3 = begun w.
Proof.
  intros interval table es0 c es1 env es2 w i Hr Hp Hes1 Hn Hes2.
  apply (graceful_return w c es1 env es2); try assumption.
  - apply fresh_run, fresh_init.
  - apply guarded_run, guarded_init.
Qed.

(** The first tick settles after two polls of [stop()]: the third poll
    returns the call. *)
Lemma graceful_shutdown_witness :
  let w := run (init 5 Scenario.table) [CallStart] in
  let i := nextInvocation w in
  let es1 := [SleepElapses 0; TimerFires; SleepElapses 0] in
  let w2 := run (step (run (step w (CallStop 7)) es1) (TickSettles Scenario.allSucceed))
                [TimerFires] in
  let w3 := step w2 (SleepElapses i) in
  logs w3 = logs w2 ++ [{| level := LOG; line := ServiceStopped |}] /\
  exists rest,
    returned w3
    = returned w2
      ++ {| who := 7; sleptMs := 1000 * Z.of_nat (count (isSleepOf i) es1 + 1);
            stillProcessing := false |} :: rest.
Proof.
  intros w i es1 w2 w3.
  destruct (graceful_shutdown 5 Scenario.table [CallStart] 7 es1 Scenario.allSucceed
              [TimerFires])
    as (_ & _ & Hlogs & Hret & _).
  - reflexivity.
  - reflexivity.
  - reflexivity.
  - vm_compute. repeat constructor.
  - reflexivity.
  - split; [exact Hlogs|exact Hret].
Defined.

(** X13. [onModuleDestroy()] does not wait for a [stop()] that somebody
    else has begun: called while a [stop()] is in its wait loop and before
    any other [onModuleDestroy()], it finds the service not running, logs
    the warning, keeps an already settled promise and returns at once, with
    the tick still in flight and the first caller still waiting. *)
Theorem destroy_after_stop_returns_at_once :
  forall (w : World) (c1 c2 : nat),
    isRunning (service w) = true ->
    isProcessing (service w) = true ->
    shutdownPromise (service w) = None ->
    let w2 := step (step w (CallStop c1)) (CallOnModuleDestroy c2) in
    returned w2
      = returned w ++ [{| who := c2; sleptMs := 0; stillProcessing := true |}] /\
    waiters w2
      = waiters w ++ [{| invocation := nextInvocation w; caller := Some c1;
                         attempts := 0 |}] /\
    awaiting w2 = awaiting w /\
    shutdownPromise (service w2) = Some Resolved /\
    isProcessing (service w2) = true /\
    logs w2 = logs w ++ [{| level := LOG; line := StoppingService |};
                         {| level := LOG; line := WaitingForUpdate |};
                         {| level := WARN; line := NotRunning |}].
Proof.
  intros w c1 c2 Hr Hp Hsp w2.
  destruct (callStop_waits c1 w Hr Hp) as (Hw & _ & Hret & Haw & _ & Hr1 & Hp1 & Hl).
  pose proof (callStop_promise c1 w) as Hsp1. rewrite Hsp in Hsp1.
  unfold w2. cbn [step]. set (w1 := callStop c1 w) in *.
  unfold callOnModuleDestroy. rewrite Hsp1.
  rewrite (stopBegin_stopped w1 Hr1). cbv zeta. fields.
  unfold ret, sleptFor. fields. rewrite Hp1, Hw, Hret, Haw, Hl.
  repeat split. now rewrite <- app_assoc.
Qed.

Lemma destroy_after_stop_returns_at_once_witness :
  hasReturned 2 (step (step Scenario.started (CallStop 1)) (CallOnModuleDestroy 2))
  = true /\
  hasReturned 1 (step (step Scenario.started (CallStop 1)) (CallOnModuleDestroy 2))
  = false.
Proof.
  destruct (destroy_after_stop_returns_at_once Scenario.started 1 2
              eq_refl eq_refl eq_refl) as (Hret & _).
  unfold hasReturned. rewrite Hret. split; reflexivity.
Defined.

End GracefulStop.

(** ** stop(), from the call to its return *)

Section Shutdown.

Import Scheduler.

(** [stop()] on a running service with no tick in flight runs to its end. *)
Lemma callStop_idle (c : nat) (w : World) :
  isRunning (service w) = true ->
  isProcessing (service w) = false ->
  returned (callStop c w)
    = returned w ++ [{| who := c; sleptMs := 0; stillProcessing := false |}] /\
  waiters (callStop c w) = waiters w /\
  logs (callStop c w)
    = logs w ++ [{| level := LOG; line := StoppingService |};
                 {| level := LOG; line := ServiceStopped |}].
Proof.
  intros Hr Hp. unfold callStop.
  destruct (stopBegin_running w Hr) as (_ & _ & Hsnd & Hlogs).
  destruct (stopBegin_sameCalls w) as (Hw & _ & Hret & _).
  destruct (stopBegin_sameTicks w) as (Hp' & _).
  rewrite Hp in Hsnd, Hlogs, Hp'.
  destruct (stopBegin w) as [w1 [a|]]; cbn [fst snd] in *; [discriminate|].
  fields. unfold ret, sleptFor. rewrite Hp', Hret, Hw, Hlogs. repeat split.
Qed.

(** C7. From every reachable state in which the service is running, the
    interval is armed, and [stop()] clears it together with the running flag
    before it waits: as long as nobody calls [start()] again no tick begins
    and the interval stays cleared.  With no tick in flight the call logs
    "stopping" and "stopped" and returns without a sleep.  With a tick in
    flight it logs "stopping" and "waiting" and waits, polling every
    1000 ms: while the tick has not settled and fewer than 30 sleeps have
    elapsed the call is still waiting; once the tick has settled, the next
    poll logs "stopped", without the warning, and returns the call, 1000 ms
    after each of the polls it made, the tick no longer in progress; and
    when the tick never settles, the call is still waiting after 29 sleeps
    and, as the 30th elapses, logs the forced-shutdown warning and "stopped"
    and returns, 30000 ms after it began to wait, with the tick still in
    progress.  In every case the call has returned once its sleep has
    elapsed 30 times, whatever else happens meanwhile. *)
Theorem bounded_shutdown :
  forall (interval : Z) (table : Pipeline.Store) (es0 : list Event) (c : nat),
    let w := run (init interval table) es0 in
    let i := nextInvocation w in
    let w1 := step w (CallStop c) in
    isRunning (service w) = true ->
    timer (service w) = true /\
    timer (service w1) = false /\
    isRunning (service w1) = false /\
    (forall es,
       forallb (fun e => negb (isStart e)) es = true ->
       timer (service (run w1 es)) = false /\
       begun (run w1 es) = begun w) /\
    pollInterval = 1000%Z /\
    maxAttempts = 30%nat /\
    (isProcessing (service w) = false ->
     returned w1
       = returned w ++ [{| who := c; sleptMs := 0; stillProcessing := false |}] /\
     waiters w1 = waiters w /\
     logs w1 = logs w ++ [{| level := LOG; line := StoppingService |};
                          {| level := LOG; line := ServiceStopped |}]) /\
    (forall es,
       (30 <= count (isSleepOf i) es)%nat ->
       hasReturned c (run w1 es) = true) /\
    (isProcessing (service w) = true ->
     (returned w1 = returned w /\
      isWaiting i w1 = true /\
      logs w1 = logs w ++ [{| level := LOG; line := StoppingService |};
                           {| level := LOG; line := WaitingForUpdate |}]) /\
     (forall es,
        forallb (fun e => negb (isSettle e)) es = true ->
        (count (isSleepOf i) es < 30)%nat ->
        isWaiting i (run w1 es) = true /\
        isProcessing (service (run w1 es)) = true) /\
     (forall es1 env es2,
        forallb (fun e => negb (isSettle e) && negb (isStart e)) es1 = true ->
        (count (isSleepOf i) es1 < 30)%nat ->
        forallb (fun e => negb (isStart e) && negb (isSleepOf i e)) es2 = true ->
        let w2 := run (step (run w1 es1) (TickSettles env)) es2 in
        let w3 := step w2 (SleepElapses i) in
        isWaiting i w2 = true /\
        isProcessing (service w2) = false /\
        logs w3 = logs w2 ++ [{| level := LOG; line := ServiceStopped |}] /\
        (exists rest,
           returned w3
           = returned w2
             ++ {| who := c;
                   sleptMs := 1000 * Z.of_nat (count (isSleepOf i) es1 + 1);
                   stillProcessing := false |} :: rest) /\
        isWaiting i w3 = false /\
        begun w3 = begun w) /\
     (forall es,
        forallb (fun e => negb (isSettle e)) es = true ->
        count (isSleepOf i) es = 29%nat ->
        let w2 := run w1 es in
        let w3 := step w2 (SleepElapses i) in
        isWaiting i w2 = true /\
        logs w3
          = logs w2 ++ [{| level := WARN; line := ForcedShutdown |};
                        {| level := LOG; line := ServiceStopped |}] /\
        (exists rest,
           returned w3
           = returned w2
             ++ {| who := c; sleptMs := 30000; stillProcessing := true |} :: rest) /\
        isWaiting i w3 = false)).
Proof.
  intros interval table es0 c w i w1 Hr.
  assert (Hfresh : fresh w) by apply fresh_run, fresh_init.
  assert (Hguard : guarded w) by apply guarded_run, guarded_init.
  assert (Harmed : armed w).
  { apply (armed_run es0 (init interval table)). reflexivity. }
  assert (Hoff : timer (service w1) = false /\ isRunning (service w1) = false).
  { subst w1. cbn [step].
    destruct (isProcessing (service w)) eqn:Hp.
    - now destruct (callStop_waits c w Hr Hp) as (_ & _ & _ & _ & H1 & H2 & _).
    - now destruct (callStop_immediate c w Hr Hp) as (_ & H1 & H2). }
  assert (Hwait : isProcessing (service w) = true ->
            findWaiter i (waiters w1)
            = Some {| invocation := i; caller := Some c; attempts := 0 |} /\
            isProcessing (service w1) = true).
  { intros Hp. subst w1. cbn [step].
    destruct (callStop_waits c w Hr Hp) as (Hw & _ & _ & _ & _ & _ & Hp1 & _).
    split; [|exact Hp1]. rewrite Hw. apply findWaiter_fresh; [exact Hfresh|reflexivity]. }
  destruct Hoff as [Ht Hrun].
  split; [unfold armed in Harmed; congruence|].
  split; [exact Ht|]. split; [exact Hrun|].
  split; [|split; [|split; [|split; [|split]]]].
  - intros es Hes. destruct (timer_off_run es w1 Hes Ht) as [H1 H2].
    split; [exact H1|]. rewrite H2. subst w1. cbn [step].
    apply callStop_sameTicks.
  - reflexivity.
  - reflexivity.
  - intros Hp. subst w1. cbn [step]. now apply callStop_idle.
  - intros es Hn.
    destruct (isProcessing (service w)) eqn:Hp.
    + destruct (Hwait eq_refl) as [Hx _].
      eapply (stop_returns i c es w1 _ Hx); cbn [caller attempts];
        unfold maxAttempts; [reflexivity|lia|lia].
    + apply hasReturned_run. subst w1. cbn [step].
      now apply callStop_immediate.
  - intros Hp. destruct (Hwait Hp) as [Hx Hp1].
    split; [|split; [|split]].
    + subst w1. cbn [step] in *.
      destruct (callStop_waits c w Hr Hp) as (_ & _ & Hret & _ & _ & _ & _ & Hlogs).
      split; [exact Hret|]. split; [|exact Hlogs].
      unfold isWaiting. now rewrite Hx.
    + intros es Hes Hn.
      destruct (stuck_waits i es w1 _ Hx Hp1 Hes) as (Hp2 & x' & Hx' & _).
      { cbn [attempts]. unfold maxAttempts. lia. }
      split; [|exact Hp2]. unfold isWaiting. now rewrite Hx'.
    + intros es1 env es2 Hes1 Hn Hes2 w2 w3.
      destruct (graceful_return w c es1 env es2 Hfresh Hguard Hr Hp Hes1 Hn Hes2)
        as (H1 & _ & H3 & H4 & H5 & _ & H7).
      split; [exact H1|]. split; [|split; [exact H3|split; [exact H4|split; [exact H5|exact H7]]]].
      destruct (forallb_both _ _ _ Hes1) as [Hsettle1 Hstart1].
      destruct (forallb_both _ _ _ Hes2) as [Hstart2 _].
      destruct (stuck_waits i es1 w1 _ Hx Hp1 Hsettle1) as (Hp2 & _).
      { cbn [attempts]. unfold maxAttempts. lia. }
      destruct (timer_off_run es1 w1 Hstart1 Ht) as [Ht2 _].
      assert (Hg2 : guarded (run w1 es1)).
      { apply guarded_run. unfold w1. apply guarded_step, Hguard. }
      unfold guarded in Hg2. rewrite Hp2 in Hg2.
      assert (Hrest : atRest (step (run w1 es1) (TickSettles env))).
      { cbn [step]. unfold tickSettles, atRest. rewrite Hg2. fields.
        repeat split; assumption. }
      now destruct (atRest_run es2 _ Hstart2 Hrest) as ((_ & Hp4 & _) & _).
    + intros es Hes Hn w2 w3.
      destruct (stuck_waits i es w1 _ Hx Hp1 Hes) as (Hp2 & x' & Hx' & Hc' & Ha').
      { cbn [attempts]. unfold maxAttempts. lia. }
      cbn [caller attempts] in Hc', Ha'.
      split.
      * subst w2. unfold isWaiting. now rewrite Hx'.
      * subst w3. cbn [step].
        apply (forced_return i c w2 x' Hx' Hc'); [|exact Hp2].
        unfold maxAttempts. lia.
Qed.

(** The started service.  With its first tick stuck, [stop()] waits through
    29 sleeps and is forced out by the 30th; when the tick settles after two
    polls, the third poll returns the call, 3000 ms after it began to wait. *)
Lemma bounded_shutdown_witness :
  let w := run (init 5 Scenario.table) [CallStart] in
  let i := nextInvocation w in
  let w1 := step w (CallStop 7) in
  let w2 := run w1 (repeat (SleepElapses i) 29) in
  let w3 := step w2 (SleepElapses i) in
  let es1 := [SleepElapses 0; TimerFires; SleepElapses 0] in
  let g2 := run (step (run w1 es1) (TickSettles Scenario.allSucceed)) [TimerFires] in
  let g3 := step g2 (SleepElapses i) in
  timer (service w) = true /\
  timer (service w1) = false /\
  hasReturned 7 (run w1 (repeat (SleepElapses i) 30)) = true /\
  isWaiting i w2 = true /\
  logs w3
    = logs w2 ++ [{| level := WARN; line := ForcedShutdown |};
                  {| level := LOG; line := ServiceStopped |}] /\
  logs g3 = logs g2 ++ [{| level := LOG; line := ServiceStopped |}] /\
  exists rest,
    returned g3
    = returned g2
      ++ {| who := 7; sleptMs := 1000 * Z.of_nat (count (isSleepOf i) es1 + 1);
            stillProcessing := false |} :: rest.
Proof.
  intros w i w1 w2 w3 es1 g2 g3.
  destruct (bounded_shutdown 5 Scenario.table [CallStart] 7 eq_refl)
    as (Harmed & Ht & _ & _ & _ & _ & _ & Hret & Hbusy).
  destruct (Hbusy eq_refl) as (_ & _ & Hgrace & Hstuck).
  destruct (Hstuck (repeat (SleepElapses i) 29) eq_refl eq_refl)
    as (Hw & Hl & _ & _).
  destruct (Hgrace es1 Scenario.allSucceed [TimerFires] eq_refl) as (_ & _ & Hgl & Hgr & _).
  { vm_compute. repeat constructor. }
  { reflexivity. }
  split; [exact Harmed|]. split; [exact Ht|].
  split; [|split; [exact Hw|split; [exact Hl|split; [exact Hgl|exact Hgr]]]].
  apply (Hret (repeat (SleepElapses i) 30)).
  vm_compute. apply le_n.
Defined.

End Shutdown.

(** ** Whole prices through the price column *)

Section WholePrices.

Import PriceColumn.

Local Open Scope Z_scope.

Lemma roundHalfEven_exact (q d : Z) : 0 < d -> roundHalfEven (q * d) d = q.
Proof.
  intros Hd. unfold roundHalfEven. rewrite Z.div_mul, Z.mod_mul by lia.
  destruct (Z.ltb_spec (2 * 0) d); [reflexivity|lia].
Qed.

Lemma whole_exponent (n : Z) :
  0 < n < 10 ^ 10 ->
  -52 <= Z.log2 (n * 10 ^ 18) - Z.log2 (10 ^ 18) - 52 <= -18.
Proof.
  intros Hn.
  assert (H1 : Z.log2 (10 ^ 18) <= Z.log2 (n * 10 ^ 18)) by (apply Z.log2_le_mono; lia).
  assert (H2 : Z.log2 (n * 10 ^ 18) <= Z.log2 (10 ^ 28)) by (apply Z.log2_le_mono; lia).
  change (Z.log2 (10 ^ 18)) with 59 in *. change (Z.log2 (10 ^ 28)) with 93 in *.
  lia.
Qed.

Lemma whole_significand (n e : Z) :
  0 < n -> 
  let e0 := Z.log2 (n * 10 ^ 18) - Z.log2 (10 ^ 18) - 52 in
  e0 < 0 ->
  e = (if (fst (scaled (n * 10 ^ 18) (10 ^ 18) e0) <? 2 ^ 52 * snd (scaled (n * 10 ^ 18) (10 ^ 18) e0))
       then e0 - 1 else e0) ->
  n * 2 ^ (- e) < 2 ^ 53.
Proof.
  intros Hn e0 He0 ->.
  assert (Hspec : n * 10 ^ 18 < 2 ^ (Z.succ (Z.log2 (n * 10 ^ 18)))).
  { apply Z.log2_spec. lia. }
  unfold scaled. rewrite (proj2 (Z.ltb_lt e0 0) He0). cbn [fst snd].
  destruct (Z.ltb_spec (n * 10 ^ 18 * 2 ^ (- e0)) (2 ^ 52 * 10 ^ 18)) as [Hlt|Hge].
  - replace (- (e0 - 1)) with (- e0 + 1) by lia.
    rewrite Z.pow_add_r by lia. change (2 ^ 1) with 2. lia.
  - assert (H : n * 10 ^ 18 * 2 ^ (- e0) < 2 ^ 112).
    { replace 112 with (Z.succ (Z.log2 (n * 10 ^ 18)) + - e0).
      - rewrite Z.pow_add_r.
        + apply Z.mul_lt_mono_pos_r; [apply Z.pow_pos_nonneg; lia|exact Hspec].
        + pose proof (Z.log2_nonneg (n * 10 ^ 18)). lia.
        + lia.
      - unfold e0. change (Z.log2 (10 ^ 18)) with 59. lia. }
    lia.
Qed.

(** X14. Whole-number prices survive the price column: for every whole
    number [n] the column can hold, the value stored for [n] is in the
    column, and what [from] reads back is a binary64 that is exactly the
    stored decimal and is [===] to the number [n] that was written. *)
Theorem whole_prices_survive :
  forall n : Z,
    0 <= n < 10 ^ 10 ->
    let stored := {| unscaled := n * 10 ^ scale |} in
    inColumn stored = true /\
    represents (from stored) stored = true /\
    strict_eq (from stored) (num n) = true /\
    isBinary64 (from stored) = true.
Proof.
  intros n Hn stored.
  split.
  { unfold inColumn, stored, precision, scale. cbn [unscaled].
    apply andb_true_intro. split; [apply Z.leb_le|apply Z.ltb_lt]; lia. }
  unfold from, parseFloat, nearestBinary64, stored, scale. cbn [unscaled].
  destruct (Z.eqb_spec (n * 10 ^ 18) 0) as [H0|H0].
  { assert (n = 0) by lia. subst n. repeat split. }
  assert (Hpos : 0 < n) by lia.
  pose proof (whole_exponent n (conj Hpos (proj2 Hn))) as He0.
  pose proof (whole_significand n _ Hpos ltac:(lia) eq_refl) as Hm.
  cbv zeta in Hm.
  set (e0 := Z.log2 (n * 10 ^ 18) - Z.log2 (10 ^ 18) - 52) in *.
  set (e := if fst (scaled (n * 10 ^ 18) (10 ^ 18) e0)
                 <? 2 ^ 52 * snd (scaled (n * 10 ^ 18) (10 ^ 18) e0)
            then e0 - 1 else e0) in *.
  assert (He : -53 <= e < 0).
  { unfold e. destruct (_ <? _); lia. }
  assert (Hscaled : scaled (n * 10 ^ 18) (10 ^ 18) e
                    = (n * 2 ^ (- e) * 10 ^ 18, 10 ^ 18)).
  { unfold scaled. rewrite (proj2 (Z.ltb_lt e 0)) by lia. f_equal. lia. }
  rewrite Hscaled. cbn [fst snd]. rewrite roundHalfEven_exact by lia.
  destruct (Z.eqb_spec (n * 2 ^ (- e)) (2 ^ 53)) as [Heq|Hne]; [lia|].
  assert (Hmpos : 0 < n * 2 ^ (- e)).
  { apply Z.mul_pos_pos; [lia|apply Z.pow_pos_nonneg; lia]. }
  split; [|split].
  - unfold represents. cbn [mant expo unscaled].
    rewrite (proj2 (Z.ltb_lt e 0)) by lia. apply Z.eqb_eq. unfold scale. lia.
  - unfold strict_eq, num. cbn [mant expo].
    rewrite Z.min_l by lia. apply Z.eqb_eq.
    replace (e - e) with 0 by lia. replace (0 - e) with (- e) by lia.
    rewrite Z.pow_0_r. lia.
  - unfold isBinary64. cbn [mant expo]. rewrite Z.abs_eq by lia.
    rewrite (proj2 (Z.ltb_lt _ _) Hm).
    rewrite (proj2 (Z.leb_le (-1074) e)) by lia.
    rewrite (proj2 (Z.leb_le e 971)) by lia. reflexivity.
Qed.

Lemma whole_prices_survive_witness :
  represents (from {| unscaled := 300000 * 10 ^ scale |})
             {| unscaled := 300000 * 10 ^ scale |} = true.
Proof.
  apply (whole_prices_survive 300000). vm_compute. split; [discriminate|reflexivity].
Defined.

End WholePrices.

(** ** The price field, written and read *)

Section PriceRoundTrip.

Import PriceColumn.

Local Open Scope Z_scope.
















End PriceRoundTrip.

(** ** The producer's connection *)

Section ProducerConnection.

Import KafkaProducerLifecycle.

Lemma destroy_off (answer : Disconnect) (connected : bool) :
  isConnected (onModuleDestroy answer connected) = false /\
  result (onModuleDestroy answer connected) = Fulfilled tt.
Proof.
  unfold onModuleDestroy. destruct connected; cbn [negb]; [|split; reflexivity].
  destruct (snd (race answer)); split; reflexivity.
Qed.

(** X15. [onModuleDestroy()] of the producer always ends disconnected and
    never rejects, whether [producer.disconnect()] resolves, rejects or never
    settles; it waits at most 10000 ms; it calls [producer.disconnect()]
    exactly when the producer was connected, and logs
    [Disconnected from Kafka] exactly when that call resolved within the
    10000 ms, the moment the timer is due included; a second
    [onModuleDestroy()] only logs that it skips the disconnect. *)
Theorem destroy_always_disconnects :
  forall (answer answer' : Disconnect) (connected : bool),
    let c := onModuleDestroy answer connected in
    isConnected c = false /\
    result c = Fulfilled tt /\
    (forall ms, In (Waited ms) (io c) -> (ms <= disconnectTimeout)%Z) /\
    (In ProducerDisconnect (io c) <-> connected = true) /\
    (In (Said LOG DisconnectedFromKafka) (io c) <->
     connected = true /\
     exists ms, answer = Settles ms None /\ (ms <= disconnectTimeout)%Z) /\
    io (onModuleDestroy answer' (isConnected c)) = [Said LOG NotConnectedSkipping].
Proof.
  intros answer answer' connected c.
  destruct (destroy_off answer connected) as [Hoff Hres].
  split; [exact Hoff|]. split; [exact Hres|]. split; [|split; [|split]].
  - assert (Hrace : (fst (race answer) <= disconnectTimeout)%Z).
    { unfold race. destruct answer as [ms failure|]; [|cbn [fst]; lia].
      destruct (Z.leb_spec ms disconnectTimeout); cbn [fst]; lia. }
    intros ms. unfold c, onModuleDestroy.
    destruct connected; cbn [negb]; [|intros [H|[]]; discriminate].
    destruct (snd (race answer)); cbn [io];
      intros [H|[H|[H|[H|[]]]]]; try discriminate; injection H as <-; exact Hrace.
  - unfold c, onModuleDestroy. destruct connected; cbn [negb].
    + split; [reflexivity|]. intros _.
      destruct (snd (race answer)); cbn [io]; right; left; reflexivity.
    + split; [intros [H|[]]; discriminate|discriminate].
  - unfold c, onModuleDestroy. destruct connected; cbn [negb];
      [|split; [intros [H|[]]; discriminate|intros [H _]; discriminate]].
    unfold race. destruct answer as [ms failure|]; cbn [fst snd io].
    + destruct (Z.leb_spec ms disconnectTimeout) as [Hlt|Hge]; cbn [fst snd].
      * destruct failure as [e|]; cbn [io].
        -- split; [intros [H|[H|[H|[H|[]]]]]; discriminate|].
           intros (_ & ms' & H & _). discriminate.
        -- split; [|intros _; do 3 right; left; reflexivity].
           intros _. split; [reflexivity|]. exists ms. split; [reflexivity|exact Hlt].
      * cbn [io]. split; [intros [H|[H|[H|[H|[]]]]]; discriminate|].
        intros (_ & ms' & H & Hlt). injection H as <- _. lia.
    + split; [intros [H|[H|[H|[H|[]]]]]; discriminate|].
      intros (_ & ms' & H & _). discriminate.
  - unfold c. rewrite Hoff. reflexivity.
Qed.

(** A disconnect that resolves just as the timer is due is logged as
    disconnected. *)
Lemma destroy_always_disconnects_witness :
  In (Said LOG DisconnectedFromKafka) (io (onModuleDestroy (Settles 10000 None) true)) /\
  ~ In (Said LOG DisconnectedFromKafka) (io (onModuleDestroy (Settles 10001 None) true)).
Proof.
  destruct (destroy_always_disconnects (Settles 10000 None) Hangs true)
    as (_ & _ & _ & _ & Hat & _).
  destruct (destroy_always_disconnects (Settles 10001 None) Hangs true)
    as (_ & _ & _ & _ & Hafter & _).
  split.
  - apply Hat. split; [reflexivity|]. exists 10000%Z. split; [reflexivity|].
    unfold disconnectTimeout. lia.
  - intros Hin. apply Hafter in Hin. destruct Hin as (_ & ms & Heq & Hle).
    injection Heq as <-. unfold disconnectTimeout in Hle. lia.
Defined.

Lemma serve_offline (r : Request) :
  isConnects r = false ->
  fst (serve false r) = false /\
  forall parse broker message,
    r = Publish parse broker message ->
    snd (serve false r) = ([], Rejected "Kafka producer is not connected").
Proof.
  intros Hr. destruct r as [[e|]|answer|parse broker message]; cbn [serve fst snd];
    try discriminate.
  - split; [reflexivity|discriminate].
  - split; [reflexivity|discriminate].
  - split; [reflexivity|]. intros p b m _. reflexivity.
Qed.

Lemma serveAll_offline (rs : list Request) :
  forallb (fun r => negb (isConnects r)) rs = true ->
  fst (serveAll false rs) = false /\
  forall parse broker message answer,
    In (Publish parse broker message, answer) (snd (serveAll false rs)) ->
    answer = ([], Rejected "Kafka producer is not connected").
Proof.
  induction rs as [|r rs IH]; intros Hrs; [split; [reflexivity|intros ? ? ? ? []]|].
  cbn [forallb] in Hrs. apply andb_prop in Hrs. destruct Hrs as [Hr Hrs].
  apply negb_true_iff in Hr.
  destruct (serve_offline r Hr) as [Hflag Hpub].
  destruct (IH Hrs) as [Hfinal Hrest].
  cbn [serveAll]. destruct (serve false r) as [connected' answer] eqn:E.
  cbn [fst snd] in Hflag, Hpub. subst connected'.
  destruct (serveAll false rs) as [final answers]. cbn [fst snd] in *.
  split; [exact Hfinal|].
  intros parse broker message a [H|H].
  - injection H as -> <-. now apply (Hpub parse broker message).
  - now apply (Hrest parse broker message).
Qed.

(** X16. Whatever is called on the producer, a publish call reaches the
    broker only after a [connect()] that succeeded: from the start, and
    again from any [onModuleDestroy()] on, as long as no [onModuleInit()]
    succeeds the producer stays disconnected (a failed connect does not
    change that) and every publish call is rejected with
    [Kafka producer is not connected] without a send. *)
Theorem publish_needs_connection :
  forall (rs : list Request),
    forallb (fun r => negb (isConnects r)) rs = true ->
    (fst (serveAll false rs) = false /\
     forall parse broker message answer,
       In (Publish parse broker message, answer) (snd (serveAll false rs)) ->
       answer = ([], Rejected "Kafka producer is not connected")) /\
    (forall connected disconnect,
       fst (serveAll connected (Destroy disconnect :: rs)) = false /\
       forall parse broker message answer,
         In (Publish parse broker message, answer)
            (snd (serveAll connected (Destroy disconnect :: rs))) ->
         answer = ([], Rejected "Kafka producer is not connected")).
Proof.
  intros rs Hrs. destruct (serveAll_offline rs Hrs) as [Hfinal Hpub].
  split; [split; assumption|].
  intros connected disconnect.
  destruct (destroy_off disconnect connected) as [Hoff _].
  cbn [serveAll serve]. rewrite Hoff.
  destruct (serveAll false rs) as [final answers]. cbn [fst snd] in *.
  split; [exact Hfinal|].
  intros parse broker message a [H|H]; [discriminate|].
  now apply (Hpub parse broker message).
Qed.

Lemma publish_needs_connection_witness :
  let message := {| tokenId := "A"; msgSymbol := "ETH"; oldPrice := num 1;
                    newPrice := num 2; timestamp := 0 |} in
  let rs := [Init (Some "refused"); Publish (fun _ => None) Scenario.up message] in
  fst (serveAll true (Destroy Hangs :: rs)) = false /\
  forall answer,
    In (Publish (fun _ => None) Scenario.up message, answer)
       (snd (serveAll true (Destroy Hangs :: rs))) ->
    answer = ([], Rejected "Kafka producer is not connected").
Proof.
  intros message rs.
  destruct (publish_needs_connection rs eq_refl) as [_ H].
  destruct (H true Hangs) as [Hfinal Hpub].
  split; [exact Hfinal|]. intros answer. apply Hpub.
Defined.

End ProducerConnection.

(** ** The migrations *)

Section MigrationFacts.

Import Migrations.

Lemma query_create (accepts : Statement -> bool) (s s' : Schema) (name column : string) :
  query accepts s (CreateIndex name column) = Some s' ->
  hasIndex name s = false /\
  s' = {| priceType := priceType s;
          indexes := indexes s ++ [{| indexName := name; indexColumn := column |}] |}.
Proof.
  unfold query. destruct (accepts _); cbn [negb]; [|discriminate].
  destruct (hasIndex name s); [discriminate|]. intros H. injection H as <-. auto.
Qed.

Lemma query_keeps (accepts : Statement -> bool) (idx : Index) (s s' : Schema)
    (st : Statement) :
  query accepts s st = Some s' ->
  keeps idx st = true ->
  In idx (indexes s) -> In idx (indexes s').
Proof.
  unfold query. destruct (accepts st); cbn [negb]; [|discriminate].
  destruct st as [p sc|name column|name|columns|text]; cbn [keeps].
  - intros H _. injection H as <-. auto.
  - destruct (hasIndex name s); [discriminate|]. intros H _ Hin.
    injection H as <-. cbn [indexes]. apply in_or_app. now left.
  - destruct (hasIndex name s); [|discriminate]. intros H Hk Hin.
    injection H as <-. cbn [indexes]. apply filter_In. split; assumption.
  - intros H Hk Hin. injection H as <-. cbn [indexes]. apply filter_In.
    split; assumption.
  - intros H _. injection H as <-. auto.
Qed.

Lemma queries_keep (accepts : Statement -> bool) (idx : Index) (sts : list Statement) :
  forall s s',
    queries accepts s sts = Some s' ->
    forallb (keeps idx) sts = true ->
    In idx (indexes s) -> In idx (indexes s').
Proof.
  induction sts as [|st sts IH]; intros s s' H Hk Hin; cbn [queries] in H.
  - injection H as <-. exact Hin.
  - cbn [forallb] in Hk. apply andb_prop in Hk. destruct Hk as [Hst Hk].
    destruct (query accepts s st) as [s1|] eqn:E; [|discriminate].
    apply (IH s1 s' H Hk). exact (query_keeps accepts idx s s1 st E Hst Hin).
Qed.

(** Once created, an index is there at the end of the migration unless a
    later statement drops it. *)
Lemma queries_created (accepts : Statement -> bool) (name column : string)
    (pre rest : list Statement) :
  forall s s',
    queries accepts s (pre ++ CreateIndex name column :: rest) = Some s' ->
    forallb (keeps {| indexName := name; indexColumn := column |}) rest = true ->
    In {| indexName := name; indexColumn := column |} (indexes s').
Proof.
  induction pre as [|st pre IH]; intros s s' H Hk; cbn [app queries] in H.
  - destruct (query accepts s (CreateIndex name column)) as [s1|] eqn:E; [|discriminate].
    apply (queries_keep accepts _ rest s1 s' H Hk).
    apply query_create in E. destruct E as [_ ->]. cbn [indexes].
    apply in_or_app. right. now left.
  - destruct (query accepts s st) as [s1|]; [|discriminate]. exact (IH s1 s' H Hk).
Qed.

(** A [CREATE INDEX] under a name that is taken when the migration begins,
    and has not been dropped by then, makes the migration fail. *)
Lemma queries_blocked (accepts : Statement -> bool) (idx : Index) (column : string)
    (pre rest : list Statement) :
  forall s,
    In idx (indexes s) ->
    forallb (keeps idx) pre = true ->
    queries accepts s (pre ++ CreateIndex (indexName idx) column :: rest) = None.
Proof.
  induction pre as [|st pre IH]; intros s Hin Hk; cbn [app queries].
  - unfold query. destruct (accepts _); cbn [negb]; [|reflexivity].
    assert (Hhas : hasIndex (indexName idx) s = true).
    { unfold hasIndex. apply existsb_exists. exists idx. split; [exact Hin|].
      apply String.eqb_refl. }
    now rewrite Hhas.
  - cbn [forallb] in Hk. apply andb_prop in Hk. destruct Hk as [Hst Hk].
    destruct (query accepts s st) as [s1|] eqn:E; [|reflexivity].
    apply IH; [|exact Hk]. exact (query_keeps accepts idx s s1 st E Hst Hin).
Qed.

(** X17. The two migrations of the [tokens] table cannot both be applied:
    each creates an index named [IDX_tokens_chainId] and neither drops it,
    so on every schema and whatever else the database accepts, once
    [FixPriceDecimalPrecision.up] has succeeded [NormalizeDatabase.up]
    fails, and the other way round. *)
Theorem migrations_collide :
  forall (accepts accepts' : Statement -> bool) (s s1 : Schema),
    (queries accepts s FixPriceDecimalPrecision.up = Some s1 ->
     queries accepts' s1 NormalizeDatabase.up = None) /\
    (queries accepts s NormalizeDatabase.up = Some s1 ->
     queries accepts' s1 FixPriceDecimalPrecision.up = None).
Proof.
  intros accepts accepts' s s1.
  set (idx := {| indexName := "IDX_tokens_chainId"; indexColumn := "chainId" |}).
  split; intros Hup.
  - assert (Hin : In idx (indexes s1)).
    { apply (queries_created accepts "IDX_tokens_chainId" "chainId"
               (firstn 3 FixPriceDecimalPrecision.up)
               (skipn 4 FixPriceDecimalPrecision.up) s s1 Hup).
      reflexivity. }
    apply (queries_blocked accepts' idx "chainId"
             (firstn 9 NormalizeDatabase.up) (skipn 10 NormalizeDatabase.up) s1 Hin).
    reflexivity.
  - assert (Hin : In idx (indexes s1)).
    { apply (queries_created accepts "IDX_tokens_chainId" "chainId"
               (firstn 9 NormalizeDatabase.up)
               (skipn 10 NormalizeDatabase.up) s s1 Hup).
      reflexivity. }
    apply (queries_blocked accepts' idx "chainId"
             (firstn 3 FixPriceDecimalPrecision.up)
             (skipn 4 FixPriceDecimalPrecision.up) s1 Hin).
    reflexivity.
Qed.

(** On a table without indexes whose price column is still [numeric(28,0)],
    with a database that accepts every statement. *)
Lemma migrations_collide_witness :
  let s := {| priceType := NumericType 28 0; indexes := [] |} in
  exists s1,
    queries (fun _ => true) s FixPriceDecimalPrecision.up = Some s1 /\
    queries (fun _ => true) s1 NormalizeDatabase.up = None.
Proof.
  intros s. eexists. split; [reflexivity|].
  eapply (migrations_collide (fun _ => true) (fun _ => true) s). reflexivity.
Defined.

Lemma query_drop_last (accepts : Statement -> bool) (t : ColumnType)
    (l : list Index) (name column : string) :
  accepts (DropIndex name) = true ->
  hasIndex name {| priceType := t; indexes := l |} = false ->
  query accepts
    {| priceType := t;
       indexes := l ++ [{| indexName := name; indexColumn := column |}] |}
    (DropIndex name)
  = Some {| priceType := t; indexes := l |}.
Proof.
  intros Ha Habsent. unfold query, hasIndex in *. rewrite Ha. cbn [negb indexes priceType] in *.
  rewrite existsb_app. cbn [existsb indexName]. rewrite String.eqb_refl, orb_true_r.
  cbn [orb]. rewrite filter_app. cbn [filter indexName]. rewrite String.eqb_refl.
  cbn [negb]. rewrite app_nil_r. do 2 f_equal.
  induction l as [|i l IH]; [reflexivity|].
  cbn [existsb] in Habsent. apply orb_false_elim in Habsent.
  destruct Habsent as [Hi Hl]. cbn [filter]. rewrite Hi. cbn [negb].
  f_equal. exact (IH Hl).
Qed.

(** X18. [FixPriceDecimalPrecision]: when [up] succeeds, the price column
    is [numeric(28,18)] and exactly the four indexes are added, in the
    order price, symbol, chainId, address; [down] then succeeds when the
    database accepts its statements and removes exactly these four, but
    leaves the price column as [numeric(28,0)] whatever its type was before
    [up]. *)
Theorem price_migration_reverts :
  forall (accepts accepts' : Statement -> bool) (s s1 : Schema),
    queries accepts s FixPriceDecimalPrecision.up = Some s1 ->
    (forall st, In st FixPriceDecimalPrecision.down -> accepts' st = true) ->
    priceType s1 = NumericType 28 18 /\
    indexes s1
      = indexes s ++ [{| indexName := "IDX_tokens_price"; indexColumn := "price" |};
                      {| indexName := "IDX_tokens_symbol"; indexColumn := "symbol" |};
                      {| indexName := "IDX_tokens_chainId"; indexColumn := "chainId" |};
                      {| indexName := "IDX_tokens_address"; indexColumn := "address" |}] /\
    queries accepts' s1 FixPriceDecimalPrecision.down
      = Some {| priceType := NumericType 28 0; indexes := indexes s |}.
Proof.
  intros accepts accepts' s s1 Hup Hdown.
  unfold FixPriceDecimalPrecision.up in Hup. cbn [queries] in Hup.
  destruct (query accepts s (AlterPriceType 28 18)) as [s2|] eqn:E0; [|discriminate].
  assert (Hs2 : s2 = {| priceType := NumericType 28 18; indexes := indexes s |}).
  { unfold query in E0. destruct (accepts _); cbn [negb] in E0; [|discriminate].
    now injection E0 as <-. }
  destruct (query accepts s2 (CreateIndex "IDX_tokens_price" "price"))
    as [s3|] eqn:E1; [|discriminate].
  destruct (query accepts s3 (CreateIndex "IDX_tokens_symbol" "symbol"))
    as [s4|] eqn:E2; [|discriminate].
  destruct (query accepts s4 (CreateIndex "IDX_tokens_chainId" "chainId"))
    as [s5|] eqn:E3; [|discriminate].
  destruct (query accepts s5 (CreateIndex "IDX_tokens_address" "address"))
    as [s6|] eqn:E4; [|discriminate].
  injection Hup as <-.
  apply query_create in E1, E2, E3, E4.
  destruct E1 as [A1 ->], E2 as [A2 ->], E3 as [A3 ->], E4 as [A4 ->].
  subst s2. cbn [priceType indexes] in *.
  split; [reflexivity|]. split; [now rewrite <- !app_assoc|].
  unfold FixPriceDecimalPrecision.down. cbn [queries].
  rewrite (query_drop_last accepts' _ _ _ _ (Hdown _ (or_introl eq_refl)) A4).
  rewrite (query_drop_last accepts' _ _ _ _
             (Hdown _ (or_intror (or_introl eq_refl))) A3).
  rewrite (query_drop_last accepts' _ _ _ _
             (Hdown _ (or_intror (or_intror (or_introl eq_refl)))) A2).
  rewrite (query_drop_last accepts' _ _ _ _
             (Hdown _ (or_intror (or_intror (or_intror (or_introl eq_refl))))) A1).
  unfold query.
  rewrite (Hdown (AlterPriceType 28 0)) by (do 4 right; left; reflexivity).
  reflexivity.
Qed.

Lemma price_migration_reverts_witness :
  let s := {| priceType := OtherType "integer"; indexes := [] |} in
  exists s1,
    queries (fun _ => true) s FixPriceDecimalPrecision.up = Some s1 /\
    queries (fun _ => true) s1 FixPriceDecimalPrecision.down
    = Some {| priceType := NumericType 28 0; indexes := [] |}.
Proof.
  intros s. eexists. split; [reflexivity|].
  eapply (price_migration_reverts (fun _ => true) (fun _ => true) s);
    [reflexivity|reflexivity].
Defined.

End MigrationFacts.

(** ** Seeding and the start of the application *)

Section BootFacts.

Import Scheduler.
Import Boot.

Lemma seed_rejected_tokens (env : SeedEnv) (app : App) (e : Error) :
  settled (seed env app) = Rejected e ->
  world (seeded (seed env app)) = withRows (tokens app) (world app).
Proof.
  unfold seed.
  destruct (countResult env); cbn [settled seeded].
  - intros _. unfold withRows, tokens. now destruct (world app).
  - destruct (0 <? List.length (tokens app))%nat; cbn [settled]; [discriminate|].
    destruct (chainSave env); cbn [settled seeded].
    + intros _. unfold withRows, tokens. now destruct (world app).
    + destruct (logoSave env); cbn [settled seeded withTables world]; [reflexivity|].
      destruct (tokenSave env); cbn [settled seeded withTables world];
        [reflexivity|discriminate].
Qed.

Lemma seed_fulfilled_tokens (env : SeedEnv) (app : App) :
  settled (seed env app) = Fulfilled tt ->
  (0 <? List.length (tokens (seeded (seed env app))))%nat = true /\
  service (world (seeded (seed env app))) = service (world app) /\
  begun (world (seeded (seed env app))) = begun (world app) /\
  inFlight (world (seeded (seed env app))) = inFlight (world app).
Proof.
  unfold seed.
  destruct (countResult env); cbn [settled seeded]; [discriminate|].
  destruct (0 <? List.length (tokens app))%nat eqn:Hcount; cbn [settled seeded];
    [auto|].
  destruct (chainSave env); cbn [settled]; [discriminate|].
  destruct (logoSave env); cbn [settled]; [discriminate|].
  destruct (tokenSave env); cbn [settled seeded]; [discriminate|].
  intros _. unfold tokens, withTables, withRows. cbn [world rows service begun inFlight].
  split; [|auto]. rewrite length_app.
  destruct (tokenIds env) as [[eth btc] sol]. cbn [tokenData List.length].
  apply Nat.ltb_lt. lia.
Qed.

(** X19. [AppModule.onModuleInit()] starts the price updates only on a
    seeded table.  When [seed()] resolves, the service is running, its first
    tick is in flight and the table is not empty.  When [seed()] rejects,
    the error goes to [console.error] and the call still returns: the
    service is not started, the tokens table is what it was, and whatever
    timers and collaborators do afterwards no tick ever begins. *)
Theorem boot_starts_only_after_seeding :
  forall (env : SeedEnv) (cs : list Chain) (ls : list Logo)
         (interval : Z) (table : Pipeline.Store),
    let app := {| chains := cs; logos := ls; world := init interval table |} in
    let booted := onModuleInit env app in
    match settled (seed env app) with
    | Fulfilled _ =>
        snd booted = [] /\
        isRunning (service (world (fst booted))) = true /\
        timer (service (world (fst booted))) = true /\
        isProcessing (service (world (fst booted))) = true /\
        begun (world (fst booted)) = 1%nat /\
        tokens (fst booted) <> []
    | Rejected e =>
        snd booted = [e] /\
        isRunning (service (world (fst booted))) = false /\
        tokens (fst booted) = table /\
        forall es,
          forallb fromEnvironment es = true ->
          begun (run (world (fst booted)) es) = 0%nat /\
          rows (run (world (fst booted)) es) = table
    end.
Proof.
  intros env cs ls interval table app booted. unfold booted, onModuleInit.
  destruct (settled (seed env app)) as [[]|e] eqn:Hseed; cbn [fst snd world].
  - destruct (seed_fulfilled_tokens env app Hseed) as (Hlen & Hsvc & Hb & Hn).
    unfold tokens in *. cbn [world].
    assert (Hsvc' : service (world (seeded (seed env app)))
                    = service (init interval table)) by exact Hsvc.
    unfold start. rewrite Hsvc'. cbn [init service isRunning].
    unfold beginTick. fields. rewrite Hsvc'. cbn [init service isProcessing].
    fields. rewrite Hb.
    repeat split.
    intros Hnil. rewrite Hnil in Hlen. discriminate.
  - pose proof (seed_rejected_tokens env app e Hseed) as Hw.
    unfold tokens. rewrite Hw. cbn [app world withRows init rows service isRunning].
    split; [reflexivity|]. split; [reflexivity|]. split; [reflexivity|].
    intros es Hes.
    assert (Hstart : forallb (fun e0 => negb (isStart e0)) es = true).
    { clear -Hes. induction es as [|e0 es IH]; [reflexivity|].
      cbn [forallb] in *. apply andb_prop in Hes. destruct Hes as [He Hes].
      rewrite (IH Hes). now destruct e0. }
    destruct (atRest_run es (withRows (tokens app) (init interval table)) Hstart)
      as (_ & Hr & Hb); [repeat split|].
    split; [exact Hb|exact Hr].
Qed.

(** The tokens cannot be saved: the application comes up idle. *)
Lemma boot_starts_only_after_seeding_witness :
  let booted := onModuleInit (SeedScenario.tokensFail ("u1", "u2", "u3"))
                             SeedScenario.fresh in
  snd booted = ["boom"] /\
  begun (run (world (fst booted)) [TimerFires; TimerFires]) = 0%nat.
Proof.
  intros booted.
  pose proof (boot_starts_only_after_seeding
                (SeedScenario.tokensFail ("u1", "u2", "u3")) [] [] 5 []) as H.
  cbv zeta in H.
  change (settled (seed (SeedScenario.tokensFail ("u1", "u2", "u3"))
                        {| chains := []; logos := []; world := init 5 [] |}))
    with (@Rejected unit "boom") in H.
  destruct H as (Hc & _ & _ & Hidle).
  split; [exact Hc|]. apply (Hidle [TimerFires; TimerFires]). reflexivity.
Defined.

Lemma upsert_fresh {A} (key : A -> string) (x : A) (table : list A) :
  ~ In (key x) (map key table) -> upsert key x table = table ++ [x].
Proof.
  induction table as [|r table IH]; cbn [upsert map app]; [reflexivity|].
  intros Hnot. destruct (String.eqb_spec (key r) (key x)) as [Heq|Hne].
  - exfalso. apply Hnot. now left.
  - f_equal. apply IH. intros Hin. apply Hnot. now right.
Qed.

Lemma upsert_has {A} (key : A -> string) (x : A) (table : list A) (k : string) :
  In k (map key (upsert key x table)) <-> k = key x \/ In k (map key table).
Proof.
  induction table as [|r table IH]; cbn [upsert map].
  - cbn [In]. intuition.
  - destruct (String.eqb_spec (key r) (key x)) as [Heq|Hne]; cbn [map In].
    + rewrite Heq. intuition.
    + rewrite IH. intuition.
Qed.

Lemma saveAll_fresh {A} (key : A -> string) (xs : list A) :
  forall table,
    NoDup (map key table ++ map key xs) -> saveAll key xs table = table ++ xs.
Proof.
  unfold saveAll.
  induction xs as [|x xs IH]; intros table Hnd; cbn [fold_left map] in *.
  - now rewrite app_nil_r.
  - rewrite upsert_fresh.
    + rewrite IH; [now rewrite <- app_assoc|].
      rewrite map_app. cbn [map]. now rewrite <- app_assoc.
    + intros Hin. apply NoDup_remove_2 in Hnd. apply Hnd, in_or_app. now left.
Qed.

(** X20. [seed()] is idempotent: once it has resolved, a further call whose
    count succeeds finds the table seeded, logs that it skips and changes
    nothing. *)
Theorem seed_idempotent :
  forall (env env' : SeedEnv) (app : App),
    settled (seed env app) = Fulfilled tt ->
    countResult env' = None ->
    seed env' (seeded (seed env app))
    = {| seeded := seeded (seed env app); said := [(LOG, AlreadySeeded)];
         settled := Fulfilled tt |}.
Proof.
  intros env env' app Hseed Hcount.
  destruct (seed_fulfilled_tokens env app Hseed) as [Hlen _].
  unfold seed at 1. now rewrite Hcount, Hlen.
Qed.

Lemma seed_idempotent_witness :
  said (seed (SeedScenario.seeding ("u4", "u5", "u6"))
             (seeded (seed (SeedScenario.seeding ("u1", "u2", "u3"))
                           SeedScenario.fresh)))
  = [(LOG, AlreadySeeded)].
Proof.
  rewrite (seed_idempotent (SeedScenario.seeding ("u1", "u2", "u3"))
             (SeedScenario.seeding ("u4", "u5", "u6")) SeedScenario.fresh eq_refl eq_refl).
  reflexivity.
Defined.

(** X21. [seed()] is not atomic.  When the chains and the logos are saved
    and the save of the tokens rejects, [seed()] rejects with that error but
    the chains and logos stay: with UUIDs that are new and distinct, the
    three logos are appended to the table and every seed chain has its row.
    The tokens table is still empty, so that the next [seed()] does not
    skip. *)
Theorem failed_seed_leaves_rows :
  forall (env : SeedEnv) (app : App) (e : Error),
    tokens app = [] ->
    countResult env = None -> chainSave env = None -> logoSave env = None ->
    tokenSave env = Some e ->
    NoDup (map logoId (logos app) ++ map logoId (seedLogos (logoIds env))) ->
    let s := seed env app in
    settled s = Rejected e /\
    tokens (seeded s) = [] /\
    logos (seeded s) = logos app ++ seedLogos (logoIds env) /\
    (forall c, In c seedChains -> In (chainId c) (map chainId (chains (seeded s)))) /\
    (forall env', countResult env' = None ->
                  said (seed env' (seeded s)) <> [(LOG, AlreadySeeded)]).
Proof.
  intros env app e Htokens Hcount Hchains Hlogos Hsave Hfresh s.
  assert (Hs : s = {| seeded := withTables (saveAll chainId seedChains (chains app))
                                  (saveAll logoId (seedLogos (logoIds env)) (logos app))
                                  (tokens app) app;
                      said := [(LOG, SeedingInitialData); (LOG, ChainsCreated);
                               (LOG, LogosCreated); (ERROR, FailedToSeed)];
                      settled := Rejected e |}).
  { unfold s, seed. now rewrite Hcount, Htokens, Hchains, Hlogos, Hsave. }
  rewrite Hs. cbn [settled seeded withTables logos chains].
  assert (Ht : tokens (withTables (saveAll chainId seedChains (chains app))
                         (saveAll logoId (seedLogos (logoIds env)) (logos app))
                         (tokens app) app) = []).
  { unfold tokens at 1. cbn [withTables world withRows rows]. exact Htokens. }
  split; [reflexivity|]. split; [exact Ht|]. split; [|split].
  - apply saveAll_fresh, Hfresh.
  - intros c Hc. unfold saveAll, seedChains in *. cbn [fold_left].
    rewrite !upsert_has. cbn [chainId].
    destruct Hc as [<-|[<-|[<-|[]]]]; cbn [chainId]; auto.
  - intros env' Hcount'. unfold seed. rewrite Hcount', Ht. cbn [List.length Nat.ltb Nat.leb].
    destruct (chainSave env'); [discriminate|].
    destruct (logoSave env'); [discriminate|].
    destruct (tokenSave env'); discriminate.
Qed.

Lemma failed_seed_leaves_rows_witness :
  let s := seed (SeedScenario.tokensFail ("u1", "u2", "u3")) SeedScenario.fresh in
  settled s = Rejected "boom" /\ List.length (logos (seeded s)) = 3%nat.
Proof.
  intros s.
  destruct (failed_seed_leaves_rows (SeedScenario.tokensFail ("u1", "u2", "u3"))
              SeedScenario.fresh "boom" eq_refl eq_refl eq_refl eq_refl eq_refl)
    as (Hs & _ & Hl & _).
  - cbn. repeat constructor; cbn; intuition discriminate.
  - split; [exact Hs|]. fold s in Hl. rewrite Hl. reflexivity.
Defined.

End BootFacts.
